(** * xv6 buffer cache (kernel/bio.c) and page allocator (kernel/kalloc.c)

    A shallow embedding of the two files and the properties their
    specification states about them.  Kernel routines become functions on
    an explicit state; [panic], a null dereference, a sleeping caller and a
    loop that does not exit are the constructors of [res].

    Spin locks ([bcache.lock], [bcache.bucketlock], [kmem.lock]) only
    delimit critical sections: every routine below is one atomic step and
    the spin locks are not part of the state. *)

From Stdlib Require Import ZArith List Lia String Bool.
From stdpp Require Import base list.

Local Open Scope Z_scope.

(* ================================================================== *)
(** * Results of a kernel routine *)

Inductive res (A : Type) : Type :=
| Ok (a : A)              (* the routine returned [a] *)
| Sleep (a : A)           (* acquiresleep found the lock taken; the caller
                             sleeps, the state reached so far is [a] *)
| Panic (msg : string)    (* panic(msg) *)
| Fault                   (* load or store through a null or wild pointer *)
| Diverge.                (* a loop ran out of its iteration bound *)

Arguments Ok {A} a.
Arguments Sleep {A} a.
Arguments Panic {A} msg.
Arguments Fault {A}.
Arguments Diverge {A}.

(** The kernel stops: [panic], or the trap taken on a bad pointer. *)
Definition halts {A} (r : res A) : Prop :=
  match r with
  | Panic _ | Fault => True
  | _ => False
  end.

(* ================================================================== *)
(** * kalloc.c *)

(** Modelled from the spec: PGSIZE of riscv.h, which is not among the
    sources; "Page size (reference value: 4096 bytes)", and kalloc.c itself
    says "Allocates whole 4096-byte pages". *)
Definition PGSIZE : Z := 4096.

(** [uint64] and [int] arithmetic, wrap-around written out. *)
Definition wrap64 (z : Z) : Z := z mod 2 ^ 64.
Definition wrap_int (z : Z) : Z := (z + 2 ^ 31) mod 2 ^ 32 - 2 ^ 31.
Definition INT_MAX : Z := 2 ^ 31 - 1.

(** Modelled from the spec: the macro PGROUNDUP of riscv.h, which is not
    among the sources; "pages are carved out of a raw address range" from
    the first page boundary at or after the start:
    [(((sz)+PGSIZE-1) & ~(PGSIZE-1))] on [uint64]. *)
Definition PGROUNDUP (sz : Z) : Z :=
  Z.land (wrap64 (sz + PGSIZE - 1)) (wrap64 (Z.lnot (PGSIZE - 1))).

(** Physical memory is a byte array; the array [ref] holds one [int] per
    page; [kmem.freelist] is the address of the first free page or 0. *)
Definition memory : Type := Z -> Z.

Record kstate : Type := mkKstate {
  ref : Z -> Z;
  ram : memory;
  freelist : Z
}.

Definition upd (f : Z -> Z) (i v : Z) : Z -> Z :=
  fun j => if j =? i then v else f j.

(** [memset(dst, c, n)] *)
Definition memset (m : memory) (dst c n : Z) : memory :=
  fun a => if (dst <=? a) && (a <? dst + n) then c mod 256 else m a.

(** A little-endian load and store of [n] bytes: [r->next] is the first
    8 bytes of the page [r]. *)
Fixpoint load_le (m : memory) (a : Z) (n : nat) : Z :=
  match n with
  | O => 0
  | S n' => m a + 256 * load_le m (a + 1) n'
  end.

Fixpoint store_le (m : memory) (a : Z) (n : nat) (v : Z) : memory :=
  match n with
  | O => m
  | S n' => store_le (upd m a (v mod 256)) (a + 1) n' (v / 256)
  end.

Definition run_next (m : memory) (r : Z) : Z := load_le m r 8.
Definition set_run_next (m : memory) (r v : Z) : memory := store_le m r 8 v.

Definition getref (st : kstate) (pa : Z) : Z := ref st (pa / PGSIZE).

Definition addref (st : kstate) (pa : Z) : kstate :=
  mkKstate (upd (ref st) (pa / PGSIZE) (wrap_int (getref st pa + 1)))
           (ram st) (freelist st).

(** [count > 0] when [count - 1] is computed: no wrap-around there. *)
Definition subref (st : kstate) (pa : Z) : kstate :=
  let count := getref st pa in
  if count >? 0
  then mkKstate (upd (ref st) (pa / PGSIZE) (count - 1))
                (ram st) (freelist st)
  else st.

(** [kend] is the linker symbol [end], [PHYSTOP] comes from memlayout.h;
    neither is in the sources, both are parameters. *)
Definition kfree (kend PHYSTOP : Z) (st : kstate) (pa : Z) : res kstate :=
  if negb (pa mod PGSIZE =? 0) || (pa <? kend) || (pa >=? PHYSTOP)
  then Panic "kfree"
  else
    let st1 := subref st pa in
    if getref st1 pa =? 0
    then
      let m1 := memset (ram st1) pa 1 PGSIZE in
      let m2 := set_run_next m1 pa (freelist st1) in
      Ok (mkKstate (ref st1) m2 pa)
    else Ok st1.

Definition kalloc (st : kstate) : Z * kstate :=
  let r := freelist st in
  if r =? 0 then (r, st)
  else
    let st1 := addref st r in
    let st2 := mkKstate (ref st1) (ram st1) (run_next (ram st1) r) in
    (r, mkKstate (ref st2) (memset (ram st2) r 5 PGSIZE) (freelist st2)).

(** The loop of [freerange]; [fuel] bounds the number of iterations. *)
Fixpoint freerange_loop (fuel : nat) (kend PHYSTOP : Z) (st : kstate)
         (p pa_end : Z) : res kstate :=
  match fuel with
  | O => Diverge
  | S fuel' =>
      if p + PGSIZE <=? pa_end
      then match kfree kend PHYSTOP st p with
           | Ok st' => freerange_loop fuel' kend PHYSTOP st' (p + PGSIZE) pa_end
           | r => r
           end
      else Ok st
  end.

Definition freerange (kend PHYSTOP : Z) (st : kstate)
           (pa_start pa_end : Z) : res kstate :=
  let p := PGROUNDUP pa_start in
  freerange_loop (S (Z.to_nat ((pa_end - p) / PGSIZE))) kend PHYSTOP st p pa_end.

Definition kinit (kend PHYSTOP : Z) (st : kstate) : res kstate :=
  freerange kend PHYSTOP st kend PHYSTOP.

(** The loop of [kfreemem]: [freenodes] is a [uint64]; [fuel] bounds the
    number of iterations. *)
Fixpoint kfreemem_loop (fuel : nat) (m : memory) (current freenodes : Z)
  : res Z :=
  match fuel with
  | O => Diverge
  | S fuel' =>
      if current =? 0 then Ok freenodes
      else kfreemem_loop fuel' m (run_next m current) (wrap64 (freenodes + 1))
  end.

Definition kfreemem (fuel : nat) (st : kstate) : res Z :=
  match kfreemem_loop fuel (ram st) (freelist st) 0 with
  | Ok freenodes => Ok (wrap64 (freenodes * PGSIZE))
  | r => r
  end.

(** The pages reached from [kmem.freelist] through [next], in order. *)
Fixpoint free_pages (fuel : nat) (m : memory) (r : Z) : option (list Z) :=
  match fuel with
  | O => None
  | S fuel' =>
      if r =? 0 then Some []
      else match free_pages fuel' m (run_next m r) with
           | Some l => Some (r :: l)
           | None => None
           end
  end.

(** Static storage is zero before [kinit]: every count is 0 and the free
    list is empty; the content of memory is arbitrary. *)
Definition kboot (m : memory) : kstate := mkKstate (fun _ => 0) m 0.

(** ** The free list as a list of pages *)

Fixpoint flist (m : memory) (r : Z) (l : list Z) : Prop :=
  match l with
  | [] => r = 0
  | p :: l' => r = p /\ p <> 0 /\ flist m (run_next m p) l'
  end.

Definition on_freelist (st : kstate) (pa : Z) : Prop :=
  exists l, flist (ram st) (freelist st) l /\ In pa l.

(** A page [kfree] accepts. *)
Definition managed (kend PHYSTOP pa : Z) : Prop :=
  pa mod PGSIZE = 0 /\ kend <= pa /\ pa < PHYSTOP.

Record kmem_inv (kend PHYSTOP : Z) (st : kstate) (l : list Z) : Prop := {
  inv_flist : flist (ram st) (freelist st) l;
  inv_nodup : List.NoDup l;
  inv_managed : forall pa, In pa l -> managed kend PHYSTOP pa;
  inv_free : forall pa, managed kend PHYSTOP pa ->
                        (In pa l <-> getref st pa = 0);
  inv_nonneg : forall pa, 0 <= getref st pa
}.

(** The allocator as its callers use it: a page is shared ([addref]) or
    freed only while somebody owns it, and [subref] is used by a sharer
    that is not the last owner. *)
Inductive kstep (kend PHYSTOP : Z) : kstate -> kstate -> Prop :=
| kstep_kalloc st :
    kstep kend PHYSTOP st (snd (kalloc st))
| kstep_kfree st pa st' :
    1 <= getref st pa ->
    kfree kend PHYSTOP st pa = Ok st' ->
    kstep kend PHYSTOP st st'
| kstep_addref st pa :
    1 <= getref st pa < INT_MAX ->
    kstep kend PHYSTOP st (addref st pa)
| kstep_subref st pa :
    2 <= getref st pa ->
    kstep kend PHYSTOP st (subref st pa)
| kstep_write st a v :
    (* the owner of an allocated page writes a byte of it *)
    1 <= getref st a ->
    kstep kend PHYSTOP st (mkKstate (ref st) (upd (ram st) a v) (freelist st)).

Inductive kreach (kend PHYSTOP : Z) : kstate -> Prop :=
| kreach_init m st :
    kinit kend PHYSTOP (kboot m) = Ok st -> kreach kend PHYSTOP st
| kreach_step st st' :
    kreach kend PHYSTOP st -> kstep kend PHYSTOP st st' ->
    kreach kend PHYSTOP st'.

(** Any sequence of calls of the five routines. *)
Inductive kstep_any (kend PHYSTOP : Z) : kstate -> kstate -> Prop :=
| kany_kalloc st :
    kstep_any kend PHYSTOP st (snd (kalloc st))
| kany_kfree st pa st' :
    kfree kend PHYSTOP st pa = Ok st' -> kstep_any kend PHYSTOP st st'
| kany_addref st pa :
    kstep_any kend PHYSTOP st (addref st pa)
| kany_subref st pa :
    kstep_any kend PHYSTOP st (subref st pa).

Inductive kreach_any (kend PHYSTOP : Z) : kstate -> Prop :=
| kreach_any_init m st :
    kinit kend PHYSTOP (kboot m) = Ok st -> kreach_any kend PHYSTOP st
| kreach_any_step st st' :
    kreach_any kend PHYSTOP st -> kstep_any kend PHYSTOP st st' ->
    kreach_any kend PHYSTOP st'.

(** A small layout for examples: the kernel image ends inside page 1,
    memory ends after page 4. *)
Definition ex_end : Z := 4096 + 564.
Definition ex_PHYSTOP : Z := 5 * 4096.
Definition ex_boot : kstate := kboot (fun _ => 0).

Definition ex_init : kstate :=
  match kinit ex_end ex_PHYSTOP ex_boot with
  | Ok st => st
  | _ => ex_boot
  end.


(* ================================================================== *)
(** * bio.c *)

Definition NBUCKET : Z := 17.

(** [uint] arithmetic. *)
Definition wrap32 (z : Z) : Z := z mod 2 ^ 32.

(** A [struct buf *]: null, the list head of a bucket, or a slot of the
    pool [bcache.buf]. *)
Inductive ptr : Type :=
| Null
| Head (k : nat)
| Slot (i : nat).

Definition ptr_eqb (p q : ptr) : bool :=
  match p, q with
  | Null, Null => true
  | Head k, Head k' => Nat.eqb k k'
  | Slot i, Slot i' => Nat.eqb i i'
  | _, _ => false
  end.

(** Modelled from the spec: [struct sleeplock] (sleeplock.h and
    sleeplock.c are not among the sources), "an exclusive-access lock" that
    is "a blocking lock": it records whether it is held and by which
    process. *)
Record sleeplock : Type := mkSleeplock {
  locked : Z;
  pid : Z
}.

(** Modelled from the spec: [struct buf] (buf.h is not among the sources):
    "device identifier, block number, validity flag, reference count, a
    recency timestamp, disk contents, and an exclusive-access lock", and the
    two links of the bucket list.  [refcnt] and [ticks] are [uint]. *)
Record buf : Type := mkBuf {
  valid : Z;
  dev : Z;
  blockno : Z;
  lock : sleeplock;
  refcnt : Z;
  prev : ptr;
  next : ptr;
  data : list Z;
  ticks : Z
}.

Definition set_valid (v : Z) (x : buf) : buf :=
  mkBuf v (dev x) (blockno x) (lock x) (refcnt x) (prev x) (next x) (data x) (ticks x).
Definition set_dev (v : Z) (x : buf) : buf :=
  mkBuf (valid x) v (blockno x) (lock x) (refcnt x) (prev x) (next x) (data x) (ticks x).
Definition set_blockno (v : Z) (x : buf) : buf :=
  mkBuf (valid x) (dev x) v (lock x) (refcnt x) (prev x) (next x) (data x) (ticks x).
Definition set_lock (v : sleeplock) (x : buf) : buf :=
  mkBuf (valid x) (dev x) (blockno x) v (refcnt x) (prev x) (next x) (data x) (ticks x).
Definition set_refcnt (v : Z) (x : buf) : buf :=
  mkBuf (valid x) (dev x) (blockno x) (lock x) v (prev x) (next x) (data x) (ticks x).
Definition set_prev (v : ptr) (x : buf) : buf :=
  mkBuf (valid x) (dev x) (blockno x) (lock x) (refcnt x) v (next x) (data x) (ticks x).
Definition set_next (v : ptr) (x : buf) : buf :=
  mkBuf (valid x) (dev x) (blockno x) (lock x) (refcnt x) (prev x) v (data x) (ticks x).
Definition set_data (v : list Z) (x : buf) : buf :=
  mkBuf (valid x) (dev x) (blockno x) (lock x) (refcnt x) (prev x) (next x) v (ticks x).
Definition set_ticks (v : Z) (x : buf) : buf :=
  mkBuf (valid x) (dev x) (blockno x) (lock x) (refcnt x) (prev x) (next x) (data x) v.

(** The struct [bcache]: the array of NBUF buffers ([buf] in the source,
    [pool] here because the type has that name) and the NBUCKET list heads.
    NBUF (param.h) is the length of the pool. *)
Record bcache_t : Type := mkBcache {
  pool : list buf;
  bucket : list buf
}.

Definition load (c : bcache_t) (p : ptr) : option buf :=
  match p with
  | Null => None
  | Head k => bucket c !! k
  | Slot i => pool c !! i
  end.

Definition store (c : bcache_t) (p : ptr) (x : buf) : bcache_t :=
  match p with
  | Null => c
  | Head k => mkBcache (pool c) (<[k := x]> (bucket c))
  | Slot i => mkBcache (<[i := x]> (pool c)) (bucket c)
  end.

(** [p->field = v]: fails on a pointer that is not a buffer. *)
Definition assign (c : bcache_t) (p : ptr) (f : buf -> buf) : option bcache_t :=
  match load c p with
  | Some x => Some (store c p (f x))
  | None => None
  end.

Notation "'do' x <- e ; k" :=
  (match e with Some x => k | None => Fault end)
  (at level 10, x name, e at level 99, k at level 200, only parsing).

(** Modelled from the spec: [holdingsleep], [acquiresleep] and
    [releasesleep] of sleeplock.c; [me] is the pid of the calling process.
    A caller that finds the lock taken sleeps. *)
Definition holdingsleep (lk : sleeplock) (me : Z) : bool :=
  negb (locked lk =? 0) && (pid lk =? me).

Definition acquiresleep (me : Z) (c : bcache_t) (b : ptr) : res (ptr * bcache_t) :=
  do x <- load c b;
  if negb (locked (lock x) =? 0) then Sleep (b, c)
  else Ok (b, store c b (set_lock (mkSleeplock 1 me) x)).

Definition releasesleep (c : bcache_t) (b : ptr) : option bcache_t :=
  assign c b (set_lock (mkSleeplock 0 0)).

(** Static storage before [binit]. *)
Definition buf_zero : buf := mkBuf 0 0 0 (mkSleeplock 0 0) 0 Null Null [] 0.

Definition bcache_zero (nbuf : nat) : bcache_t :=
  mkBcache (replicate nbuf buf_zero) (replicate (Z.to_nat NBUCKET) buf_zero).

Definition binit (c : bcache_t) : bcache_t :=
  mkBcache
    (map (set_lock (mkSleeplock 0 0)) (pool c))
    (imap (fun i h => set_next (Head i) (set_prev (Head i) h)) (bucket c)).

(** The first loop of [bget]: walk the bucket list from [b] until the head
    comes round again. *)
Inductive scan_result : Type :=
| Found (b : ptr)
| NotFound
| ScanFault
| ScanLoop.

Fixpoint scan (fuel : nat) (c : bcache_t) (hd : ptr) (d bn : Z) (b : ptr)
  : scan_result :=
  match fuel with
  | O => ScanLoop
  | S fuel' =>
      if ptr_eqb b hd then NotFound
      else match load c b with
           | None => ScanFault
           | Some x =>
               if (dev x =? d) && (blockno x =? bn) then Found b
               else scan fuel' c hd d bn (next x)
           end
  end.

(** The bound on the walk: one more than the number of nodes.  A list that
    is consistent is shorter (see [inv_lookup]); a walk that visits more
    nodes than there are has met one of them twice and goes round a cycle
    without the head. *)
Definition scan_fuel (c : bcache_t) : nat :=
  S (length (pool c) + length (bucket c)).

Definition bucket_key (bn : Z) : nat := Z.to_nat (bn mod NBUCKET).

Definition lookup (c : bcache_t) (d bn : Z) : scan_result :=
  let hd := Head (bucket_key bn) in
  match load c hd with
  | None => ScanFault
  | Some h => scan (scan_fuel c) c hd d bn (next h)
  end.

(** The second loop of [bget]: the candidate [lb] after slot [i]. *)
Definition lru_step (c : bcache_t) (lb : ptr) (i : nat) : res ptr :=
  let b := Slot i in
  do x <- load c b;
  if ptr_eqb lb Null && (refcnt x =? 0) then Ok b
  else if refcnt x =? 0
       then do l <- load c lb;
            if ticks l >? ticks x then Ok b else Ok lb
       else Ok lb.

Fixpoint lru_loop (c : bcache_t) (n : nat) (i : nat) (lb : ptr) : res ptr :=
  match n with
  | O => Ok lb
  | S n' =>
      match lru_step c lb i with
      | Ok lb' => lru_loop c n' (S i) lb'
      | r => r
      end
  end.

Definition lru (c : bcache_t) : res ptr :=
  lru_loop c (length (pool c)) 0%nat Null.

Definition recycle (me : Z) (c : bcache_t) (d bn : Z) (b : ptr)
  : res (ptr * bcache_t) :=
  let hd := Head (bucket_key bn) in
  do c <- assign c b (set_dev d);
  do c <- assign c b (set_blockno bn);
  do c <- assign c b (set_valid 0);
  do c <- assign c b (set_refcnt 1);
  do h <- load c hd;
  do c <- assign c b (set_next (next h));
  do c <- assign c b (set_prev hd);
  do h <- load c hd;
  do c <- assign c (next h) (set_prev b);
  do c <- assign c hd (set_next b);
  acquiresleep me c b.

Definition bget (me : Z) (c : bcache_t) (d bn : Z) : res (ptr * bcache_t) :=
  match lookup c d bn with
  | ScanFault => Fault
  | ScanLoop => Diverge
  | Found b =>
      do c <- assign c b (fun x => set_refcnt (wrap32 (refcnt x + 1)) x);
      acquiresleep me c b
  | NotFound =>
      match lru c with
      | Ok Null => Panic "bget: no buffers"
      | Ok b => recycle me c d bn b
      | Sleep _ => Fault
      | Panic m => Panic m
      | Fault => Fault
      | Diverge => Diverge
      end
  end.

(** Modelled from the spec: the disk collaborator [virtio_disk_rw], "given
    a buffer's device/block identity and (for writes) its content, performs
    the transfer and, for reads, fills the buffer's content".  The disk
    keeps the blocks and a log of the transfers (write flag, device,
    block number). *)
Record disk_t : Type := mkDisk {
  blocks : Z -> Z -> list Z;
  xfers : list (bool * Z * Z)
}.

Definition virtio_disk_rw (c : bcache_t) (dk : disk_t) (b : ptr) (write : bool)
  : option (bcache_t * disk_t) :=
  match load c b with
  | None => None
  | Some x =>
      let log := xfers dk ++ [(write, dev x, blockno x)] in
      if write
      then Some (c, mkDisk (fun d bn => if (d =? dev x) && (bn =? blockno x)
                                        then data x else blocks dk d bn) log)
      else Some (store c b (set_data (blocks dk (dev x) (blockno x)) x),
                 mkDisk (blocks dk) log)
  end.

Definition bread (me : Z) (c : bcache_t) (dk : disk_t) (d bn : Z)
  : res (ptr * (bcache_t * disk_t)) :=
  match bget me c d bn with
  | Ok (b, c) =>
      do x <- load c b;
      if valid x =? 0
      then do cd <- virtio_disk_rw c dk b false;
           do c' <- assign (fst cd) b (set_valid 1);
           Ok (b, (c', snd cd))
      else Ok (b, (c, dk))
  | Sleep (b, c) => Sleep (b, (c, dk))
  | Panic m => Panic m
  | Fault => Fault
  | Diverge => Diverge
  end.

Definition bwrite (me : Z) (c : bcache_t) (dk : disk_t) (b : ptr)
  : res (bcache_t * disk_t) :=
  do x <- load c b;
  if negb (holdingsleep (lock x) me) then Panic "bwrite"
  else do cd <- virtio_disk_rw c dk b true; Ok cd.

(** [ticks_now] is the value of the global [ticks] when [brelse] reads it. *)
Definition brelse (ticks_now : Z) (me : Z) (c : bcache_t) (b : ptr)
  : res bcache_t :=
  do x <- load c b;
  if negb (holdingsleep (lock x) me) then Panic "brelse"
  else
    do c <- releasesleep c b;
    do c <- assign c b (fun x => set_refcnt (wrap32 (refcnt x - 1)) x);
    do x <- load c b;
    if refcnt x =? 0
    then
      do x <- load c b;
      do c <- assign c (next x) (set_prev (prev x));
      do x <- load c b;
      do c <- assign c (prev x) (set_next (next x));
      do c <- assign c b (set_prev Null);
      do c <- assign c b (set_next Null);
      do c <- assign c b (set_ticks ticks_now);
      Ok c
    else Ok c.

Definition bpin (c : bcache_t) (b : ptr) : res bcache_t :=
  do c <- assign c b (fun x => set_refcnt (wrap32 (refcnt x + 1)) x);
  Ok c.

Definition bunpin (c : bcache_t) (b : ptr) : res bcache_t :=
  do c <- assign c b (fun x => set_refcnt (wrap32 (refcnt x - 1)) x);
  Ok c.

(** ** The bucket lists as lists of buffers *)

(** The buffers met from [b] along [next] until the head [hd]. *)
Fixpoint walk (fuel : nat) (c : bcache_t) (hd : ptr) (b : ptr)
  : option (list ptr) :=
  match fuel with
  | O => None
  | S fuel' =>
      if ptr_eqb b hd then Some []
      else match load c b with
           | None => None
           | Some x =>
               match walk fuel' c hd (next x) with
               | Some l => Some (b :: l)
               | None => None
               end
           end
  end.

Definition members (c : bcache_t) (k : nat) : option (list ptr) :=
  match load c (Head k) with
  | None => None
  | Some h => walk (scan_fuel c) c (Head k) (next h)
  end.

(** Buffer [b] is linked into the list of bucket [k]. *)
Definition linked_into (c : bcache_t) (k : nat) (b : ptr) : Prop :=
  exists l, members c k = Some l /\ In b l.

Definition linked_intob (c : bcache_t) (k : nat) (b : ptr) : bool :=
  match members c k with
  | Some l => existsb (ptr_eqb b) l
  | None => false
  end.

(** The buckets that hold [b]. *)
Definition buckets_of (c : bcache_t) (b : ptr) : list nat :=
  filter (fun k => linked_intob c k b = true) (seq 0 (Z.to_nat NBUCKET)).

Definition ex_boot3 : bcache_t := binit (bcache_zero 3).

(** The cache after an operation that returned, for building examples. *)
Definition after_bget (me : Z) (c : bcache_t) (d bn : Z) : bcache_t :=
  match bget me c d bn with
  | Ok (_, c') => c'
  | _ => c
  end.

Definition after (r : res bcache_t) (c : bcache_t) : bcache_t :=
  match r with
  | Ok c' => c'
  | _ => c
  end.

(** Process 7 acquires block 10 of device 1, then releases it at time 100. *)
Definition ex_acquired : bcache_t := after_bget 7 ex_boot3 1 10.

Definition ex_released : bcache_t :=
  after (brelse 100 7 ex_acquired (Slot 0)) ex_acquired.

(** Blocks 10, 11 and 12 fill the three slots; slot 2 is released at time
    50 and slot 0 at time 100, slot 1 stays in use. *)
Definition ex_three : bcache_t :=
  after_bget 7 (after_bget 7 ex_acquired 1 11) 1 12.

Definition ex_lru : bcache_t :=
  let c := after (brelse 50 7 ex_three (Slot 2)) ex_three in
  after (brelse 100 7 c (Slot 0)) c.

(** A pool of one buffer, in use. *)
Definition ex_full : bcache_t := after_bget 7 (binit (bcache_zero 1)) 1 10.

(** Slot 0 is pinned, then released: its count is one and nobody holds its
    lock. *)
Definition ex_pinned : bcache_t :=
  let c := after (bpin ex_acquired (Slot 0)) ex_acquired in
  after (brelse 100 7 c (Slot 0)) c.

(** What the discipline of [bstep] keeps out: slot 0 is unpinned down to
    count zero while it is still linked into bucket 10, and then recycled
    for block 11. *)
Definition ex_unpinned : bcache_t := after (bunpin ex_pinned (Slot 0)) ex_pinned.
Definition ex_relinked : bcache_t := after_bget 7 ex_unpinned 1 11.

(** A disk whose block [bn] of device [d] holds the two bytes [d; bn]. *)
Definition ex_disk : disk_t := mkDisk (fun d bn => [d; bn]) [].

(** ** Consistency of the bucket lists *)

Definition nx (c : bcache_t) (p : ptr) : option ptr :=
  option_map next (load c p).
Definition pv (c : bcache_t) (p : ptr) : option ptr :=
  option_map prev (load c p).

(** [a->next == b] and [b->prev == a]. *)
Definition link (c : bcache_t) (a b : ptr) : Prop :=
  nx c a = Some b /\ pv c b = Some a.

Fixpoint chain (c : bcache_t) (l : list ptr) : Prop :=
  match l with
  | a :: t => match t with
              | b :: _ => link c a b /\ chain c t
              | [] => True
              end
  | [] => True
  end.

(** The list of bucket [k] is the head, the slots [l] in this order, and
    the head again. *)
Definition ring (c : bcache_t) (k : nat) (l : list nat) : Prop :=
  chain c (Head k :: map Slot l ++ [Head k]).

(** A buffer in use sits in the list of its bucket, a buffer whose count
    is zero sits in none and nobody holds its lock. *)
Record bcache_inv (c : bcache_t) : Prop := {
  binv_nbucket : length (bucket c) = Z.to_nat NBUCKET;
  binv_rings : forall k, (k < Z.to_nat NBUCKET)%nat ->
      exists l, ring c k l /\ List.NoDup l /\
        forall i, In i l <->
          exists x, pool c !! i = Some x /\ refcnt x <> 0 /\
                    bucket_key (blockno x) = k;
  binv_lock : forall i x, pool c !! i = Some x -> refcnt x = 0 ->
                          locked (lock x) = 0;
  binv_range : forall i x, pool c !! i = Some x -> 0 <= refcnt x < 2 ^ 32
}.

(** No count is at the top of [uint]. *)
Definition below_max (c : bcache_t) : Prop :=
  forall i x, pool c !! i = Some x -> refcnt x < 2 ^ 32 - 1.

(** The cache as the file system uses it: operations that run to completion
    one after the other, [brelse] by the holder of the lock, [bpin] on a
    buffer in use, [bunpin] by a caller that is not the last user. *)
Inductive bstep : bcache_t -> bcache_t -> Prop :=
| bstep_bget me c d bn b c' :
    below_max c ->
    bget me c d bn = Ok (b, c') ->
    bstep c c'
| bstep_brelse t me c i c' :
    brelse t me c (Slot i) = Ok c' ->
    bstep c c'
| bstep_bpin c i x c' :
    pool c !! i = Some x ->
    0 < refcnt x < 2 ^ 32 - 1 ->
    bpin c (Slot i) = Ok c' ->
    bstep c c'
| bstep_bunpin c i x c' :
    pool c !! i = Some x ->
    1 < refcnt x ->
    bunpin c (Slot i) = Ok c' ->
    bstep c c'.

Inductive breach (nbuf : nat) : bcache_t -> Prop :=
| breach_init : breach nbuf (binit (bcache_zero nbuf))
| breach_step c c' : breach nbuf c -> bstep c c' -> breach nbuf c'.

(** The buffer of slot [i] carries the key [(d, bn)]. *)
Definition bound (c : bcache_t) (b : ptr) (d bn : Z) : Prop :=
  exists x, load c b = Some x /\ dev x = d /\ blockno x = bn.

(** ** Auxiliary notions used in the proofs *)

(** What [freerange] has built when it is about to free page [p]. *)
Record init_inv (kend PHYSTOP : Z) (st : kstate) (l : list Z) (p : Z)
  : Prop := {
  init_flist : flist (ram st) (freelist st) l;
  init_nodup : List.NoDup l;
  init_pages : forall pa, In pa l <-> managed kend PHYSTOP pa /\ pa < p;
  init_zero : forall i, ref st i = 0
}.

Definition ex_alloc : kstate := snd (kalloc ex_init).

Definition ex_dropped : kstate := subref ex_alloc 16384.

(** From [s], [next] leads through the nodes [L] to the head. *)
Fixpoint nxpath (c : bcache_t) (s : ptr) (L : list ptr) (hd : ptr) : Prop :=
  match L with
  | [] => s = hd
  | q :: L' => s = q /\ q <> hd /\
               exists x, load c q = Some x /\ nxpath c (next x) L' hd
  end.

Definition keyb (c : bcache_t) (d bn : Z) (q : ptr) : bool :=
  match load c q with
  | Some x => (dev x =? d) && (blockno x =? bn)
  | None => false
  end.

Definition same_size (c c' : bcache_t) : Prop :=
  length (pool c') = length (pool c) /\ length (bucket c') = length (bucket c).

(** The fields of a buffer other than its two links. *)
Definition strip (x : buf) : buf := set_prev Null (set_next Null x).

Definition dat (c : bcache_t) (q : ptr) : option buf :=
  option_map strip (load c q).

(** [lb] is the candidate among the slots below [n]: null when none of them
    has count zero, otherwise the first slot with the least stamp among
    those with count zero. *)
Definition lru_cand (c : bcache_t) (n : nat) (lb : ptr) : Prop :=
  (lb = Null /\
   forall i x, (i < n)%nat -> pool c !! i = Some x -> refcnt x <> 0) \/
  (exists j xj, lb = Slot j /\ (j < n)%nat /\ pool c !! j = Some xj /\
     refcnt xj = 0 /\
     forall i x, (i < n)%nat -> pool c !! i = Some x -> refcnt x = 0 ->
                 ticks xj <= ticks x /\ (ticks x = ticks xj -> (j <= i)%nat)).

(** What [bget] leaves in the buffer it hands out (or sleeps on). *)
Definition taken (me : Z) (x x' : buf) (r : res (ptr * bcache_t))
           (b : ptr) (c' : bcache_t) : Prop :=
  if locked (lock x) =? 0
  then r = Ok (b, c') /\ lock x' = mkSleeplock 1 me
  else r = Sleep (b, c') /\ lock x' = lock x.

(** Slot [i] is in use and hashes to bucket [k]. *)
Definition inuse (c : bcache_t) (k i : nat) : Prop :=
  exists x, pool c !! i = Some x /\ refcnt x <> 0 /\
            bucket_key (blockno x) = k.

(** [n] calls of [kalloc] one after the other: the pages returned, in
    order, and the state after the last call. *)
Fixpoint kalloc_many (n : nat) (st : kstate) : list Z * kstate :=
  match n with
  | O => ([], st)
  | S n' =>
      let r := kalloc st in
      let rs := kalloc_many n' (snd r) in
      (fst r :: fst rs, snd rs)
  end.

(** The [n] pages from [p] upwards. *)
Fixpoint page_seq (p : Z) (n : nat) : list Z :=
  match n with
  | O => []
  | S n' => p :: page_seq (p + PGSIZE) n'
  end.

(** The number of pages [freerange] frees between [end] and PHYSTOP. *)
Definition npages (kend PHYSTOP : Z) : nat :=
  Z.to_nat ((PHYSTOP - PGROUNDUP kend) / PGSIZE).

(** The example state after page 12288, which is on the free list, has
    been freed once more. *)
Definition ex_twice : kstate :=
  match kfree ex_end ex_PHYSTOP ex_init 12288 with
  | Ok st => st
  | _ => ex_init
  end.

(** No two buffers in use carry the same key. *)
Definition uniq (c : bcache_t) : Prop :=
  forall i j x y, pool c !! i = Some x -> pool c !! j = Some y ->
    refcnt x <> 0 -> refcnt y <> 0 ->
    dev x = dev y -> blockno x = blockno y -> i = j.

(** [bget] of the keys of a list by process [me], one call after the
    other: the buffers returned, in order, and the cache after the last
    call. *)
Fixpoint bget_all (me : Z) (c : bcache_t) (keys : list (Z * Z))
  : res (list ptr * bcache_t) :=
  match keys with
  | [] => Ok ([], c)
  | (d, bn) :: keys' =>
      match bget me c d bn with
      | Ok (b, c1) =>
          match bget_all me c1 keys' with
          | Ok (bs, c2) => Ok (b :: bs, c2)
          | r => r
          end
      | Sleep (b, c1) => Sleep ([b], c1)
      | Panic m => Panic m
      | Fault => Fault
      | Diverge => Diverge
      end
  end.

(** A cache of [nbuf] buffers whose first slots hold the keys [ks], each
    with count one, and whose other slots have never been used. *)
Definition filled (nbuf : nat) (c : bcache_t) (ks : list (Z * Z)) : Prop :=
  breach nbuf c /\
  (forall i, (i < length ks)%nat ->
     exists x, pool c !! i = Some x /\ refcnt x = 1 /\
               ks !! i = Some (dev x, blockno x)) /\
  (forall i, (length ks <= i < nbuf)%nat ->
     exists x, pool c !! i = Some x /\ refcnt x = 0 /\ ticks x = 0) /\
  (forall i x, pool c !! i = Some x -> (i < nbuf)%nat).

(** The pages between [end] and PHYSTOP, and those of them whose count is
    positive. *)
Definition pages (kend PHYSTOP : Z) : list Z :=
  page_seq (PGROUNDUP kend) (npages kend PHYSTOP).

Definition allocated (kend PHYSTOP : Z) (st : kstate) : list Z :=
  List.filter (fun pa => 0 <? getref st pa) (pages kend PHYSTOP).

(* ================================================================== *)
(** * The page allocator *)

Lemma upd_eq f i v : upd f i v i = v.
Proof. unfold upd. now rewrite Z.eqb_refl. Qed.

Lemma upd_ne f i v j : j <> i -> upd f i v j = f j.
Proof. unfold upd. intros H. destruct (Z.eqb_spec j i); congruence. Qed.

Lemma memset_in m dst c n a :
  dst <= a < dst + n -> memset m dst c n a = c mod 256.
Proof.
  intros H. unfold memset.
  destruct (Z.leb_spec dst a), (Z.ltb_spec a (dst + n)); simpl; lia.
Qed.

Lemma memset_out m dst c n a :
  a < dst \/ dst + n <= a -> memset m dst c n a = m a.
Proof.
  intros H. unfold memset.
  destruct (Z.leb_spec dst a), (Z.ltb_spec a (dst + n)); simpl; lia.
Qed.

Lemma load_le_ext m1 m2 n : forall a,
  (forall i, a <= i < a + Z.of_nat n -> m1 i = m2 i) ->
  load_le m1 a n = load_le m2 a n.
Proof.
  induction n as [|n IH]; intros a H; simpl; [reflexivity|].
  rewrite (H a) by lia. rewrite (IH (a + 1)); [reflexivity|].
  intros i Hi. apply H. lia.
Qed.

Lemma store_le_out n : forall m a v x,
  x < a \/ a + Z.of_nat n <= x -> store_le m a n v x = m x.
Proof.
  induction n as [|n IH]; intros m a v x H; simpl; [reflexivity|].
  rewrite IH by lia. apply upd_ne. lia.
Qed.

Lemma load_store_le n : forall m a v,
  0 <= v < 256 ^ Z.of_nat n -> load_le (store_le m a n v) a n = v.
Proof.
  induction n as [|n IH]; intros m a v H.
  - simpl in *. lia.
  - cbn [load_le store_le].
    rewrite store_le_out by lia. rewrite upd_eq.
    rewrite IH.
    + pose proof (Z.div_mod v 256). lia.
    + rewrite Nat2Z.inj_succ, Z.pow_succ_r in H by lia.
      split; [apply Z.div_pos; lia|].
      apply Z.div_lt_upper_bound; lia.
Qed.

Lemma run_next_set m r v :
  0 <= v < 2 ^ 64 -> run_next (set_run_next m r v) r = v.
Proof. intros H. apply load_store_le. exact H. Qed.

Lemma run_next_frame m1 m2 r :
  (forall i, r <= i < r + 8 -> m1 i = m2 i) -> run_next m1 r = run_next m2 r.
Proof. intros H. apply load_le_ext. exact H. Qed.

Lemma flist_frame m1 m2 l : forall r,
  (forall p i, In p l -> p <= i < p + 8 -> m1 i = m2 i) ->
  flist m1 r l -> flist m2 r l.
Proof.
  induction l as [|p l IH]; intros r H; simpl; [tauto|].
  intros (-> & Hp & Hl). repeat split; [assumption|].
  rewrite <- (run_next_frame m1 m2) by (intros; apply (H p); simpl; auto).
  apply IH; [|assumption]. intros q i Hq. apply H. simpl; auto.
Qed.

Lemma flist_inj m l1 : forall l2 r, flist m r l1 -> flist m r l2 -> l1 = l2.
Proof.
  induction l1 as [|p l1 IH]; intros [|q l2] r; simpl.
  - reflexivity.
  - intros -> (<- & Hq & _). congruence.
  - intros (<- & Hp & _) ->. congruence.
  - intros (<- & _ & H1) (<- & _ & H2). f_equal. eapply IH; eassumption.
Qed.

Lemma flist_head m r l : flist m r l -> r = 0 \/ In r l.
Proof. destruct l; simpl; [auto|]. intros (-> & _). auto. Qed.

Lemma free_pages_flist m l : forall r fuel,
  flist m r l -> (length l < fuel)%nat -> free_pages fuel m r = Some l.
Proof.
  induction l as [|p l IH]; intros r [|fuel] H Hf; simpl in *; try lia.
  - subst. reflexivity.
  - destruct H as (-> & Hp & Hl).
    destruct (Z.eqb_spec p 0); [contradiction|].
    rewrite (IH _ fuel Hl) by lia. reflexivity.
Qed.

Lemma page_index p a :
  p mod PGSIZE = 0 -> p <= a < p + PGSIZE -> a / PGSIZE = p / PGSIZE.
Proof. unfold PGSIZE. intros. Z.div_mod_to_equations. lia. Qed.

Lemma page_apart p q :
  p mod PGSIZE = 0 -> q mod PGSIZE = 0 -> p <> q ->
  p + PGSIZE <= q \/ q + PGSIZE <= p.
Proof. unfold PGSIZE. intros. Z.div_mod_to_equations. lia. Qed.

Lemma page_index_inj p q :
  p mod PGSIZE = 0 -> q mod PGSIZE = 0 -> p / PGSIZE = q / PGSIZE -> p = q.
Proof. unfold PGSIZE. intros. Z.div_mod_to_equations. lia. Qed.

Lemma land_page x :
  0 <= x < 2 ^ 64 -> Z.land x (wrap64 (Z.lnot (PGSIZE - 1))) = PGSIZE * (x / PGSIZE).
Proof.
  intros H. unfold wrap64, PGSIZE.
  rewrite <- (Z.land_ones (Z.lnot (4096 - 1)) 64) by lia.
  rewrite Z.land_assoc, (Z.land_comm x), <- Z.land_assoc.
  rewrite (Z.land_ones x 64) by lia.
  rewrite Z.mod_small by lia.
  change (4096 - 1) with (Z.ones 12).
  rewrite Z.land_comm, <- Z.ldiff_land, Z.ldiff_ones_r by lia.
  rewrite Z.shiftr_div_pow2, Z.shiftl_mul_pow2 by lia.
  change (2 ^ 12) with 4096. lia.
Qed.

Lemma PGROUNDUP_spec a :
  0 <= a -> a + PGSIZE <= 2 ^ 64 ->
  PGROUNDUP a mod PGSIZE = 0 /\ a <= PGROUNDUP a < a + PGSIZE.
Proof.
  intros H0 H1. unfold PGROUNDUP.
  assert (Hw : wrap64 (a + PGSIZE - 1) = a + PGSIZE - 1)
    by (unfold wrap64; apply Z.mod_small; unfold PGSIZE in *; lia).
  rewrite Hw, land_page by (unfold PGSIZE in *; lia).
  unfold PGSIZE in *. Z.div_mod_to_equations. lia.
Qed.

Lemma getref_addref st pa q :
  getref (addref st pa) q =
  if q / PGSIZE =? pa / PGSIZE then wrap_int (getref st pa + 1) else getref st q.
Proof. reflexivity. Qed.

Lemma getref_subref st pa q :
  getref (subref st pa) q =
  if (getref st pa >? 0) && (q / PGSIZE =? pa / PGSIZE)
  then getref st pa - 1 else getref st q.
Proof.
  unfold subref. destruct (getref st pa >? 0); simpl; reflexivity.
Qed.

Lemma subref_frame st pa :
  ram (subref st pa) = ram st /\ freelist (subref st pa) = freelist st.
Proof. unfold subref. destruct (getref st pa >? 0); simpl; auto. Qed.

Lemma wrap_int_small z : - 2 ^ 31 <= z < 2 ^ 31 -> wrap_int z = z.
Proof. intros H. unfold wrap_int. rewrite Z.mod_small; lia. Qed.

Lemma kfree_valid kend PHYSTOP st pa :
  managed kend PHYSTOP pa ->
  kfree kend PHYSTOP st pa =
  let st1 := subref st pa in
  if getref st1 pa =? 0
  then Ok (mkKstate (ref st1)
             (set_run_next (memset (ram st1) pa 1 PGSIZE) pa (freelist st1)) pa)
  else Ok st1.
Proof.
  intros (Ha & Hl & Hh). unfold kfree.
  destruct (Z.eqb_spec (pa mod PGSIZE) 0); [|contradiction].
  destruct (Z.ltb_spec pa kend); [lia|].
  destruct (Z.geb_spec pa PHYSTOP); [lia|]. reflexivity.
Qed.

Lemma kfree_invalid kend PHYSTOP st pa :
  ~ managed kend PHYSTOP pa -> kfree kend PHYSTOP st pa = Panic "kfree".
Proof.
  intros H. unfold kfree, managed in *.
  destruct (Z.eqb_spec (pa mod PGSIZE) 0); [|reflexivity].
  destruct (Z.ltb_spec pa kend); [reflexivity|].
  destruct (Z.geb_spec pa PHYSTOP); [reflexivity|]. exfalso. apply H. lia.
Qed.

Section Allocator.

Variables kend PHYSTOP : Z.
Hypothesis kend_pos : 0 < kend.
Hypothesis PHYSTOP_max : PHYSTOP + PGSIZE <= 2 ^ 64.

Lemma managed_apart p q :
  managed kend PHYSTOP p -> managed kend PHYSTOP q -> p <> q ->
  forall i, q <= i < q + 8 -> i < p \/ p + PGSIZE <= i.
Proof.
  intros (Hp & _) (Hq & _) Hne i Hi.
  destruct (page_apart p q Hp Hq Hne); unfold PGSIZE in *; lia.
Qed.

(** Pushing page [pa] in front of the list [l]. *)
Lemma flist_push m fl l pa :
  flist m fl l -> ~ In pa l -> managed kend PHYSTOP pa ->
  (forall q, In q l -> managed kend PHYSTOP q) ->
  flist (set_run_next (memset m pa 1 PGSIZE) pa fl) pa (pa :: l).
Proof.
  intros Hl Hn Hpa Hm. simpl.
  assert (Hfl : 0 <= fl < 2 ^ 64).
  { destruct (flist_head _ _ _ Hl) as [->|Hin]; [lia|].
    destruct (Hm _ Hin) as (_ & ? & ?). unfold PGSIZE in *. lia. }
  split; [reflexivity|]. split; [destruct Hpa as (_ & ? & _); lia|].
  rewrite run_next_set by exact Hfl.
  eapply flist_frame; [|exact Hl].
  intros q i Hq Hi.
  assert (Hne : pa <> q) by (intros ->; contradiction).
  pose proof (managed_apart pa q Hpa (Hm q Hq) Hne i Hi) as Hout.
  unfold set_run_next. rewrite store_le_out by (unfold PGSIZE in *; simpl; lia).
  now rewrite memset_out.
Qed.

Lemma kalloc_inv st p l :
  kmem_inv kend PHYSTOP st (p :: l) ->
  fst (kalloc st) = p /\
  kmem_inv kend PHYSTOP (snd (kalloc st)) l /\
  getref (snd (kalloc st)) p = 1 /\
  forall a, p <= a < p + PGSIZE -> ram (snd (kalloc st)) a = 5.
Proof.
  intros [Hl Hnd Hm Hf Hn]. simpl in Hl. destruct Hl as (Hfl & Hp & Hl).
  assert (Hmp : managed kend PHYSTOP p) by (apply Hm; simpl; auto).
  assert (Hz : getref st p = 0) by (apply Hf; simpl; auto).
  unfold kalloc. rewrite Hfl.
  destruct (Z.eqb_spec p 0); [contradiction|]. cbn [fst snd].
  apply List.NoDup_cons_iff in Hnd. destruct Hnd as [Hnp Hnd'].
  split; [reflexivity|]. split; [|split].
  - constructor; cbn [ram freelist ref].
    + eapply flist_frame; [|exact Hl].
      intros q i Hq Hi.
      assert (Hne : p <> q) by (intros ->; contradiction).
      pose proof (managed_apart p q Hmp (Hm q (or_intror Hq)) Hne i Hi).
      now rewrite memset_out.
    + assumption.
    + intros q Hq. apply Hm. simpl; auto.
    + intros q Hq. change (getref _ q) with (getref (addref st p) q).
      rewrite getref_addref, Hz.
      destruct (Z.eqb_spec (q / PGSIZE) (p / PGSIZE)) as [He|He].
      * apply page_index_inj in He; [|apply Hq|apply Hmp]. subst q.
        split; [contradiction|]. vm_compute. discriminate.
      * rewrite <- (Hf q Hq). simpl.
        split; [auto|]. intros [->|?]; [congruence|assumption].
    + intros q. change (getref _ q) with (getref (addref st p) q).
      rewrite getref_addref, Hz. destruct (_ =? _).
      * vm_compute. discriminate.
      * apply Hn.
  - change (getref _ p) with (getref (addref st p) p).
    rewrite getref_addref, Z.eqb_refl, Hz. reflexivity.
  - intros a Ha. cbn [ram]. now rewrite memset_in.
Qed.

Lemma kfree_ok_managed st pa st' :
  kfree kend PHYSTOP st pa = Ok st' -> managed kend PHYSTOP pa.
Proof.
  unfold kfree, managed.
  destruct (Z.eqb_spec (pa mod PGSIZE) 0); [|discriminate].
  destruct (Z.ltb_spec pa kend); [discriminate|].
  destruct (Z.geb_spec pa PHYSTOP); [discriminate|]. lia.
Qed.

Lemma kfree_inv st l pa st' :
  kmem_inv kend PHYSTOP st l ->
  1 <= getref st pa ->
  kfree kend PHYSTOP st pa = Ok st' ->
  exists l', kmem_inv kend PHYSTOP st' l'.
Proof.
  intros [Hl Hnd Hm Hf Hn] Hc Hk.
  pose proof (kfree_ok_managed _ _ _ Hk) as Hmp.
  rewrite (kfree_valid _ _ _ _ Hmp) in Hk. cbv zeta in Hk.
  destruct (subref_frame st pa) as [Hram Hfl].
  assert (Hg : forall q, getref (subref st pa) q =
     if q / PGSIZE =? pa / PGSIZE then getref st pa - 1 else getref st q).
  { intros q. rewrite getref_subref.
    destruct (Z.gtb_spec (getref st pa) 0); [reflexivity|lia]. }
  assert (Hnin : ~ In pa l) by (rewrite (Hf pa Hmp); lia).
  rewrite Hram, Hfl in Hk.
  destruct (Z.eqb_spec (getref (subref st pa) pa) 0) as [Hz|Hz];
    inversion Hk; subst st'; clear Hk.
  - exists (pa :: l). constructor; cbn [ram freelist ref].
    + apply flist_push; assumption.
    + constructor; assumption.
    + intros q [<-|Hq]; auto.
    + intros q Hq. change (getref _ q) with (getref (subref st pa) q).
      rewrite Hg. simpl.
      destruct (Z.eqb_spec (q / PGSIZE) (pa / PGSIZE)) as [He|He].
      * apply page_index_inj in He; [|apply Hq|apply Hmp]. subst q.
        rewrite Hg, Z.eqb_refl in Hz. split; auto.
      * rewrite <- (Hf q Hq). split; [|auto].
        intros [<-|?]; [congruence|assumption].
    + intros q. change (getref _ q) with (getref (subref st pa) q).
      rewrite Hg. destruct (_ =? _); [lia|apply Hn].
  - exists l. rewrite Hg, Z.eqb_refl in Hz.
    constructor.
    + now rewrite Hram, Hfl.
    + assumption.
    + assumption.
    + intros q Hq. rewrite Hg.
      destruct (Z.eqb_spec (q / PGSIZE) (pa / PGSIZE)) as [He|He]; [|auto].
      apply page_index_inj in He; [|apply Hq|apply Hmp]. subst q.
      split; [contradiction|lia].
    + intros q. rewrite Hg. destruct (_ =? _); [lia|apply Hn].
Qed.

Lemma addref_inv st l pa :
  kmem_inv kend PHYSTOP st l ->
  1 <= getref st pa < INT_MAX ->
  kmem_inv kend PHYSTOP (addref st pa) l.
Proof.
  intros [Hl Hnd Hm Hf Hn] Hc.
  assert (Hw : wrap_int (getref st pa + 1) = getref st pa + 1)
    by (apply wrap_int_small; unfold INT_MAX in Hc; lia).
  constructor; try assumption.
  - intros q Hq. rewrite getref_addref, Hw.
    destruct (Z.eqb_spec (q / PGSIZE) (pa / PGSIZE)) as [He|He]; [|auto].
    rewrite (Hf q Hq). unfold getref in *. rewrite He. lia.
  - intros q. rewrite getref_addref, Hw. destruct (_ =? _); [lia|apply Hn].
Qed.

Lemma subref_inv st l pa :
  kmem_inv kend PHYSTOP st l ->
  2 <= getref st pa ->
  kmem_inv kend PHYSTOP (subref st pa) l.
Proof.
  intros [Hl Hnd Hm Hf Hn] Hc.
  destruct (subref_frame st pa) as [Hram Hfl].
  assert (Hg : forall q, getref (subref st pa) q =
     if q / PGSIZE =? pa / PGSIZE then getref st pa - 1 else getref st q).
  { intros q. rewrite getref_subref.
    destruct (Z.gtb_spec (getref st pa) 0); [reflexivity|lia]. }
  constructor; try assumption.
  - now rewrite Hram, Hfl.
  - intros q Hq. rewrite Hg.
    destruct (Z.eqb_spec (q / PGSIZE) (pa / PGSIZE)) as [He|He]; [|auto].
    rewrite (Hf q Hq). unfold getref in *. rewrite He. lia.
  - intros q. rewrite Hg. destruct (_ =? _); [lia|apply Hn].
Qed.

Lemma write_inv st l a v :
  kmem_inv kend PHYSTOP st l ->
  1 <= getref st a ->
  kmem_inv kend PHYSTOP (mkKstate (ref st) (upd (ram st) a v) (freelist st)) l.
Proof.
  intros [Hl Hnd Hm Hf Hn] Hc.
  constructor; try assumption. cbn [ram freelist].
  eapply flist_frame; [|exact Hl].
  intros q i Hq Hi. rewrite upd_ne; [reflexivity|].
  intros ->.
  assert (Hz : getref st q = 0) by (apply Hf; auto).
  destruct (Hm q Hq) as (Hal & _).
  unfold getref in *.
  rewrite (page_index q a Hal) in Hc by (unfold PGSIZE; lia). lia.
Qed.

Lemma kstep_inv st st' :
  kstep kend PHYSTOP st st' ->
  (exists l, kmem_inv kend PHYSTOP st l) ->
  exists l, kmem_inv kend PHYSTOP st' l.
Proof.
  intros Hs [l Hi]. destruct Hs.
  - destruct l as [|p l].
    + exists []. unfold kalloc.
      pose proof (inv_flist _ _ _ _ Hi) as Hfl. simpl in Hfl. rewrite Hfl.
      exact Hi.
    + exists l. apply (kalloc_inv _ _ _ Hi).
  - eapply kfree_inv; eassumption.
  - exists l. now apply addref_inv.
  - exists l. now apply subref_inv.
  - exists l. now apply write_inv.
Qed.

Hypothesis PHYSTOP_aligned : PHYSTOP mod PGSIZE = 0.
Hypothesis kend_le : kend <= PHYSTOP.

Lemma freerange_loop_inv fuel : forall st l p,
  p mod PGSIZE = 0 -> kend <= p -> init_inv kend PHYSTOP st l p ->
  (Z.to_nat ((PHYSTOP - p) / PGSIZE) < fuel)%nat ->
  exists st' l', freerange_loop fuel kend PHYSTOP st p PHYSTOP = Ok st' /\
                 kmem_inv kend PHYSTOP st' l'.
Proof.
  induction fuel as [|fuel IH]; intros st l p Hal Hge [Hl Hnd Hp Hz] Hf; [lia|].
  cbn [freerange_loop].
  destruct (Z.leb_spec (p + PGSIZE) PHYSTOP) as [Hle|Hgt].
  - assert (Hmp : managed kend PHYSTOP p) by (unfold managed, PGSIZE in *; lia).
    rewrite (kfree_valid _ _ _ _ Hmp). cbv zeta.
    assert (Hs : subref st p = st).
    { unfold subref, getref. rewrite Hz. reflexivity. }
    rewrite Hs. unfold getref at 1. rewrite Hz. cbn [Z.eqb].
    apply (IH _ (p :: l)).
    + unfold PGSIZE in *. Z.div_mod_to_equations. lia.
    + unfold PGSIZE. lia.
    + constructor; cbn [ram freelist ref].
      * apply flist_push; try assumption.
        -- intros Hin. apply Hp in Hin. lia.
        -- intros q Hq. now apply Hp.
      * constructor; [|assumption]. intros Hin. apply Hp in Hin. lia.
      * intros pa. simpl. rewrite Hp. split.
        -- intros [<-|[? ?]]; (split; [assumption|unfold PGSIZE; lia]).
        -- intros [Hm Hlt]. destruct (Z.eq_dec p pa); [auto|right].
           split; [assumption|]. destruct Hm as (Ha & _).
           destruct (page_apart p pa Hal Ha n); unfold PGSIZE in *; lia.
      * assumption.
    + unfold PGSIZE in *. Z.div_mod_to_equations. lia.
  - exists st, l. split; [reflexivity|].
    assert (Hend : PHYSTOP <= p)
      by (unfold PGSIZE in *; Z.div_mod_to_equations; lia).
    constructor; try assumption.
    + intros pa Hin. now apply Hp.
    + intros pa Hm. rewrite Hp. unfold getref. rewrite Hz.
      destruct Hm as (? & ? & ?). unfold managed. intuition lia.
    + intros pa. unfold getref. rewrite Hz. lia.
Qed.

(** [kinit] returns, and every page between [end] and [PHYSTOP] is then
    free with count 0. *)
Lemma kinit_inv m :
  exists st l, kinit kend PHYSTOP (kboot m) = Ok st /\
               kmem_inv kend PHYSTOP st l.
Proof.
  unfold kinit, freerange. cbv zeta.
  destruct (PGROUNDUP_spec kend) as (Hal & Hlo & Hhi);
    [lia|unfold PGSIZE in *; lia|].
  apply (freerange_loop_inv _ _ []); try assumption; [|lia].
  constructor; cbn [ram freelist ref kboot].
  - reflexivity.
  - constructor.
  - intros pa. simpl. split; [tauto|]. intros [(Ha & Hk & _) Hlt].
    destruct (Z.eq_dec pa (PGROUNDUP kend)) as [->|Hne]; [lia|].
    destruct (page_apart _ _ Ha Hal Hne); unfold PGSIZE in *; lia.
  - reflexivity.
Qed.

Lemma kreach_inv st :
  kreach kend PHYSTOP st -> exists l, kmem_inv kend PHYSTOP st l.
Proof.
  induction 1 as [m st Hk|st st' _ IH Hs].
  - destruct (kinit_inv m) as (st0 & l & Hk0 & Hi).
    rewrite Hk in Hk0. inversion Hk0; subst. eauto.
  - eapply kstep_inv; eassumption.
Qed.

Lemma on_freelist_inv st l pa :
  kmem_inv kend PHYSTOP st l -> (on_freelist st pa <-> In pa l).
Proof.
  intros Hi. split.
  - intros (l' & Hl' & Hin).
    now rewrite (flist_inj _ _ _ _ (inv_flist _ _ _ _ Hi) Hl').
  - intros Hin. exists l. split; [apply Hi|assumption].
Qed.

End Allocator.

Lemma free_pages_sound m : forall fuel r l,
  free_pages fuel m r = Some l -> flist m r l.
Proof.
  induction fuel as [|fuel IH]; intros r l; simpl; [discriminate|].
  destruct (Z.eqb_spec r 0) as [->|Hr].
  - intros [= <-]. reflexivity.
  - destruct (free_pages fuel m (run_next m r)) as [l'|] eqn:E; [|discriminate].
    intros [= <-]. simpl. auto.
Qed.

Lemma ex_kinit : kinit ex_end ex_PHYSTOP ex_boot = Ok ex_init.
Proof. reflexivity. Qed.

Lemma ex_init_inv : exists l, kmem_inv ex_end ex_PHYSTOP ex_init l.
Proof.
  destruct (kinit_inv ex_end ex_PHYSTOP
              ltac:(vm_compute; congruence) ltac:(vm_compute; congruence)
              ltac:(vm_compute; congruence) ltac:(vm_compute; congruence)
              (fun _ : Z => 0))
    as (st & l & Hk & Hi).
  fold ex_boot in Hk. rewrite ex_kinit in Hk. inversion Hk; subst. eauto.
Qed.

(** ** allocate *)

(** C3: [kalloc] returns 0 (none) exactly when the free list is empty, and
    is a function, so it never halts.  On a non-empty free list, in a state
    that satisfies the allocator invariant, it returns the head page, takes
    it off the list, leaves its reference count at one and every byte of the
    page at the fill byte 5. *)
Theorem kalloc_spec kend PHYSTOP st l :
  kmem_inv kend PHYSTOP st l ->
  (fst (kalloc st) = 0 <-> freelist st = 0) /\
  (freelist st = 0 <-> l = []) /\
  (freelist st = 0 -> snd (kalloc st) = st) /\
  (freelist st <> 0 ->
   exists l',
     l = freelist st :: l' /\
     fst (kalloc st) = freelist st /\
     flist (ram (snd (kalloc st))) (freelist (snd (kalloc st))) l' /\
     ~ In (freelist st) l' /\
     getref (snd (kalloc st)) (freelist st) = 1 /\
     (forall a, freelist st <= a < freelist st + PGSIZE ->
                ram (snd (kalloc st)) a = 5) /\
     kmem_inv kend PHYSTOP (snd (kalloc st)) l').
Proof.
  intros Hi.
  assert (Hfst : fst (kalloc st) = freelist st).
  { unfold kalloc. destruct (freelist st =? 0); reflexivity. }
  pose proof (inv_flist _ _ _ _ Hi) as Hl.
  split; [now rewrite Hfst|]. split; [|split].
  - destruct l as [|p l]; simpl in Hl.
    + tauto.
    + destruct Hl as (-> & Hne & _). split; [contradiction|discriminate].
  - intros Hz. unfold kalloc. rewrite Hz. reflexivity.
  - intros Hnz. destruct l as [|p l]; simpl in Hl; [contradiction|].
    destruct Hl as (Hfl & Hne & Hl). exists l.
    destruct (kalloc_inv kend PHYSTOP _ _ _ Hi) as (H1 & H2 & H3 & H4).
    pose proof (inv_nodup _ _ _ _ Hi) as Hnd.
    apply List.NoDup_cons_iff in Hnd.
    rewrite Hfl. split; [reflexivity|]. split; [exact H1|].
    split; [apply H2|]. split; [apply Hnd|]. split; [exact H3|].
    split; [exact H4|exact H2].
Qed.

Lemma kalloc_spec_witness :
  fst (kalloc ex_init) = 16384 /\
  getref (snd (kalloc ex_init)) 16384 = 1 /\
  ram (snd (kalloc ex_init)) (16384 + 4095) = 5.
Proof.
  destruct ex_init_inv as [l Hi].
  destruct (kalloc_spec ex_end ex_PHYSTOP ex_init l Hi) as (_ & _ & _ & H).
  destruct H as (l' & _ & H1 & _ & _ & H2 & H3 & _).
  - vm_compute. congruence.
  - split; [exact H1|]. split; [exact H2|].
    apply H3. vm_compute. split; congruence.
Defined.

(** ** free *)

(** C4 (amended): [kfree] halts exactly when the address is not page
    aligned, is below [end] or is at or above PHYSTOP.  On a valid address
    it decrements the reference count when that is positive and leaves a
    count of zero at zero; when the count is then zero it fills the page with
    the byte 1 and pushes it on the head of the free list (the link takes the
    first eight bytes), and when the count is still positive memory and free
    list are unchanged. *)
Theorem kfree_spec kend PHYSTOP st pa :
  (halts (kfree kend PHYSTOP st pa) <->
   pa mod PGSIZE <> 0 \/ pa < kend \/ PHYSTOP <= pa) /\
  (managed kend PHYSTOP pa ->
   exists st',
     kfree kend PHYSTOP st pa = Ok st' /\
     getref st' pa = (if getref st pa >? 0 then getref st pa - 1
                      else getref st pa) /\
     (getref st' pa = 0 ->
        freelist st' = pa /\
        ram st' = set_run_next (memset (ram st) pa 1 PGSIZE) pa (freelist st) /\
        (forall a, pa + 8 <= a < pa + PGSIZE -> ram st' a = 1) /\
        (0 <= freelist st < 2 ^ 64 -> run_next (ram st') pa = freelist st)) /\
     (getref st' pa <> 0 ->
        freelist st' = freelist st /\ ram st' = ram st)).
Proof.
  split.
  - split.
    + intros Hh.
      destruct (Z.eq_dec (pa mod PGSIZE) 0); [|auto].
      destruct (Z_lt_dec pa kend); [auto|].
      destruct (Z_le_dec PHYSTOP pa); [auto|].
      assert (Hm : managed kend PHYSTOP pa) by (unfold managed; lia).
      rewrite (kfree_valid _ _ st _ Hm) in Hh. cbv zeta in Hh.
      destruct (_ =? _) in Hh; destruct Hh.
    + intros H. rewrite kfree_invalid; [exact I|unfold managed; lia].
  - intros Hm. rewrite (kfree_valid _ _ _ _ Hm). cbv zeta.
    destruct (subref_frame st pa) as [Hram Hfl].
    assert (Hg : getref (subref st pa) pa =
                 if getref st pa >? 0 then getref st pa - 1 else getref st pa).
    { rewrite getref_subref, Z.eqb_refl, andb_true_r. reflexivity. }
    destruct (Z.eqb_spec (getref (subref st pa) pa) 0) as [Hz|Hz];
      eexists; (split; [reflexivity|]).
    + change (getref (mkKstate _ _ _) pa) with (getref (subref st pa) pa).
      split; [exact Hg|]. split; [|intros; contradiction].
      intros _. cbn [ram freelist]. rewrite Hram, Hfl.
      split; [reflexivity|]. split; [reflexivity|]. split.
      * intros a Ha. unfold set_run_next.
        rewrite store_le_out by (simpl; lia).
        rewrite memset_in by lia. reflexivity.
      * intros Hr. now apply run_next_set.
    + split; [exact Hg|]. split; [intros; contradiction|]. auto.
Qed.

Lemma kfree_spec_witness :
  exists st', kfree ex_end ex_PHYSTOP ex_boot 8192 = Ok st' /\
              getref st' 8192 = 0 /\ freelist st' = 8192.
Proof.
  destruct (kfree_spec ex_end ex_PHYSTOP ex_boot 8192) as [_ H].
  destruct H as (st' & Hk & Hg & Hz & _).
  - unfold managed. vm_compute. repeat split; congruence.
  - exists st'. split; [exact Hk|]. split; [exact Hg|].
    apply Hz. exact Hg.
Defined.

(** C4 as stated does not hold: the first call [kinit] makes frees page
    8192 whose count is 0; the count is not decremented. *)
Lemma kfree_decrement_counterexample :
  ~ (forall st pa, managed ex_end ex_PHYSTOP pa ->
       exists st', kfree ex_end ex_PHYSTOP st pa = Ok st' /\
                   getref st' pa = getref st pa - 1).
Proof.
  intros H.
  destruct (H ex_boot 8192) as (st' & Hk & Hg).
  - unfold managed. vm_compute. repeat split; congruence.
  - assert (E : kfree ex_end ex_PHYSTOP ex_boot 8192 =
                Ok (mkKstate (ref ex_boot)
                      (set_run_next (memset (ram ex_boot) 8192 1 PGSIZE) 8192 0)
                      8192))
      by reflexivity.
    rewrite E in Hk. injection Hk as <-.
    vm_compute in Hg. discriminate.
Qed.

(** ** Conservation *)

(** C5 (amended): in every state reached from [kinit] by [kalloc], by
    [kfree] and [addref] of a page whose count is at least one and by
    [subref] of a page whose count is at least two, every managed page has a
    count that is at least 0 and is on the free list exactly when its count
    is 0. *)
Theorem alloc_conservation kend PHYSTOP st pa :
  0 < kend -> PHYSTOP + PGSIZE <= 2 ^ 64 ->
  PHYSTOP mod PGSIZE = 0 -> kend <= PHYSTOP ->
  kreach kend PHYSTOP st ->
  managed kend PHYSTOP pa ->
  0 <= getref st pa /\ (on_freelist st pa <-> getref st pa = 0).
Proof.
  intros H1 H2 H3 H4 Hr Hm.
  destruct (kreach_inv kend PHYSTOP H1 H2 H3 H4 st Hr) as [l Hi].
  split; [apply Hi|].
  rewrite (on_freelist_inv kend PHYSTOP st l pa Hi). now apply Hi.
Qed.

Lemma alloc_conservation_witness :
  0 <= getref ex_alloc 16384 /\
  (on_freelist ex_alloc 16384 <-> getref ex_alloc 16384 = 0).
Proof.
  apply (alloc_conservation ex_end ex_PHYSTOP);
    try (vm_compute; congruence).
  - apply kreach_step with (st := ex_init).
    + apply kreach_init with (m := fun _ => 0). reflexivity.
    + apply kstep_kalloc.
  - unfold managed. vm_compute. repeat split; congruence.
Defined.

(** C5 as stated does not hold: after [kinit], [kalloc] (which returns
    page 16384) and [subref] of that page, the page has count 0 and is not
    on the free list. *)
Lemma alloc_conservation_counterexample :
  kreach_any ex_end ex_PHYSTOP ex_dropped /\
  managed ex_end ex_PHYSTOP 16384 /\
  getref ex_dropped 16384 = 0 /\
  ~ on_freelist ex_dropped 16384.
Proof.
  split; [|split; [|split]].
  - apply kreach_any_step with (st := ex_alloc).
    + apply kreach_any_step with (st := ex_init).
      * apply kreach_any_init with (m := fun _ => 0). reflexivity.
      * apply kany_kalloc.
    + apply kany_subref.
  - unfold managed. vm_compute. repeat split; congruence.
  - reflexivity.
  - intros (l & Hl & Hin).
    assert (Hf : flist (ram ex_dropped) (freelist ex_dropped) [12288; 8192])
      by (apply (free_pages_sound _ 5%nat); reflexivity).
    rewrite (flist_inj _ _ _ _ Hl Hf) in Hin.
    simpl in Hin. intuition discriminate.
Qed.

(* ================================================================== *)
(** * The buffer cache *)

(** ** Pointers, loads and stores *)

Lemma ptr_eqb_spec p q : reflect (p = q) (ptr_eqb p q).
Proof.
  destruct p as [|k|i], q as [|k'|i']; simpl; try (constructor; congruence).
  - destruct (Nat.eqb_spec k k'); constructor; congruence.
  - destruct (Nat.eqb_spec i i'); constructor; congruence.
Qed.

Lemma ptr_eqb_refl p : ptr_eqb p p = true.
Proof. destruct (ptr_eqb_spec p p); congruence. Qed.

Lemma ptr_eqb_ne p q : p <> q -> ptr_eqb p q = false.
Proof. destruct (ptr_eqb_spec p q); congruence. Qed.

Lemma ptr_eq_dec (p q : ptr) : {p = q} + {p <> q}.
Proof. destruct (ptr_eqb_spec p q); auto. Qed.

Lemma load_store c p y q :
  is_Some (load c p) ->
  load (store c p y) q = if ptr_eqb q p then Some y else load c q.
Proof.
  intros Hp. destruct (ptr_eqb_spec q p) as [->|Hne].
  - destruct p as [|k|i]; simpl in *.
    + destruct Hp; discriminate.
    + apply list_lookup_insert_eq. now apply lookup_lt_is_Some.
    + apply list_lookup_insert_eq. now apply lookup_lt_is_Some.
  - destruct p as [|k|i], q as [|k'|i']; simpl; try reflexivity.
    + apply list_lookup_insert_ne. congruence.
    + apply list_lookup_insert_ne. congruence.
Qed.

Lemma store_length c p y :
  length (pool (store c p y)) = length (pool c) /\
  length (bucket (store c p y)) = length (bucket c).
Proof. destruct p; simpl; rewrite ?length_insert; auto. Qed.

Lemma assign_ok c p f x :
  load c p = Some x -> assign c p f = Some (store c p (f x)).
Proof. unfold assign. now intros ->. Qed.

(** ** Chains of links *)

Lemma chain_cons c a b t : chain c (a :: b :: t) <-> link c a b /\ chain c (b :: t).
Proof. reflexivity. Qed.

Lemma chain_app c l1 : forall x l2,
  chain c (l1 ++ x :: l2) <-> chain c (l1 ++ [x]) /\ chain c (x :: l2).
Proof.
  induction l1 as [|a l1 IH]; intros x l2.
  - simpl. tauto.
  - destruct l1 as [|b l1].
    + simpl. destruct l2; tauto.
    + change ((a :: b :: l1) ++ x :: l2) with (a :: b :: (l1 ++ x :: l2)).
      change ((a :: b :: l1) ++ [x]) with (a :: b :: (l1 ++ [x])).
      rewrite !chain_cons.
      change (b :: l1 ++ x :: l2) with ((b :: l1) ++ x :: l2).
      change (b :: l1 ++ [x]) with ((b :: l1) ++ [x]).
      rewrite IH. tauto.
Qed.

(** A chain only reads [next] of every node but the last and [prev] of
    every node but the first. *)
Lemma chain_frame c c' l :
  chain c l ->
  (forall q, In q (removelast l) -> nx c' q = nx c q) ->
  (forall q, In q (tl l) -> pv c' q = pv c q) ->
  chain c' l.
Proof.
  induction l as [|a l IH]; [trivial|].
  destruct l as [|b l]; [trivial|].
  intros [[Hn Hp] Hc] Hnx Hpv. split.
  - split.
    + rewrite Hnx; [assumption|]. simpl. auto.
    + rewrite Hpv; [assumption|]. simpl. auto.
  - apply IH; [assumption| |].
    + intros q Hq. apply Hnx.
      change (removelast (a :: b :: l)) with (a :: removelast (b :: l)).
      simpl. auto.
    + intros q Hq. apply Hpv. simpl. simpl in Hq. auto.
Qed.

(** Unlinking [b] between [a] and [z]. *)
Lemma chain_remove c c' a b z : forall A Z,
  chain c (A ++ a :: b :: z :: Z) ->
  nx c' a = Some z -> pv c' z = Some a ->
  (forall q, In q A -> nx c' q = nx c q) ->
  (forall q, In q (tl (A ++ [a])) -> pv c' q = pv c q) ->
  (forall q, In q (removelast (z :: Z)) -> nx c' q = nx c q) ->
  (forall q, In q Z -> pv c' q = pv c q) ->
  chain c' (A ++ a :: z :: Z).
Proof.
  intros A Z Hc Hn Hp HA1 HA2 HZ1 HZ2.
  apply chain_app in Hc. destruct Hc as [HcA Hc].
  apply chain_app. split.
  - eapply chain_frame; [exact HcA| |exact HA2].
    intros q Hq. apply HA1. now rewrite removelast_last in Hq.
  - rewrite chain_cons in Hc. destruct Hc as [_ Hc].
    rewrite chain_cons in Hc. destruct Hc as [_ Hc].
    rewrite chain_cons. split; [split; assumption|].
    eapply chain_frame; [exact Hc|exact HZ1|exact HZ2].
Qed.

(** Linking [b] between [a] and [z]. *)
Lemma chain_insert c c' a b z Z :
  chain c (a :: z :: Z) ->
  nx c' a = Some b -> pv c' b = Some a ->
  nx c' b = Some z -> pv c' z = Some b ->
  (forall q, In q (removelast (z :: Z)) -> nx c' q = nx c q) ->
  (forall q, In q Z -> pv c' q = pv c q) ->
  chain c' (a :: b :: z :: Z).
Proof.
  intros Hc H1 H2 H3 H4 HZ1 HZ2.
  rewrite chain_cons in Hc. destruct Hc as [_ Hc].
  rewrite !chain_cons. repeat split; try assumption.
  eapply chain_frame; [exact Hc|exact HZ1|exact HZ2].
Qed.

(** ** Walking a bucket list *)

Lemma chain_nxpath c hd L : forall a,
  chain c (a :: L ++ [hd]) -> (forall q, In q L -> q <> hd) ->
  exists s, nx c a = Some s /\ nxpath c s L hd.
Proof.
  induction L as [|q L IH]; intros a Hc Hne.
  - simpl in Hc. destruct Hc as [[Hn _] _]. exists hd. split; [assumption|reflexivity].
  - change (a :: (q :: L) ++ [hd]) with (a :: q :: L ++ [hd]) in Hc.
    rewrite chain_cons in Hc. destruct Hc as [[Hn _] Hc].
    destruct (IH q Hc) as (s & Hs & Hp); [intros; apply Hne; simpl; auto|].
    exists q. split; [assumption|]. simpl. split; [reflexivity|].
    split; [apply Hne; simpl; auto|].
    unfold nx in Hs. destruct (load c q) as [x|]; [|discriminate].
    simpl in Hs. injection Hs as <-. eauto.
Qed.

Lemma walk_nxpath c hd L : forall s fuel,
  nxpath c s L hd -> (length L < fuel)%nat -> walk fuel c hd s = Some L.
Proof.
  induction L as [|q L IH]; intros s [|fuel] Hp Hf; simpl in *; try lia.
  - subst. now rewrite ptr_eqb_refl.
  - destruct Hp as (-> & Hne & x & Hx & Hp).
    rewrite (ptr_eqb_ne _ _ Hne), Hx, (IH _ fuel Hp); [reflexivity|lia].
Qed.

Lemma scan_nxpath c hd d bn L : forall s fuel,
  nxpath c s L hd -> (length L < fuel)%nat ->
  scan fuel c hd d bn s =
  match List.find (keyb c d bn) L with
  | Some b => Found b
  | None => NotFound
  end.
Proof.
  induction L as [|q L IH]; intros s [|fuel] Hp Hf; simpl in *; try lia.
  - subst. now rewrite ptr_eqb_refl.
  - destruct Hp as (-> & Hne & x & Hx & Hp).
    rewrite (ptr_eqb_ne _ _ Hne), Hx. unfold keyb at 1. rewrite Hx.
    destruct ((dev x =? d) && (blockno x =? bn)); [reflexivity|].
    apply IH; [assumption|lia].
Qed.

(** ** Effect of one assignment *)

Lemma same_size_refl c : same_size c c.
Proof. split; reflexivity. Qed.

Lemma same_size_trans c1 c2 c3 :
  same_size c1 c2 -> same_size c2 c3 -> same_size c1 c3.
Proof. unfold same_size. intros [] []. split; congruence. Qed.

Lemma assign_load c p f x :
  load c p = Some x ->
  exists c', assign c p f = Some c' /\
    (forall q, load c' q = if ptr_eqb q p then Some (f x) else load c q) /\
    same_size c c'.
Proof.
  intros H. exists (store c p (f x)). split; [now apply assign_ok|]. split.
  - intros q. apply load_store. rewrite H. eauto.
  - apply store_length.
Qed.

(** ** brelse *)

(** The count stays positive: only the lock and the count change. *)
Lemma brelse_keep t me c b x :
  load c b = Some x ->
  holdingsleep (lock x) me = true ->
  wrap32 (refcnt x - 1) <> 0 ->
  exists c', brelse t me c b = Ok c' /\
    load c' b = Some (set_refcnt (wrap32 (refcnt x - 1))
                        (set_lock (mkSleeplock 0 0) x)) /\
    (forall q, q <> b -> load c' q = load c q) /\
    same_size c c'.
Proof.
  intros Hx Hh Hr. unfold brelse, releasesleep. rewrite Hx, Hh. cbn [negb].
  destruct (assign_load c b (set_lock (mkSleeplock 0 0)) x Hx)
    as (c1 & -> & L1 & S1).
  assert (H1 : load c1 b = Some (set_lock (mkSleeplock 0 0) x))
    by (rewrite L1, ptr_eqb_refl; reflexivity).
  destruct (assign_load c1 b (fun x => set_refcnt (wrap32 (refcnt x - 1)) x) _ H1)
    as (c2 & -> & L2 & S2).
  rewrite L2, ptr_eqb_refl. cbn [refcnt set_refcnt set_lock].
  destruct (Z.eqb_spec (wrap32 (refcnt x - 1)) 0); [contradiction|].
  exists c2. split; [reflexivity|]. split; [|split].
  - rewrite L2, ptr_eqb_refl. reflexivity.
  - intros q Hq. rewrite L2, L1, !(ptr_eqb_ne _ _ Hq). reflexivity.
  - eapply same_size_trans; eassumption.
Qed.

(** The count reaches zero: [b] is taken out between [prev] and [next]. *)
Lemma brelse_zero t me c b x ya yz :
  load c b = Some x ->
  holdingsleep (lock x) me = true ->
  wrap32 (refcnt x - 1) = 0 ->
  prev x <> b -> next x <> b ->
  load c (prev x) = Some ya -> load c (next x) = Some yz ->
  exists c', brelse t me c b = Ok c' /\
    load c' b = Some (set_ticks t (set_next Null (set_prev Null
                   (set_refcnt 0 (set_lock (mkSleeplock 0 0) x))))) /\
    (forall q, q <> b ->
       nx c' q = (if ptr_eqb q (prev x) then Some (next x) else nx c q) /\
       pv c' q = (if ptr_eqb q (next x) then Some (prev x) else pv c q) /\
       dat c' q = dat c q) /\
    same_size c c'.
Proof.
  intros Hx Hh Hr Hpb Hnb Ha Hz.
  unfold brelse, releasesleep. rewrite Hx, Hh. cbn [negb].
  destruct (assign_load c b (set_lock (mkSleeplock 0 0)) x Hx)
    as (c1 & -> & L1 & S1).
  assert (H1 : load c1 b = Some (set_lock (mkSleeplock 0 0) x))
    by (rewrite L1, ptr_eqb_refl; reflexivity).
  destruct (assign_load c1 b (fun x => set_refcnt (wrap32 (refcnt x - 1)) x) _ H1)
    as (c2 & -> & L2 & S2).
  change (refcnt (set_lock _ x)) with (refcnt x) in L2. rewrite Hr in L2.
  rewrite L2, ptr_eqb_refl. cbn [refcnt set_refcnt set_lock next prev Z.eqb].
  assert (Hother : forall q, q <> b -> load c2 q = load c q).
  { intros q Hq. rewrite L2, L1, !(ptr_eqb_ne _ _ Hq). reflexivity. }
  assert (H2z : load c2 (next x) = Some yz) by (rewrite Hother; assumption).
  destruct (assign_load c2 (next x) (set_prev (prev x)) _ H2z)
    as (c3 & -> & L3 & S3).
  rewrite L3, (ptr_eqb_ne _ _ (not_eq_sym Hnb)), L2, ptr_eqb_refl.
  cbn [refcnt set_refcnt set_lock next prev].
  assert (H3a : load c3 (prev x) =
                Some (if ptr_eqb (prev x) (next x) then set_prev (prev x) yz else ya)).
  { rewrite L3. destruct (ptr_eqb (prev x) (next x)); [reflexivity|].
    rewrite Hother; assumption. }
  destruct (assign_load c3 (prev x) (set_next (next x)) _ H3a)
    as (c4 & -> & L4 & S4).
  assert (H4b : load c4 b = Some (set_refcnt 0 (set_lock (mkSleeplock 0 0) x))).
  { rewrite L4, (ptr_eqb_ne _ _ (not_eq_sym Hpb)), L3,
      (ptr_eqb_ne _ _ (not_eq_sym Hnb)), L2, ptr_eqb_refl. reflexivity. }
  destruct (assign_load c4 b (set_prev Null) _ H4b) as (c5 & -> & L5 & S5).
  assert (H5b : load c5 b = Some (set_prev Null
                  (set_refcnt 0 (set_lock (mkSleeplock 0 0) x))))
    by (rewrite L5, ptr_eqb_refl; reflexivity).
  destruct (assign_load c5 b (set_next Null) _ H5b) as (c6 & -> & L6 & S6).
  assert (H6b : load c6 b = Some (set_next Null (set_prev Null
                  (set_refcnt 0 (set_lock (mkSleeplock 0 0) x)))))
    by (rewrite L6, ptr_eqb_refl; reflexivity).
  destruct (assign_load c6 b (set_ticks t) _ H6b) as (c7 & -> & L7 & S7).
  exists c7. split; [reflexivity|]. split; [|split].
  - rewrite L7, ptr_eqb_refl. reflexivity.
  - intros q Hq.
    assert (Hq7 : load c7 q = load c4 q).
    { rewrite L7, L6, L5, !(ptr_eqb_ne _ _ Hq). reflexivity. }
    unfold nx, pv, dat. rewrite Hq7, L4, L3, (Hother q Hq).
    destruct (ptr_eqb_spec (prev x) (next x)) as [Haz|Haz];
      destruct (ptr_eqb_spec q (prev x)) as [Hqa|Hqa];
      destruct (ptr_eqb_spec q (next x)) as [Hqz|Hqz];
      try congruence.
    + replace (load c q) with (Some yz) by congruence. repeat split.
    + repeat split.
    + replace (load c q) with (Some ya) by congruence. repeat split.
    + replace (load c q) with (Some yz) by congruence. repeat split.
    + repeat split.
  - repeat (eapply same_size_trans; [eassumption|]). apply same_size_refl.
Qed.

(** ** The recycling scan *)

Lemma lru_step_spec c i lb x :
  pool c !! i = Some x -> lru_cand c i lb ->
  exists lb', lru_step c lb i = Ok lb' /\ lru_cand c (S i) lb'.
Proof.
  intros Hx [[-> Hnone]|(j & xj & -> & Hj & Hxj & Hzj & Hmin)];
    unfold lru_step; cbn [load]; rewrite Hx.
  - cbn [ptr_eqb andb]. destruct (Z.eqb_spec (refcnt x) 0) as [Hz|Hz].
    + exists (Slot i). split; [reflexivity|]. right.
      exists i, x. repeat split; try assumption; try lia.
      * assert (i0 = i) as ->.
        { destruct (Nat.eq_dec i0 i); [assumption|].
          exfalso. apply (Hnone i0 x0); [lia|assumption|assumption]. }
        rewrite Hx in H0. injection H0 as ->. lia.
      * intros _. destruct (Nat.eq_dec i0 i); [lia|].
        exfalso. apply (Hnone i0 x0); [lia|assumption|assumption].
    + exists Null. split; [reflexivity|]. left. split; [reflexivity|].
      intros i0 x0 Hi0 Hx0. destruct (Nat.eq_dec i0 i) as [->|].
      * rewrite Hx in Hx0. injection Hx0 as <-. assumption.
      * apply (Hnone i0); [lia|assumption].
  - cbn [ptr_eqb andb load]. rewrite Hxj.
    destruct (Z.eqb_spec (refcnt x) 0) as [Hz|Hz].
    + destruct (Z.gtb_spec (ticks xj) (ticks x)) as [Hgt|Hle].
      * exists (Slot i). split; [reflexivity|]. right.
        exists i, x. repeat split; try assumption; try lia.
        -- destruct (Nat.eq_dec i0 i) as [->|].
           ++ rewrite Hx in H0. injection H0 as ->. lia.
           ++ destruct (Hmin i0 x0); [lia|assumption|assumption|lia].
        -- intros He. destruct (Nat.eq_dec i0 i) as [->|]; [lia|].
           destruct (Hmin i0 x0); [lia|assumption|assumption|lia].
      * exists (Slot j). split; [reflexivity|]. right.
        exists j, xj. repeat split; try assumption; try lia.
        -- destruct (Nat.eq_dec i0 i) as [->|].
           ++ rewrite Hx in H0. injection H0 as ->. lia.
           ++ destruct (Hmin i0 x0); [lia|assumption|assumption|lia].
        -- intros He. destruct (Nat.eq_dec i0 i) as [->|]; [lia|].
           destruct (Hmin i0 x0); [lia|assumption|assumption|auto].
    + exists (Slot j). split; [reflexivity|]. right.
      exists j, xj. repeat split; try assumption; try lia.
      * destruct (Nat.eq_dec i0 i) as [->|].
        -- rewrite Hx in H0. injection H0 as ->. contradiction.
        -- destruct (Hmin i0 x0); [lia|assumption|assumption|lia].
      * intros He. destruct (Nat.eq_dec i0 i) as [->|].
        -- rewrite Hx in H0. injection H0 as ->. contradiction.
        -- destruct (Hmin i0 x0); [lia|assumption|assumption|auto].
Qed.

Lemma lru_loop_spec c : forall m i lb,
  (i + m <= length (pool c))%nat -> lru_cand c i lb ->
  exists lb', lru_loop c m i lb = Ok lb' /\ lru_cand c (i + m) lb'.
Proof.
  induction m as [|m IH]; intros i lb Hlen Hc.
  - exists lb. split; [reflexivity|]. now rewrite Nat.add_0_r.
  - destruct (lookup_lt_is_Some_2 (pool c) i) as [x Hx]; [lia|].
    destruct (lru_step_spec c i lb x Hx Hc) as (lb1 & E1 & Hc1).
    cbn [lru_loop]. rewrite E1.
    destruct (IH (S i) lb1) as (lb' & E & Hc'); [lia|assumption|].
    exists lb'. split; [assumption|].
    now replace (i + S m)%nat with (S i + m)%nat by lia.
Qed.

Lemma lru_spec c :
  exists lb, lru c = Ok lb /\ lru_cand c (length (pool c)) lb.
Proof.
  apply (lru_loop_spec c (length (pool c)) 0%nat Null); [simpl; lia|].
  left. split; [reflexivity|]. intros; lia.
Qed.

(** The first slot with count zero, if there is one below [n]. *)
Lemma first_zero c n :
  (forall i x, (i < n)%nat -> pool c !! i = Some x -> refcnt x <> 0) \/
  (exists f xf, (f < n)%nat /\ pool c !! f = Some xf /\ refcnt xf = 0 /\
     forall i x, (i < f)%nat -> pool c !! i = Some x -> refcnt x <> 0).
Proof.
  induction n as [|n [IH|IH]].
  - left. intros; lia.
  - destruct (pool c !! n) as [x|] eqn:Hx.
    + destruct (Z.eq_dec (refcnt x) 0) as [Hz|Hz].
      * right. exists n, x. repeat split; auto.
      * left. intros i y Hi Hy. destruct (Nat.eq_dec i n) as [->|].
        -- congruence.
        -- apply (IH i); [lia|assumption].
    + left. intros i y Hi Hy. destruct (Nat.eq_dec i n) as [->|].
      * congruence.
      * apply (IH i); [lia|assumption].
  - right. destruct IH as (f & xf & Hf & H). exists f, xf.
    split; [lia|assumption].
Qed.

(** Up to the first slot with count zero the candidate is null; that slot
    becomes the candidate. *)
Lemma lru_seed c f xf :
  pool c !! f = Some xf -> refcnt xf = 0 ->
  (forall i x, (i < f)%nat -> pool c !! i = Some x -> refcnt x <> 0) ->
  lru_loop c f 0%nat Null = Ok Null /\ lru_step c Null f = Ok (Slot f).
Proof.
  intros Hf Hz Hnone. split.
  - destruct (lru_loop_spec c f 0%nat Null) as (lb & E & Hc).
    + apply lookup_lt_Some in Hf. simpl. lia.
    + left. split; [reflexivity|]. intros; lia.
    + destruct Hc as [[-> _]|(j & xj & _ & Hj & Hxj & Hzj & _)]; [exact E|].
      exfalso. apply (Hnone j xj); assumption.
  - unfold lru_step. cbn [load]. rewrite Hf, Hz. reflexivity.
Qed.

(** ** acquiresleep, the hit path and the recycle path of bget *)

Lemma acquiresleep_eval me c b x :
  load c b = Some x ->
  exists c',
    (if locked (lock x) =? 0
     then acquiresleep me c b = Ok (b, c') /\
          load c' b = Some (set_lock (mkSleeplock 1 me) x)
     else acquiresleep me c b = Sleep (b, c') /\ load c' b = Some x) /\
    (forall q, q <> b -> load c' q = load c q) /\
    same_size c c'.
Proof.
  intros Hx. unfold acquiresleep. rewrite Hx.
  destruct (locked (lock x) =? 0); cbn [negb].
  - exists (store c b (set_lock (mkSleeplock 1 me) x)).
    assert (Hs : is_Some (load c b)) by (rewrite Hx; eauto).
    split; [split; [reflexivity|]|split].
    + rewrite load_store, ptr_eqb_refl by assumption. reflexivity.
    + intros q Hq. rewrite load_store, (ptr_eqb_ne _ _ Hq) by assumption.
      reflexivity.
    + apply store_length.
  - exists c. split; [auto|]. split; [auto|apply same_size_refl].
Qed.

Lemma hit_eval me c b x :
  load c b = Some x ->
  exists c' x',
    taken me x x'
      (do c1 <- assign c b (fun x => set_refcnt (wrap32 (refcnt x + 1)) x);
       acquiresleep me c1 b) b c' /\
    load c' b = Some x' /\
    x' = set_lock (lock x') (set_refcnt (wrap32 (refcnt x + 1)) x) /\
    (forall q, q <> b -> load c' q = load c q) /\
    same_size c c'.
Proof.
  intros Hx.
  destruct (assign_load c b (fun x => set_refcnt (wrap32 (refcnt x + 1)) x) x Hx)
    as (c1 & -> & L1 & S1).
  assert (H1 : load c1 b = Some (set_refcnt (wrap32 (refcnt x + 1)) x))
    by (rewrite L1, ptr_eqb_refl; reflexivity).
  destruct (acquiresleep_eval me c1 b _ H1) as (c' & Ha & Lo & S2).
  change (locked (lock (set_refcnt _ x))) with (locked (lock x)) in Ha.
  unfold taken.
  destruct (locked (lock x) =? 0); destruct Ha as [Ha Hb];
    eexists c', _; (split; [split; [exact Ha|]|split; [exact Hb|split; [|split]]]);
    try reflexivity;
    try (intros q Hq; rewrite (Lo q Hq), L1, (ptr_eqb_ne _ _ Hq); reflexivity);
    try (eapply same_size_trans; eassumption).
Qed.

Lemma recycle_eval me c d bn b x h yz :
  let hd := Head (bucket_key bn) in
  load c b = Some x -> load c hd = Some h -> load c (next h) = Some yz ->
  b <> hd -> next h <> b ->
  exists c' x',
    taken me x x' (recycle me c d bn b) b c' /\
    load c' b = Some x' /\
    x' = set_lock (lock x') (set_prev hd (set_next (next h) (set_refcnt 1
           (set_valid 0 (set_blockno bn (set_dev d x)))))) /\
    (forall q, q <> b ->
       nx c' q = (if ptr_eqb q hd then Some b else nx c q) /\
       pv c' q = (if ptr_eqb q (next h) then Some b else pv c q) /\
       dat c' q = dat c q) /\
    same_size c c'.
Proof.
  intros hd Hx Hh Hz Hbh Hzb. unfold recycle. fold hd.
  assert (Hhb : hd <> b) by congruence.
  destruct (assign_load c b (set_dev d) x Hx) as (c1 & -> & L1 & S1).
  assert (H1 : load c1 b = Some (set_dev d x))
    by (rewrite L1, ptr_eqb_refl; reflexivity).
  destruct (assign_load c1 b (set_blockno bn) _ H1) as (c2 & -> & L2 & S2).
  assert (H2 : load c2 b = Some (set_blockno bn (set_dev d x)))
    by (rewrite L2, ptr_eqb_refl; reflexivity).
  destruct (assign_load c2 b (set_valid 0) _ H2) as (c3 & -> & L3 & S3).
  assert (H3 : load c3 b = Some (set_valid 0 (set_blockno bn (set_dev d x))))
    by (rewrite L3, ptr_eqb_refl; reflexivity).
  destruct (assign_load c3 b (set_refcnt 1) _ H3) as (c4 & -> & L4 & S4).
  assert (H4 : load c4 b = Some (set_refcnt 1
             (set_valid 0 (set_blockno bn (set_dev d x)))))
    by (rewrite L4, ptr_eqb_refl; reflexivity).
  assert (O4 : forall q, q <> b -> load c4 q = load c q).
  { intros q Hq. rewrite L4, L3, L2, L1, !(ptr_eqb_ne _ _ Hq). reflexivity. }
  rewrite (O4 hd Hhb), Hh.
  destruct (assign_load c4 b (set_next (next h)) _ H4) as (c5 & -> & L5 & S5).
  assert (H5 : load c5 b = Some (set_next (next h) (set_refcnt 1
             (set_valid 0 (set_blockno bn (set_dev d x))))))
    by (rewrite L5, ptr_eqb_refl; reflexivity).
  destruct (assign_load c5 b (set_prev hd) _ H5) as (c6 & -> & L6 & S6).
  assert (O6 : forall q, q <> b -> load c6 q = load c q).
  { intros q Hq. rewrite L6, L5, !(ptr_eqb_ne _ _ Hq). now apply O4. }
  rewrite (O6 hd Hhb), Hh.
  assert (H6z : load c6 (next h) = Some yz) by (rewrite O6; assumption).
  destruct (assign_load c6 (next h) (set_prev b) _ H6z) as (c7 & -> & L7 & S7).
  assert (H7h : load c7 hd =
                Some (if ptr_eqb hd (next h) then set_prev b yz else h)).
  { rewrite L7. destruct (ptr_eqb hd (next h)); [reflexivity|].
    rewrite O6; assumption. }
  destruct (assign_load c7 hd (set_next b) _ H7h) as (c8 & -> & L8 & S8).
  assert (H8 : load c8 b = Some (set_prev hd (set_next (next h) (set_refcnt 1
             (set_valid 0 (set_blockno bn (set_dev d x))))))).
  { rewrite L8, (ptr_eqb_ne _ _ Hbh), L7, (ptr_eqb_ne _ _ (not_eq_sym Hzb)), L6,
      ptr_eqb_refl. reflexivity. }
  destruct (acquiresleep_eval me c8 b _ H8) as (c' & Ha & Lo & S9).
  change (locked (lock (set_prev _ _))) with (locked (lock x)) in Ha.
  assert (Hrest : forall q, q <> b ->
       nx c' q = (if ptr_eqb q hd then Some b else nx c q) /\
       pv c' q = (if ptr_eqb q (next h) then Some b else pv c q) /\
       dat c' q = dat c q).
  { intros q Hq. unfold nx, pv, dat. rewrite (Lo q Hq), L8, L7, (O6 q Hq).
    destruct (ptr_eqb_spec hd (next h)) as [Haz|Haz];
      destruct (ptr_eqb_spec q hd) as [Hqa|Hqa];
      destruct (ptr_eqb_spec q (next h)) as [Hqz|Hqz];
      try congruence.
    - replace (load c q) with (Some yz) by congruence. repeat split.
    - repeat split.
    - replace (load c q) with (Some h) by congruence. repeat split.
    - replace (load c q) with (Some yz) by congruence. repeat split.
    - repeat split. }
  assert (Hsize : same_size c c').
  { repeat (eapply same_size_trans; [eassumption|]). apply same_size_refl. }
  unfold taken.
  destruct (locked (lock x) =? 0); destruct Ha as [Ha Hb];
    eexists c', _;
    (split; [split; [exact Ha|]|split; [exact Hb|split; [|split]]]);
    try reflexivity; try assumption.
Qed.

(** ** Rings *)

Lemma in_map_slot i l : In (Slot i) (map Slot l) <-> In i l.
Proof.
  rewrite in_map_iff. split.
  - intros (i' & [= ->] & H). assumption.
  - intros H. eauto.
Qed.

Lemma head_not_slot k l : ~ In (Head k) (map Slot l).
Proof. rewrite in_map_iff. intros (i & H & _). discriminate. Qed.

Lemma nodup_map_slot l : List.NoDup l -> List.NoDup (map Slot l).
Proof. apply Finite.Injective_map_NoDup. intros i i' [=]. assumption. Qed.

Lemma nodup_nodes k l : List.NoDup l -> List.NoDup (Head k :: map Slot l).
Proof.
  intros H. constructor; [apply head_not_slot|now apply nodup_map_slot].
Qed.

Lemma nodup_tail k l : List.NoDup l -> List.NoDup (map Slot l ++ [Head k]).
Proof.
  intros H. apply List.NoDup_app; [now apply nodup_map_slot|repeat constructor; auto |].
  intros q Hq [<-|[]]. now apply head_not_slot in Hq.
Qed.

Lemma nodup_mid (X Y : list ptr) y q :
  List.NoDup (X ++ y :: Y) -> In q (X ++ Y) -> q <> y.
Proof. intros H Hq ->. now apply List.NoDup_remove_2 in H. Qed.

Lemma ring_frame c c' k l :
  ring c k l ->
  (forall q, In q (Head k :: map Slot l) -> nx c' q = nx c q /\ pv c' q = pv c q) ->
  ring c' k l.
Proof.
  unfold ring. intros Hc Hq. eapply chain_frame; [exact Hc| |].
  - intros q Hin. apply Hq.
    change (Head k :: map Slot l ++ [Head k])
      with ((Head k :: map Slot l) ++ [Head k]) in Hin.
    now rewrite removelast_last in Hin.
  - intros q Hin. apply Hq. cbn [tl] in Hin.
    apply in_app_or in Hin. destruct Hin as [H|[<-|[]]]; simpl; auto.
Qed.

Lemma ring_remove c c' k l1 j l2 :
  ring c k (l1 ++ j :: l2) -> List.NoDup (l1 ++ j :: l2) ->
  (forall a z, pv c (Slot j) = Some a -> nx c (Slot j) = Some z ->
     nx c' a = Some z /\ pv c' z = Some a /\
     (forall q, q <> Slot j -> q <> a -> nx c' q = nx c q) /\
     (forall q, q <> Slot j -> q <> z -> pv c' q = pv c q)) ->
  ring c' k (l1 ++ l2).
Proof.
  unfold ring. intros Hc Hnd Hc'.
  destruct (exists_last (l := Head k :: map Slot l1)) as (A & a & HA);
    [discriminate|].
  set (ZZ := map Slot l2).
  assert (HZ : exists z Z, ZZ ++ [Head k] = z :: Z).
  { destruct ZZ; simpl; eauto. }
  destruct HZ as (z & Z & HZ).
  assert (HF : Head k :: map Slot (l1 ++ j :: l2) ++ [Head k] =
               A ++ a :: Slot j :: z :: Z).
  { rewrite map_app. cbn [map]. fold ZZ.
    change (Head k :: (map Slot l1 ++ Slot j :: ZZ) ++ [Head k])
      with ((Head k :: map Slot l1 ++ Slot j :: ZZ) ++ [Head k]).
    rewrite app_comm_cons, HA, <- !app_assoc. cbn [app].
    now rewrite HZ. }
  assert (HN : List.NoDup (A ++ a :: Slot j :: ZZ)).
  { pose proof (nodup_nodes k _ Hnd) as H. rewrite map_app in H.
    cbn [map] in H. fold ZZ in H. rewrite app_comm_cons, HA in H.
    now rewrite <- app_assoc in H. }
  assert (HT : List.NoDup (tl (A ++ [a]) ++ Slot j :: z :: Z)).
  { pose proof (nodup_tail k _ Hnd) as H. rewrite map_app in H.
    cbn [map] in H. fold ZZ in H. rewrite <- HA. cbn [tl].
    rewrite <- app_assoc in H. cbn [app] in H. now rewrite HZ in H. }
  assert (HZZ : removelast (z :: Z) = ZZ).
  { rewrite <- HZ. apply removelast_last. }
  rewrite HF in Hc.
  assert (Hl : link c a (Slot j) /\ link c (Slot j) z).
  { apply chain_app in Hc. destruct Hc as [_ Hc].
    rewrite !chain_cons in Hc. tauto. }
  destruct Hl as [[_ Hpa] [Hnz _]].
  destruct (Hc' a z Hpa Hnz) as (H1 & H2 & H3 & H4).
  assert (HG : Head k :: map Slot (l1 ++ l2) ++ [Head k] = A ++ a :: z :: Z).
  { rewrite map_app. fold ZZ.
    change (Head k :: (map Slot l1 ++ ZZ) ++ [Head k])
      with ((Head k :: map Slot l1 ++ ZZ) ++ [Head k]).
    rewrite app_comm_cons, HA, <- !app_assoc. cbn [app]. now rewrite HZ. }
  rewrite HG.
  apply (chain_remove c c' a (Slot j) z A Z Hc H1 H2).
  - intros q Hq. apply H3.
    + apply (nodup_mid (A ++ [a]) ZZ).
      * now rewrite <- app_assoc.
      * apply in_or_app. left. apply in_or_app. auto.
    + apply (nodup_mid A (Slot j :: ZZ)); [assumption|].
      apply in_or_app. auto.
  - intros q Hq. apply H4.
    + apply (nodup_mid (tl (A ++ [a])) (z :: Z)); [assumption|].
      apply in_or_app. auto.
    + apply (nodup_mid (tl (A ++ [a]) ++ [Slot j]) Z).
      * now rewrite <- app_assoc.
      * apply in_or_app. left. apply in_or_app. auto.
  - rewrite HZZ. intros q Hq. apply H3.
    + apply (nodup_mid (A ++ [a]) ZZ).
      * now rewrite <- app_assoc.
      * apply in_or_app. auto.
    + apply (nodup_mid A (Slot j :: ZZ)); [assumption|].
      apply in_or_app. right. simpl. auto.
  - intros q Hq. apply H4.
    + apply (nodup_mid (tl (A ++ [a])) (z :: Z)); [assumption|].
      apply in_or_app. right. simpl. auto.
    + apply (nodup_mid (tl (A ++ [a]) ++ [Slot j]) Z).
      * now rewrite <- app_assoc.
      * apply in_or_app. auto.
Qed.

Lemma ring_insert c c' k l j :
  ring c k l -> List.NoDup l -> ~ In j l ->
  (forall z, nx c (Head k) = Some z ->
     nx c' (Head k) = Some (Slot j) /\ pv c' (Slot j) = Some (Head k) /\
     nx c' (Slot j) = Some z /\ pv c' z = Some (Slot j) /\
     (forall q, q <> Slot j -> q <> Head k -> nx c' q = nx c q) /\
     (forall q, q <> Slot j -> q <> z -> pv c' q = pv c q)) ->
  ring c' k (j :: l).
Proof.
  unfold ring. intros Hc Hnd Hj Hc'.
  assert (HZ : exists z Z, map Slot l ++ [Head k] = z :: Z).
  { destruct (map Slot l); simpl; eauto. }
  destruct HZ as (z & Z & HZ).
  cbn [map]. change (Head k :: (Slot j :: map Slot l) ++ [Head k])
    with (Head k :: Slot j :: (map Slot l ++ [Head k])).
  rewrite HZ in *.
  assert (Hnz : nx c (Head k) = Some z) by (destruct Hc as [[H _] _]; exact H).
  destruct (Hc' z Hnz) as (H1 & H2 & H3 & H4 & H5 & H6).
  assert (HZZ : removelast (z :: Z) = map Slot l).
  { rewrite <- HZ. apply removelast_last. }
  pose proof (nodup_tail k _ Hnd) as HT. rewrite HZ in HT.
  apply (chain_insert c c' (Head k) (Slot j) z Z Hc H1 H2 H3 H4).
  - rewrite HZZ. intros q Hq. apply H5.
    + intros ->. now apply in_map_slot in Hq.
    + intros ->. now apply head_not_slot in Hq.
  - intros q Hq. apply H6.
    + intros ->. assert (Hin : In (Slot j) (map Slot l ++ [Head k]))
        by (rewrite HZ; simpl; auto).
      apply in_app_or in Hin. destruct Hin as [Hin|[[=]|[]]].
      now apply in_map_slot in Hin.
    + apply (nodup_mid [] Z); [exact HT|assumption].
Qed.

(** ** bget without assumptions on the lists *)

Lemma scan_found fuel c hd d bn : forall s b,
  scan fuel c hd d bn s = Found b ->
  exists x, load c b = Some x /\ dev x = d /\ blockno x = bn.
Proof.
  induction fuel as [|fuel IH]; intros s b; simpl; [discriminate|].
  destruct (ptr_eqb s hd); [discriminate|].
  destruct (load c s) as [x|] eqn:Hx; [|discriminate].
  destruct (Z.eqb_spec (dev x) d), (Z.eqb_spec (blockno x) bn); simpl;
    try apply IH.
  intros [= <-]. eauto.
Qed.

(** An answer of the walk does not depend on the bound. *)
Lemma scan_more c hd d bn extra : forall fuel s,
  scan fuel c hd d bn s <> ScanLoop ->
  scan (fuel + extra) c hd d bn s = scan fuel c hd d bn s.
Proof.
  induction fuel as [|fuel IH]; intros s; simpl; [congruence|].
  destruct (ptr_eqb s hd); [reflexivity|].
  destruct (load c s) as [x|]; [|reflexivity].
  destruct ((dev x =? d) && (blockno x =? bn)); [reflexivity|apply IH].
Qed.

Lemma scan_first fuel c hd d bn s :
  scan fuel c hd d bn s = NotFound -> s = hd \/ is_Some (load c s).
Proof.
  destruct fuel as [|fuel]; simpl; [discriminate|].
  destruct (ptr_eqb_spec s hd); [auto|].
  destruct (load c s); [eauto|discriminate].
Qed.

Lemma lookup_found c d bn b :
  lookup c d bn = Found b -> bound c b d bn.
Proof.
  unfold lookup, bound. destruct (load c _); [|discriminate].
  apply scan_found.
Qed.

Lemma lookup_miss c d bn :
  lookup c d bn = NotFound ->
  exists h, load c (Head (bucket_key bn)) = Some h /\
            is_Some (load c (next h)).
Proof.
  unfold lookup. destruct (load c (Head (bucket_key bn))) as [h|] eqn:Hh;
    [|discriminate].
  intros Hs. exists h. split; [reflexivity|].
  destruct (scan_first _ _ _ _ _ _ Hs) as [->|]; [|assumption].
  rewrite Hh. eauto.
Qed.

Lemma strip_fields x y :
  strip x = strip y ->
  valid x = valid y /\ dev x = dev y /\ blockno x = blockno y /\
  lock x = lock y /\ refcnt x = refcnt y /\ data x = data y /\
  ticks x = ticks y.
Proof. destruct x, y. unfold strip. simpl. intros [=]. subst. tauto. Qed.

Lemma assign_links c p f :
  (forall y, strip (f y) = strip y) -> is_Some (load c p) ->
  exists c', assign c p f = Some c' /\ (forall q, dat c' q = dat c q) /\
             same_size c c'.
Proof.
  intros Hf [x Hx].
  destruct (assign_load c p f x Hx) as (c' & E & L & S).
  exists c'. split; [assumption|]. split; [|assumption].
  intros q. unfold dat. rewrite L.
  destruct (ptr_eqb_spec q p) as [->|]; [|reflexivity].
  rewrite Hx. simpl. now rewrite Hf.
Qed.

Lemma dat_is_Some c q : is_Some (dat c q) <-> is_Some (load c q).
Proof.
  unfold dat. destruct (load c q); simpl; split; intros [? ?];
    eauto; discriminate.
Qed.

(** The recycle path hands out the slot freshly bound to the key, whatever
    the state of the lists. *)
Lemma recycle_data me c d bn j x h :
  let b := Slot j in
  load c b = Some x -> load c (Head (bucket_key bn)) = Some h ->
  is_Some (load c (next h)) ->
  exists c' x',
    taken me x x' (recycle me c d bn b) b c' /\
    load c' b = Some x' /\
    dev x' = d /\ blockno x' = bn /\ valid x' = 0 /\ refcnt x' = 1 /\
    ticks x' = ticks x /\ data x' = data x /\
    same_size c c'.
Proof.
  intros b Hx Hh Hz. unfold recycle.
  set (hd := Head (bucket_key bn)) in *.
  assert (Hhb : hd <> b) by discriminate.
  destruct (assign_load c b (set_dev d) x Hx) as (c1 & -> & L1 & S1).
  assert (H1 : load c1 b = Some (set_dev d x))
    by (rewrite L1, ptr_eqb_refl; reflexivity).
  destruct (assign_load c1 b (set_blockno bn) _ H1) as (c2 & -> & L2 & S2).
  assert (H2 : load c2 b = Some (set_blockno bn (set_dev d x)))
    by (rewrite L2, ptr_eqb_refl; reflexivity).
  destruct (assign_load c2 b (set_valid 0) _ H2) as (c3 & -> & L3 & S3).
  assert (H3 : load c3 b = Some (set_valid 0 (set_blockno bn (set_dev d x))))
    by (rewrite L3, ptr_eqb_refl; reflexivity).
  destruct (assign_load c3 b (set_refcnt 1) _ H3) as (c4 & -> & L4 & S4).
  assert (H4 : load c4 b = Some (set_refcnt 1
             (set_valid 0 (set_blockno bn (set_dev d x)))))
    by (rewrite L4, ptr_eqb_refl; reflexivity).
  assert (O4 : forall q, q <> b -> load c4 q = load c q).
  { intros q Hq. rewrite L4, L3, L2, L1, !(ptr_eqb_ne _ _ Hq). reflexivity. }
  rewrite (O4 hd Hhb), Hh.
  destruct (assign_load c4 b (set_next (next h)) _ H4) as (c5 & -> & L5 & S5).
  assert (H5 : load c5 b = Some (set_next (next h) (set_refcnt 1
             (set_valid 0 (set_blockno bn (set_dev d x))))))
    by (rewrite L5, ptr_eqb_refl; reflexivity).
  destruct (assign_load c5 b (set_prev hd) _ H5) as (c6 & -> & L6 & S6).
  assert (H6 : load c6 b = Some (set_prev hd (set_next (next h) (set_refcnt 1
             (set_valid 0 (set_blockno bn (set_dev d x)))))))
    by (rewrite L6, ptr_eqb_refl; reflexivity).
  assert (O6 : forall q, q <> b -> load c6 q = load c q).
  { intros q Hq. rewrite L6, L5, !(ptr_eqb_ne _ _ Hq). now apply O4. }
  rewrite (O6 hd Hhb), Hh.
  assert (Hz6 : is_Some (load c6 (next h))).
  { destruct (ptr_eq_dec (next h) b) as [->|Hne]; [rewrite H6; eauto|].
    now rewrite O6. }
  destruct (assign_links c6 (next h) (set_prev b)) as (c7 & -> & D7 & S7);
    [destruct y; reflexivity|assumption|].
  assert (Hh7 : is_Some (load c7 hd)).
  { apply dat_is_Some. rewrite D7. apply dat_is_Some.
    rewrite O6, Hh by assumption. eauto. }
  destruct (assign_links c7 hd (set_next b)) as (c8 & -> & D8 & S8);
    [destruct y; reflexivity|assumption|].
  assert (Hd8 : dat c8 b = dat c6 b) by (now rewrite D8, D7).
  unfold dat in Hd8. rewrite H6 in Hd8.
  destruct (load c8 b) as [x8|] eqn:H8; [|discriminate].
  cbn [option_map] in Hd8.
  apply (f_equal (fun o => match o with Some v => v | None => buf_zero end))
    in Hd8.
  apply strip_fields in Hd8. cbn in Hd8.
  destruct Hd8 as (Hv & Hdev & Hbn & Hlk & Hrc & Hdt & Htk).
  destruct (acquiresleep_eval me c8 b _ H8) as (c' & Ha & Lo & S9).
  assert (Hsize : same_size c c').
  { repeat (eapply same_size_trans; [eassumption|]). apply same_size_refl. }
  unfold taken. rewrite Hlk in Ha.
  destruct (locked (lock x) =? 0); destruct Ha as [Ha Hb];
    eexists c', _;
    (split; [split; [exact Ha|]|split; [exact Hb|]]);
    cbn; try assumption; try reflexivity; repeat (split; try assumption).
Qed.

(** C1: when [bget] misses and some buffer of the pool has count zero, the
    buffer it recycles is a slot with count zero whose stamp is the least
    among the slots with count zero, and among those with that stamp the
    first of the pool: an earlier slot with count zero has a strictly
    larger stamp.  The scan starts with no candidate and the first slot with
    count zero becomes the candidate. *)
Theorem bget_recycles_lru me c d bn i0 x0 :
  lookup c d bn = NotFound ->
  pool c !! i0 = Some x0 -> refcnt x0 = 0 ->
  exists j xj c',
    pool c !! j = Some xj /\ refcnt xj = 0 /\
    (forall i x, pool c !! i = Some x -> refcnt x = 0 ->
       ticks xj <= ticks x /\ (ticks x = ticks xj -> (j <= i)%nat)) /\
    lru c = Ok (Slot j) /\
    (bget me c d bn = Ok (Slot j, c') \/ bget me c d bn = Sleep (Slot j, c')) /\
    (locked (lock xj) = 0 -> bget me c d bn = Ok (Slot j, c')) /\
    bound c' (Slot j) d bn /\
    exists f xf,
      pool c !! f = Some xf /\ refcnt xf = 0 /\
      (forall i x, (i < f)%nat -> pool c !! i = Some x -> refcnt x <> 0) /\
      lru_loop c f 0%nat Null = Ok Null /\
      lru_step c Null f = Ok (Slot f) /\
      (ticks xf = ticks xj -> j = f).
Proof.
  intros Hl Hx0 Hz0.
  destruct (lru_spec c) as (lb & Elru & [[-> Hnone]|(j & xj & -> & Hj & Hxj & Hzj & Hmin)]).
  - exfalso. apply (Hnone i0 x0); [now apply lookup_lt_Some in Hx0|assumption..].
  - destruct (lookup_miss c d bn Hl) as (h & Hh & Hz).
    destruct (recycle_data me c d bn j xj h Hxj Hh Hz)
      as (c' & x' & Ht & Hx' & Hd & Hb & _).
    exists j, xj, c'. split; [assumption|]. split; [assumption|].
    assert (Hmin' : forall i x, pool c !! i = Some x -> refcnt x = 0 ->
              ticks xj <= ticks x /\ (ticks x = ticks xj -> (j <= i)%nat)).
    { intros i x Hx Hzx. apply Hmin; [now apply lookup_lt_Some in Hx|assumption..]. }
    split; [exact Hmin'|]. split; [assumption|].
    assert (Eb : bget me c d bn = recycle me c d bn (Slot j)).
    { unfold bget. rewrite Hl, Elru. reflexivity. }
    rewrite Eb. unfold taken in Ht.
    split; [|split; [|split]].
    + destruct (locked (lock xj) =? 0); destruct Ht as [-> _]; auto.
    + intros Hk. rewrite Hk in Ht. apply Ht.
    + exists x'. auto.
    + destruct (first_zero c (S i0)) as [Hno|(f & xf & _ & Hf & Hzf & Hbefore)].
      * exfalso. apply (Hno i0 x0); [lia|assumption..].
      * destruct (lru_seed c f xf Hf Hzf Hbefore) as [Hs1 Hs2].
        exists f, xf. repeat split; try assumption.
        intros Ht'. destruct (Hmin' f xf Hf Hzf) as [_ Hjf].
        specialize (Hjf Ht').
        destruct (Nat.eq_dec j f) as [|Hne]; [assumption|].
        exfalso. apply (Hbefore j xj); [lia|assumption..].
Qed.

(** ** Consequences of the invariant *)

Lemma bucket_key_lt bn : (bucket_key bn < Z.to_nat NBUCKET)%nat.
Proof.
  unfold bucket_key, NBUCKET.
  pose proof (Z.mod_pos_bound bn 17). lia.
Qed.

Lemma inv_bucket c k :
  bcache_inv c -> (k < Z.to_nat NBUCKET)%nat ->
  exists l h,
    ring c k l /\ List.NoDup l /\ (forall i, In i l <-> inuse c k i) /\
    load c (Head k) = Some h /\
    nxpath c (next h) (map Slot l) (Head k) /\
    (length (map Slot l) < scan_fuel c)%nat.
Proof.
  intros Hi Hk. destruct (binv_rings c Hi k Hk) as (l & Hr & Hnd & Hm).
  destruct (chain_nxpath c (Head k) (map Slot l) (Head k) Hr) as (s & Hs & Hp).
  { intros q Hq ->. now apply head_not_slot in Hq. }
  unfold nx in Hs. destruct (load c (Head k)) as [h|] eqn:Hh; [|discriminate].
  injection Hs as <-.
  exists l, h. repeat split; try assumption; try apply Hm.
  rewrite length_map. unfold scan_fuel.
  assert (Hl : (length l <= length (seq 0 (length (pool c))))%nat).
  { apply List.NoDup_incl_length; [assumption|].
    intros i Hin. apply Hm in Hin. destruct Hin as (x & Hx & _).
    apply in_seq. apply lookup_lt_Some in Hx. lia. }
  rewrite length_seq in Hl. lia.
Qed.

Lemma inv_members c k l :
  bcache_inv c -> (k < Z.to_nat NBUCKET)%nat -> ring c k l -> List.NoDup l ->
  (forall i, In i l <-> inuse c k i) ->
  members c k = Some (map Slot l).
Proof.
  intros Hi Hk Hr Hnd Hm.
  destruct (inv_bucket c k Hi Hk) as (l' & h & Hr' & Hnd' & Hm' & Hh & Hp & Hf).
  unfold members. rewrite Hh.
  rewrite (walk_nxpath _ _ _ _ _ Hp Hf).
  (* both lists follow [next] from the head *)
  destruct (chain_nxpath c (Head k) (map Slot l) (Head k) Hr) as (s & Hs & Hp2).
  { intros q Hq ->. now apply head_not_slot in Hq. }
  unfold nx in Hs. rewrite Hh in Hs. injection Hs as <-.
  assert (Hl : (length l <= length (seq 0 (length (pool c))))%nat).
  { apply List.NoDup_incl_length; [assumption|].
    intros i Hin. apply Hm in Hin. destruct Hin as (x & Hx & _).
    apply in_seq. apply lookup_lt_Some in Hx. lia. }
  rewrite length_seq in Hl.
  assert (Hw : walk (scan_fuel c) c (Head k) (next h) = Some (map Slot l)).
  { apply walk_nxpath; [assumption|]. rewrite length_map. unfold scan_fuel. lia. }
  rewrite (walk_nxpath _ _ _ _ _ Hp Hf) in Hw. congruence.
Qed.

(** In a consistent cache a slot is linked into bucket [k] exactly when it
    is in use and hashes to [k]. *)
Lemma inv_linked c k i :
  bcache_inv c -> (k < Z.to_nat NBUCKET)%nat ->
  (linked_into c k (Slot i) <-> inuse c k i).
Proof.
  intros Hi Hk. destruct (binv_rings c Hi k Hk) as (l & Hr & Hnd & Hm).
  unfold linked_into, inuse. rewrite (inv_members c k l Hi Hk Hr Hnd Hm).
  rewrite <- Hm. split.
  - intros (l' & [= <-] & Hin). now apply in_map_slot.
  - intros Hin. exists (map Slot l). split; [reflexivity|now apply in_map_slot].
Qed.

Lemma inv_lookup c d bn :
  bcache_inv c ->
  exists l, (forall i, In i l <-> inuse c (bucket_key bn) i) /\
    lookup c d bn =
    match List.find (keyb c d bn) (map Slot l) with
    | Some b => Found b
    | None => NotFound
    end.
Proof.
  intros Hi.
  destruct (inv_bucket c _ Hi (bucket_key_lt bn))
    as (l & h & Hr & Hnd & Hm & Hh & Hp & Hf).
  exists l. split; [assumption|].
  unfold lookup. rewrite Hh. now apply scan_nxpath.
Qed.

Lemma find_keyb_none c d bn l :
  List.find (keyb c d bn) (map Slot l) = None <->
  forall i x, In i l -> pool c !! i = Some x -> ~ (dev x = d /\ blockno x = bn).
Proof.
  split.
  - intros Hf i x Hin Hx [Hd Hb].
    pose proof (find_none _ _ Hf (Slot i)) as Hn.
    rewrite in_map_slot in Hn. specialize (Hn Hin).
    unfold keyb in Hn. cbn [load] in Hn. rewrite Hx in Hn.
    rewrite Hd, Hb, !Z.eqb_refl in Hn. discriminate.
  - intros H. destruct (List.find _ _) as [b|] eqn:Hf; [|reflexivity].
    exfalso. apply find_some in Hf. destruct Hf as [Hin Hk].
    apply in_map_iff in Hin. destruct Hin as (i & <- & Hin).
    unfold keyb in Hk. cbn [load] in Hk.
    destruct (pool c !! i) as [x|] eqn:Hx; [|discriminate].
    apply andb_true_iff in Hk. destruct Hk as [Hd Hb].
    apply (H i x Hin Hx). split; now apply Z.eqb_eq.
Qed.

(** ** Preservation of the invariant *)

(** An update of one slot that leaves its links, its block number and the
    emptiness of its count alone. *)
Lemma inv_update c c' j x x' :
  bcache_inv c -> pool c !! j = Some x ->
  load c' (Slot j) = Some x' ->
  (forall q, q <> Slot j -> load c' q = load c q) ->
  same_size c c' ->
  next x' = next x -> prev x' = prev x -> blockno x' = blockno x ->
  (refcnt x' = 0 <-> refcnt x = 0) ->
  (refcnt x' = 0 -> locked (lock x') = 0) ->
  0 <= refcnt x' < 2 ^ 32 ->
  bcache_inv c'.
Proof.
  intros Hi Hx Hx' Ho [Sp Sb] Hn Hp Hb Hr Hl Hrange.
  assert (Hnx : forall q, nx c' q = nx c q /\ pv c' q = pv c q).
  { intros q. unfold nx, pv. destruct (ptr_eq_dec q (Slot j)) as [->|Hq].
    - rewrite Hx'. cbn [load]. rewrite Hx. simpl. now rewrite Hn, Hp.
    - now rewrite Ho. }
  assert (Hslot : forall i y', pool c' !! i = Some y' ->
            exists y, pool c !! i = Some y /\ blockno y' = blockno y /\
                      (refcnt y' = 0 <-> refcnt y = 0) /\
                      (refcnt y' = 0 -> locked (lock y') = 0) /\
                      0 <= refcnt y' < 2 ^ 32).
  { intros i y' Hy'. destruct (Nat.eq_dec i j) as [->|Hne].
    - cbn [load] in Hx'. rewrite Hx' in Hy'. injection Hy' as <-.
      exists x. tauto.
    - assert (Hq : Slot i <> Slot j) by congruence.
      specialize (Ho _ Hq). cbn [load] in Ho. rewrite Ho in Hy'.
      exists y'. split; [assumption|]. split; [reflexivity|].
      split; [tauto|]. split.
      + now apply (binv_lock c Hi i).
      + now apply (binv_range c Hi i). }
  assert (Hback : forall i y, pool c !! i = Some y ->
            exists y', pool c' !! i = Some y').
  { intros i y Hy. apply lookup_lt_Some in Hy. rewrite <- Sp in Hy.
    now apply lookup_lt_is_Some_2. }
  constructor.
  - rewrite Sb. apply Hi.
  - intros k Hk. destruct (binv_rings c Hi k Hk) as (l & Hring & Hnd & Hm).
    exists l. split; [|split; [assumption|]].
    + eapply ring_frame; [exact Hring|]. intros q _. apply Hnx.
    + intros i. rewrite Hm. split.
      * intros (y & Hy & Hy0 & Hyk). destruct (Hback i y Hy) as [y' Hy'].
        destruct (Hslot i y' Hy') as (y2 & Hy2 & Hb2 & Hr2 & _).
        rewrite Hy in Hy2. injection Hy2 as <-.
        exists y'. split; [assumption|]. split; [tauto|congruence].
      * intros (y' & Hy' & Hy0 & Hyk).
        destruct (Hslot i y' Hy') as (y & Hy & Hb2 & Hr2 & _).
        exists y. split; [assumption|]. split; [tauto|congruence].
  - intros i y' Hy' Hz. destruct (Hslot i y' Hy') as (y & _ & _ & _ & H & _).
    auto.
  - intros i y' Hy'. destruct (Hslot i y' Hy') as (y & _ & _ & _ & _ & H).
    exact H.
Qed.

Lemma wrap32_small z : 0 <= z < 2 ^ 32 -> wrap32 z = z.
Proof. intros H. unfold wrap32. now apply Z.mod_small. Qed.

Lemma bpin_eval c b x :
  load c b = Some x ->
  exists c', bpin c b = Ok c' /\
    load c' b = Some (set_refcnt (wrap32 (refcnt x + 1)) x) /\
    (forall q, q <> b -> load c' q = load c q) /\ same_size c c'.
Proof.
  intros Hx. unfold bpin.
  destruct (assign_load c b (fun x => set_refcnt (wrap32 (refcnt x + 1)) x) x Hx)
    as (c' & -> & L & S).
  exists c'. split; [reflexivity|]. split; [|split; [|assumption]].
  - rewrite L, ptr_eqb_refl. reflexivity.
  - intros q Hq. now rewrite L, (ptr_eqb_ne _ _ Hq).
Qed.

Lemma bunpin_eval c b x :
  load c b = Some x ->
  exists c', bunpin c b = Ok c' /\
    load c' b = Some (set_refcnt (wrap32 (refcnt x - 1)) x) /\
    (forall q, q <> b -> load c' q = load c q) /\ same_size c c'.
Proof.
  intros Hx. unfold bunpin.
  destruct (assign_load c b (fun x => set_refcnt (wrap32 (refcnt x - 1)) x) x Hx)
    as (c' & -> & L & S).
  exists c'. split; [reflexivity|]. split; [|split; [|assumption]].
  - rewrite L, ptr_eqb_refl. reflexivity.
  - intros q Hq. now rewrite L, (ptr_eqb_ne _ _ Hq).
Qed.

Lemma bpin_inv c i x c' :
  bcache_inv c -> pool c !! i = Some x -> 0 < refcnt x < 2 ^ 32 - 1 ->
  bpin c (Slot i) = Ok c' -> bcache_inv c'.
Proof.
  intros Hi Hx Hr Hp.
  destruct (bpin_eval c (Slot i) x Hx) as (c2 & E & Hl & Ho & S).
  rewrite Hp in E. injection E as <-.
  assert (Hw : wrap32 (refcnt x + 1) = refcnt x + 1) by (apply wrap32_small; lia).
  eapply (inv_update c c' i x); try eassumption; try reflexivity;
    cbn [refcnt set_refcnt]; rewrite Hw; lia.
Qed.

Lemma bunpin_inv c i x c' :
  bcache_inv c -> pool c !! i = Some x -> 1 < refcnt x ->
  bunpin c (Slot i) = Ok c' -> bcache_inv c'.
Proof.
  intros Hi Hx Hr Hp.
  destruct (bunpin_eval c (Slot i) x Hx) as (c2 & E & Hl & Ho & S).
  rewrite Hp in E. injection E as <-.
  pose proof (binv_range c Hi i x Hx) as Hrange.
  assert (Hw : wrap32 (refcnt x - 1) = refcnt x - 1) by (apply wrap32_small; lia).
  eapply (inv_update c c' i x); try eassumption; try reflexivity;
    cbn [refcnt set_refcnt]; rewrite Hw; lia.
Qed.

Lemma slot_dat c c' i y' :
  dat c' (Slot i) = dat c (Slot i) -> pool c' !! i = Some y' ->
  exists y, pool c !! i = Some y /\ strip y = strip y'.
Proof.
  unfold dat. cbn [load]. intros Hd Hy'. rewrite Hy' in Hd.
  destruct (pool c !! i) as [y|]; [|discriminate].
  exists y. split; [reflexivity|]. simpl in Hd. congruence.
Qed.

Lemma inuse_dat c c' k i :
  dat c' (Slot i) = dat c (Slot i) -> (inuse c' k i <-> inuse c k i).
Proof.
  intros Hd. unfold inuse. split.
  - intros (y' & Hy' & Hr & Hk).
    destruct (slot_dat c c' i y' Hd Hy') as (y & Hy & Hs).
    apply strip_fields in Hs. exists y. intuition congruence.
  - intros (y & Hy & Hr & Hk).
    destruct (slot_dat c' c i y (eq_sym Hd) Hy) as (y' & Hy' & Hs).
    apply strip_fields in Hs. exists y'. intuition congruence.
Qed.

Lemma inuse_key c k k' i : inuse c k i -> inuse c k' i -> k = k'.
Proof. intros (x & Hx & _ & <-) (x' & Hx' & _ & <-). congruence. Qed.

(** Rebuilding the invariant after slot [j] changed and the lists were
    relinked. *)
Lemma inv_rebuild c c' j x' :
  bcache_inv c -> same_size c c' ->
  load c' (Slot j) = Some x' ->
  (forall i, i <> j -> dat c' (Slot i) = dat c (Slot i)) ->
  (refcnt x' = 0 -> locked (lock x') = 0) ->
  0 <= refcnt x' < 2 ^ 32 ->
  (forall k, (k < Z.to_nat NBUCKET)%nat ->
     exists l, ring c' k l /\ List.NoDup l /\
       forall i, In i l <->
         (if Nat.eq_dec i j
          then refcnt x' <> 0 /\ bucket_key (blockno x') = k
          else inuse c k i)) ->
  bcache_inv c'.
Proof.
  intros Hi [Sp Sb] Hx' Hd Hl Hr Hrings. cbn [load] in Hx'. constructor.
  - rewrite Sb. apply Hi.
  - intros k Hk. destruct (Hrings k Hk) as (l & Hring & Hnd & Hm).
    exists l. split; [assumption|]. split; [assumption|].
    intros i. rewrite Hm. destruct (Nat.eq_dec i j) as [->|Hne].
    + split.
      * intros [? ?]. exists x'. auto.
      * intros (y & Hy & ? & ?). rewrite Hx' in Hy. injection Hy as <-. auto.
    + symmetry. apply (inuse_dat c c' k i). auto.
  - intros i y' Hy' Hz. destruct (Nat.eq_dec i j) as [->|Hne].
    + rewrite Hx' in Hy'. injection Hy' as <-. auto.
    + destruct (slot_dat c c' i y' (Hd i Hne) Hy') as (y & Hy & Hs).
      apply strip_fields in Hs. destruct Hs as (_ & _ & _ & Hlk & Hrc & _).
      rewrite <- Hlk. apply (binv_lock c Hi i y Hy). congruence.
  - intros i y' Hy'. destruct (Nat.eq_dec i j) as [->|Hne].
    + rewrite Hx' in Hy'. injection Hy' as <-. auto.
    + destruct (slot_dat c c' i y' (Hd i Hne) Hy') as (y & Hy & Hs).
      apply strip_fields in Hs. destruct Hs as (_ & _ & _ & Hlk & Hrc & _).
      rewrite <- Hrc. apply (binv_range c Hi i y Hy).
Qed.

Lemma ring_neighbours c k l1 j l2 :
  ring c k (l1 ++ j :: l2) -> List.NoDup (l1 ++ j :: l2) ->
  exists a z, link c a (Slot j) /\ link c (Slot j) z /\
    a <> Slot j /\ z <> Slot j /\
    In a (Head k :: map Slot l1) /\ In z (map Slot l2 ++ [Head k]).
Proof.
  unfold ring. intros Hc Hnd.
  destruct (exists_last (l := Head k :: map Slot l1)) as (A & a & HA);
    [discriminate|].
  assert (HZ : exists z Z, map Slot l2 ++ [Head k] = z :: Z).
  { destruct (map Slot l2); simpl; eauto. }
  destruct HZ as (z & Z & HZ).
  assert (HF : Head k :: map Slot (l1 ++ j :: l2) ++ [Head k] =
               A ++ a :: Slot j :: z :: Z).
  { rewrite map_app. cbn [map].
    change (Head k :: (map Slot l1 ++ Slot j :: map Slot l2) ++ [Head k])
      with ((Head k :: map Slot l1 ++ Slot j :: map Slot l2) ++ [Head k]).
    rewrite app_comm_cons, HA, <- !app_assoc. cbn [app].
    now rewrite HZ. }
  rewrite HF in Hc. apply chain_app in Hc. destruct Hc as [_ Hc].
  rewrite !chain_cons in Hc. destruct Hc as (Hl1 & Hl2 & _).
  assert (Ha : In a (Head k :: map Slot l1))
    by (rewrite HA; apply in_or_app; simpl; auto).
  assert (Hz : In z (map Slot l2 ++ [Head k])) by (rewrite HZ; simpl; auto).
  assert (Hj1 : ~ In j l1 /\ ~ In j l2).
  { apply List.NoDup_remove_2 in Hnd. split; intros H; apply Hnd;
      apply in_or_app; auto. }
  exists a, z. repeat split; try assumption; try apply Hl1; try apply Hl2.
  - intros ->. destruct Ha as [[=]|Ha]. apply in_map_slot in Ha. tauto.
  - intros ->. apply in_app_or in Hz. destruct Hz as [Hz|[[=]|[]]].
    apply in_map_slot in Hz. tauto.
Qed.

Lemma holding_inuse c i x me :
  bcache_inv c -> pool c !! i = Some x ->
  holdingsleep (lock x) me = true -> 1 <= refcnt x < 2 ^ 32.
Proof.
  intros Hi Hx Hh. pose proof (binv_range c Hi i x Hx) as Hr.
  assert (refcnt x <> 0); [|lia].
  intros Hz. pose proof (binv_lock c Hi i x Hx Hz) as Hl.
  unfold holdingsleep in Hh. rewrite Hl in Hh. discriminate.
Qed.

(** ** brelse on a consistent cache *)

Lemma brelse_inv_spec t me c j x :
  bcache_inv c -> pool c !! j = Some x ->
  holdingsleep (lock x) me = true ->
  exists c' x',
    brelse t me c (Slot j) = Ok c' /\ bcache_inv c' /\
    pool c' !! j = Some x' /\
    strip x' = strip (set_ticks (if refcnt x =? 1 then t else ticks x)
                 (set_refcnt (refcnt x - 1) (set_lock (mkSleeplock 0 0) x))) /\
    (forall i, i <> j -> dat c' (Slot i) = dat c (Slot i)) /\
    (refcnt x <> 1 ->
       next x' = next x /\ prev x' = prev x /\
       forall q, nx c' q = nx c q /\ pv c' q = pv c q) /\
    (refcnt x = 1 -> next x' = Null /\ prev x' = Null).
Proof.
  intros Hi Hx Hh.
  pose proof (holding_inuse c j x me Hi Hx Hh) as Hr.
  assert (Hw : wrap32 (refcnt x - 1) = refcnt x - 1) by (apply wrap32_small; lia).
  destruct (Z.eq_dec (refcnt x) 1) as [H1|H1].
  - (* the last reference *)
    set (k := bucket_key (blockno x)).
    assert (Hk : (k < Z.to_nat NBUCKET)%nat) by apply bucket_key_lt.
    destruct (binv_rings c Hi k Hk) as (l & Hring & Hnd & Hm).
    change (forall i, In i l <-> inuse c k i) in Hm.
    assert (Hin : In j l).
    { apply Hm. exists x. split; [assumption|]. split; [lia|reflexivity]. }
    apply in_split in Hin. destruct Hin as (l1 & l2 & ->).
    destruct (ring_neighbours c k l1 j l2 Hring Hnd)
      as (a & z & [Hna Hpa] & [Hnz Hpz] & Haj & Hzj & Ha & Hz).
    assert (Hprev : prev x = a).
    { unfold pv in Hpa. cbn [load] in Hpa. rewrite Hx in Hpa.
      simpl in Hpa. congruence. }
    assert (Hnext : next x = z).
    { unfold nx in Hnz. cbn [load] in Hnz. rewrite Hx in Hnz.
      simpl in Hnz. congruence. }
    assert (Hla : exists ya, load c a = Some ya).
    { unfold nx in Hna. destruct (load c a); [eauto|discriminate]. }
    assert (Hlz : exists yz, load c z = Some yz).
    { unfold pv in Hpz. destruct (load c z); [eauto|discriminate]. }
    destruct Hla as [ya Hla], Hlz as [yz Hlz].
    destruct (brelse_zero t me c (Slot j) x ya yz)
      as (c' & E & Hb & Hq & Hs); try assumption; try congruence.
    { rewrite Hw. lia. }
    rewrite Hprev, Hnext in Hq.
    exists c', (set_ticks t (set_next Null (set_prev Null
                 (set_refcnt 0 (set_lock (mkSleeplock 0 0) x))))).
    assert (Hd : forall i, i <> j -> dat c' (Slot i) = dat c (Slot i)).
    { intros i Hne. apply Hq. congruence. }
    split; [assumption|]. split; [|split; [exact Hb|split; [|split; [exact Hd|]]]].
    + eapply (inv_rebuild c c' j); try eassumption; cbn; try lia; try reflexivity.
      intros k' Hk'. destruct (Nat.eq_dec k' k) as [->|Hkk].
      * exists (l1 ++ l2). split; [|split].
        -- apply (ring_remove c c' k l1 j l2 Hring Hnd).
           intros a' z' Ha' Hz'. rewrite Hpa in Ha'. rewrite Hnz in Hz'.
           injection Ha' as <-. injection Hz' as <-.
           split; [|split; [|split]].
           ++ destruct (Hq a Haj) as (-> & _). now rewrite ptr_eqb_refl.
           ++ destruct (Hq z Hzj) as (_ & -> & _). now rewrite ptr_eqb_refl.
           ++ intros q Hqj Hqa. destruct (Hq q Hqj) as (-> & _).
              now rewrite (ptr_eqb_ne _ _ Hqa).
           ++ intros q Hqj Hqz. destruct (Hq q Hqj) as (_ & -> & _).
              now rewrite (ptr_eqb_ne _ _ Hqz).
        -- apply List.NoDup_remove_1 in Hnd. exact Hnd.
        -- intros i. destruct (Nat.eq_dec i j) as [->|Hne].
           ++ split; [|intros [? _]; congruence].
              intros Hin. apply List.NoDup_remove_2 in Hnd. contradiction.
           ++ rewrite <- Hm. rewrite !in_app_iff. simpl. intuition congruence.
      * destruct (binv_rings c Hi k' Hk') as (l' & Hring' & Hnd' & Hm').
        change (forall i, In i l' <-> inuse c k' i) in Hm'.
        assert (Hdisj : forall i, In i (l1 ++ j :: l2) -> ~ In i l').
        { intros i Hin Hin'. apply Hm in Hin. apply Hm' in Hin'.
          apply Hkk. eapply inuse_key; eassumption. }
        exists l'. split; [|split; [assumption|]].
        -- eapply ring_frame; [exact Hring'|]. intros q Hin.
           assert (Hqj : q <> Slot j).
           { intros ->. destruct Hin as [[=]|Hin]. apply in_map_slot in Hin.
             apply (Hdisj j); [apply in_or_app; simpl; auto|assumption]. }
           assert (Hqa : q <> a).
           { intros Heq. rewrite Heq in Hin.
             destruct Ha as [Ha|Ha], Hin as [Hin|Hin].
             - congruence.
             - rewrite <- Ha in Hin. now apply head_not_slot in Hin.
             - rewrite <- Hin in Ha. now apply head_not_slot in Ha.
             - apply in_map_iff in Ha. destruct Ha as (i & Hia & Hi1).
               rewrite <- Hia in Hin. apply in_map_slot in Hin.
               apply (Hdisj i); [apply in_or_app; auto|assumption]. }
           assert (Hqz : q <> z).
           { intros Heq. rewrite Heq in Hin. apply in_app_or in Hz.
             destruct Hz as [Hz|[Hz|[]]], Hin as [Hin|Hin].
             - rewrite <- Hin in Hz. now apply head_not_slot in Hz.
             - apply in_map_iff in Hz. destruct Hz as (i & Hiz & Hi2).
               rewrite <- Hiz in Hin. apply in_map_slot in Hin.
               apply (Hdisj i); [apply in_or_app; simpl; auto|assumption].
             - congruence.
             - rewrite <- Hz in Hin. now apply head_not_slot in Hin. }
           destruct (Hq q Hqj) as (-> & -> & _).
           now rewrite (ptr_eqb_ne _ _ Hqa), (ptr_eqb_ne _ _ Hqz).
        -- intros i. destruct (Nat.eq_dec i j) as [->|Hne]; [|apply Hm'].
           split; [|intros [? _]; congruence].
           intros Hin. exfalso. apply (Hdisj j); [apply in_or_app; simpl; auto|assumption].
    + rewrite H1. destruct x; reflexivity.
    + split; [intros; contradiction|]. intros _. split; reflexivity.
  - (* somebody else still refers to the buffer *)
    destruct (brelse_keep t me c (Slot j) x) as (c' & E & Hb & Ho & Hs);
      try assumption.
    { rewrite Hw. lia. }
    rewrite Hw in Hb.
    exists c', (set_refcnt (refcnt x - 1) (set_lock (mkSleeplock 0 0) x)).
    split; [assumption|]. split; [|split; [exact Hb|split; [|split; [|split]]]].
    + eapply (inv_update c c' j x); try eassumption; try reflexivity;
        cbn [refcnt set_refcnt set_lock]; lia.
    + destruct (Z.eqb_spec (refcnt x) 1); [contradiction|].
      destruct x; reflexivity.
    + intros i Hne. unfold dat. rewrite Ho by congruence. reflexivity.
    + intros _. split; [reflexivity|]. split; [reflexivity|].
      intros q. unfold nx, pv. destruct (ptr_eq_dec q (Slot j)) as [->|Hq].
      * rewrite Hb. cbn [load]. rewrite Hx. split; reflexivity.
      * rewrite Ho by assumption. split; reflexivity.
    + intros; contradiction.
Qed.

(** ** bget on a consistent cache *)

Lemma bget_hit_inv me c d bn b :
  bcache_inv c -> lookup c d bn = Found b ->
  exists j x c' x',
    b = Slot j /\ pool c !! j = Some x /\ refcnt x <> 0 /\
    dev x = d /\ blockno x = bn /\
    taken me x x' (bget me c d bn) b c' /\
    load c' b = Some x' /\
    x' = set_lock (lock x') (set_refcnt (wrap32 (refcnt x + 1)) x) /\
    (forall q, q <> b -> load c' q = load c q) /\
    (refcnt x < 2 ^ 32 - 1 -> bcache_inv c').
Proof.
  intros Hi Hl.
  destruct (inv_lookup c d bn Hi) as (l & Hm & El).
  rewrite Hl in El.
  destruct (List.find (keyb c d bn) (map Slot l)) as [b'|] eqn:Hf;
    [|discriminate].
  injection El as <-. apply find_some in Hf. destruct Hf as [Hin Hk].
  apply in_map_iff in Hin. destruct Hin as (j & <- & Hin).
  apply Hm in Hin. destruct Hin as (x & Hx & Hr & Hkey).
  unfold keyb in Hk. cbn [load] in Hk. rewrite Hx in Hk.
  apply andb_true_iff in Hk. destruct Hk as [Hd Hb].
  apply Z.eqb_eq in Hd, Hb.
  destruct (hit_eval me c (Slot j) x Hx) as (c' & x' & Ht & Hx' & Ex & Ho & Hs).
  exists j, x, c', x'.
  assert (Eb : bget me c d bn =
    (do c1 <- assign c (Slot j) (fun x => set_refcnt (wrap32 (refcnt x + 1)) x);
     acquiresleep me c1 (Slot j))).
  { unfold bget. rewrite Hl. reflexivity. }
  rewrite Eb. repeat (split; [assumption || reflexivity|]).
  intros Hmax. pose proof (binv_range c Hi j x Hx) as Hrange.
  assert (Hw : wrap32 (refcnt x + 1) = refcnt x + 1) by (apply wrap32_small; lia).
  eapply (inv_update c c' j x); try eassumption;
    rewrite Ex; cbn [next prev blockno refcnt set_lock set_refcnt];
    try reflexivity; rewrite Hw; lia.
Qed.

Lemma bget_miss_inv me c d bn :
  bcache_inv c -> lookup c d bn = NotFound ->
  (lru c = Ok Null /\
   (forall i x, pool c !! i = Some x -> refcnt x <> 0) /\
   bget me c d bn = Panic "bget: no buffers") \/
  (exists j xj c' x',
     lru c = Ok (Slot j) /\ pool c !! j = Some xj /\ refcnt xj = 0 /\
     bget me c d bn = Ok (Slot j, c') /\
     pool c' !! j = Some x' /\
     x' = set_lock (mkSleeplock 1 me)
            (set_prev (Head (bucket_key bn)) (set_next (next x')
              (set_refcnt 1 (set_valid 0 (set_blockno bn (set_dev d xj)))))) /\
     (forall i, i <> j -> dat c' (Slot i) = dat c (Slot i)) /\
     bcache_inv c').
Proof.
  intros Hi Hl.
  destruct (lru_spec c) as (lb & Elru & [[-> Hnone]|(j & xj & -> & Hj & Hxj & Hzj & Hmin)]).
  - left. split; [assumption|]. split.
    + intros i x Hx. apply (Hnone i x); [now apply lookup_lt_Some in Hx|assumption].
    + unfold bget. rewrite Hl, Elru. reflexivity.
  - right. set (k := bucket_key bn).
    assert (Hk : (k < Z.to_nat NBUCKET)%nat) by apply bucket_key_lt.
    destruct (inv_bucket c k Hi Hk) as (l & h & Hring & Hnd & Hm & Hh & Hp & _).
    assert (Hjl : ~ In j l).
    { intros Hin. apply Hm in Hin. destruct Hin as (y & Hy & Hr & _).
      congruence. }
    assert (Hz : next h <> Slot j /\ exists yz, load c (next h) = Some yz).
    { destruct l as [|i l']; simpl in Hp.
      - rewrite Hp. split; [discriminate|eauto].
      - destruct Hp as (-> & _ & y & Hy & _). split; [|eauto].
        intros [= ->]. apply Hjl. simpl. auto. }
    destruct Hz as [Hzj' [yz Hyz]].
    destruct (recycle_eval me c d bn (Slot j) xj h yz Hxj Hh Hyz)
      as (c' & x' & Ht & Hx' & Ex & Hq & Hs); [discriminate|assumption|].
    fold k in Ex, Hq.
    pose proof (binv_lock c Hi j xj Hxj Hzj) as Hfree.
    unfold taken in Ht. rewrite Hfree in Ht. cbn [Z.eqb] in Ht.
    destruct Ht as [Eb Hlk].
    assert (Ebget : bget me c d bn = Ok (Slot j, c')).
    { unfold bget. rewrite Hl, Elru. exact Eb. }
    assert (Hd : forall i, i <> j -> dat c' (Slot i) = dat c (Slot i)).
    { intros i Hne. apply Hq. congruence. }
    assert (Hnx' : next x' = next h) by (rewrite Ex; reflexivity).
    assert (Hpv' : prev x' = Head k) by (rewrite Ex; reflexivity).
    exists j, xj, c', x'.
    split; [exact Elru|]. split; [exact Hxj|]. split; [exact Hzj|].
    split; [exact Ebget|]. split; [exact Hx'|]. split.
    { rewrite Ex at 1. rewrite Hlk, Hnx'. reflexivity. }
    split; [exact Hd|].
    eapply (inv_rebuild c c' j x'); try eassumption.
    + rewrite Ex. cbn. lia.
    + rewrite Ex. cbn. lia.
    + intros k' Hk'. destruct (Nat.eq_dec k' k) as [->|Hkk].
      * exists (j :: l). split; [|split].
        -- apply (ring_insert c c' k l j Hring Hnd Hjl).
           intros z Hnz. unfold nx in Hnz. rewrite Hh in Hnz.
           injection Hnz as <-.
           assert (Hhj : Head k <> Slot j) by discriminate.
           split; [|split; [|split; [|split; [|split]]]].
           ++ destruct (Hq (Head k) Hhj) as (-> & _). now rewrite ptr_eqb_refl.
           ++ unfold pv. rewrite Hx'. simpl. now rewrite Hpv'.
           ++ unfold nx. rewrite Hx'. simpl. now rewrite Hnx'.
           ++ destruct (Hq (next h) Hzj') as (_ & -> & _). now rewrite ptr_eqb_refl.
           ++ intros q Hqj Hqh. destruct (Hq q Hqj) as (-> & _).
              now rewrite (ptr_eqb_ne _ _ Hqh).
           ++ intros q Hqj Hqz. destruct (Hq q Hqj) as (_ & -> & _).
              now rewrite (ptr_eqb_ne _ _ Hqz).
        -- constructor; assumption.
        -- intros i. destruct (Nat.eq_dec i j) as [->|Hne].
           ++ rewrite Ex. cbn. split; [intros _; split; [lia|reflexivity]|auto].
           ++ rewrite <- Hm. simpl. intuition congruence.
      * destruct (binv_rings c Hi k' Hk') as (l' & Hring' & Hnd' & Hm').
        change (forall i, In i l' <-> inuse c k' i) in Hm'.
        assert (Hjl' : ~ In j l').
        { intros Hin. apply Hm' in Hin. destruct Hin as (y & Hy & Hr & _).
          congruence. }
        exists l'. split; [|split; [assumption|]].
        -- eapply ring_frame; [exact Hring'|]. intros q Hin.
           assert (Hqj : q <> Slot j).
           { intros ->. destruct Hin as [[=]|Hin]. now apply in_map_slot in Hin. }
           assert (Hqh : q <> Head k).
           { intros ->. destruct Hin as [[= ->]|Hin]; [congruence|].
             now apply head_not_slot in Hin. }
           assert (Hqz : q <> next h).
           { intros ->. destruct l as [|i l0]; simpl in Hp.
             - rewrite Hp in Hin. destruct Hin as [[= ->]|Hin]; [congruence|].
               now apply head_not_slot in Hin.
             - destruct Hp as (Enh & _). rewrite Enh in Hin.
               destruct Hin as [[=]|Hin]. apply in_map_slot in Hin.
               apply Hkk. apply (inuse_key c k' k i).
               + now apply Hm'.
               + apply Hm. simpl. auto. }
           destruct (Hq q Hqj) as (-> & -> & _).
           now rewrite (ptr_eqb_ne _ _ Hqh), (ptr_eqb_ne _ _ Hqz).
        -- intros i. destruct (Nat.eq_dec i j) as [->|Hne]; [|apply Hm'].
           rewrite Ex. cbn. split; [contradiction|]. intros [_ Hkey].
           fold k in Hkey. congruence.
Qed.

(** ** The initial cache and the reachable caches *)

Lemma binit_pool nbuf i x :
  pool (binit (bcache_zero nbuf)) !! i = Some x -> x = buf_zero.
Proof.
  cbn [binit bcache_zero pool]. rewrite list_lookup_fmap.
  destruct (replicate nbuf buf_zero !! i) as [y|] eqn:Hy; [|discriminate].
  apply lookup_replicate in Hy. destruct Hy as [-> _].
  intros [= <-]. reflexivity.
Qed.

Lemma binit_head nbuf k :
  (k < Z.to_nat NBUCKET)%nat ->
  load (binit (bcache_zero nbuf)) (Head k) =
  Some (set_next (Head k) (set_prev (Head k) buf_zero)).
Proof.
  intros Hk. cbn [load binit bcache_zero bucket].
  rewrite list_lookup_imap.
  rewrite (lookup_replicate_2 (Z.to_nat NBUCKET) buf_zero k Hk). reflexivity.
Qed.

Lemma binit_inv nbuf : bcache_inv (binit (bcache_zero nbuf)).
Proof.
  constructor.
  - cbn [binit bcache_zero bucket]. now rewrite length_imap, length_replicate.
  - intros k Hk. exists []. split; [|split; [constructor|]].
    + unfold ring. cbn [map app chain]. split; [|exact I].
      unfold link, nx, pv. rewrite (binit_head nbuf k Hk). split; reflexivity.
    + intros i. split; [intros []|].
      intros (x & Hx & Hr & _). apply binit_pool in Hx. subst x. now apply Hr.
  - intros i x Hx _. apply binit_pool in Hx. subst x. reflexivity.
  - intros i x Hx. apply binit_pool in Hx. subst x. cbn. lia.
Qed.

Lemma brelse_ok_holding t me c b c' :
  brelse t me c b = Ok c' ->
  exists x, load c b = Some x /\ holdingsleep (lock x) me = true.
Proof.
  unfold brelse. destruct (load c b) as [x|]; [|discriminate].
  destruct (holdingsleep (lock x) me) eqn:E; cbn [negb]; [|discriminate].
  intros _. exists x. split; [reflexivity|exact E].
Qed.

Lemma bget_inv me c d bn b c' :
  bcache_inv c -> below_max c ->
  bget me c d bn = Ok (b, c') -> bcache_inv c'.
Proof.
  intros Hi Hmax Hb.
  destruct (lookup c d bn) as [b0| | |] eqn:Hl.
  - destruct (bget_hit_inv me c d bn b0 Hi Hl)
      as (j & x & c2 & x' & -> & Hx & _ & _ & _ & Ht & _ & _ & _ & Hinv).
    unfold taken in Ht. rewrite Hb in Ht.
    destruct (locked (lock x) =? 0); destruct Ht as [E _]; [|discriminate].
    injection E as _ <-. apply Hinv. now apply (Hmax j).
  - destruct (bget_miss_inv me c d bn Hi Hl)
      as [(_ & _ & E)|(j & xj & c2 & x' & _ & _ & _ & E & _ & _ & _ & Hinv)];
      rewrite Hb in E; [discriminate|].
    injection E as _ <-. exact Hinv.
  - unfold bget in Hb. rewrite Hl in Hb. discriminate.
  - unfold bget in Hb. rewrite Hl in Hb. discriminate.
Qed.

Lemma bstep_inv c c' : bstep c c' -> bcache_inv c -> bcache_inv c'.
Proof.
  intros Hs Hi. destruct Hs as [me c d bn b c' Hmax Hb|t me c i c' Hb|
                                c i x c' Hx Hr Hb|c i x c' Hx Hr Hb].
  - eapply bget_inv; eassumption.
  - destruct (brelse_ok_holding _ _ _ _ _ Hb) as (x & Hx & Hh).
    destruct (brelse_inv_spec t me c i x Hi Hx Hh) as (c2 & x' & E & Hinv & _).
    rewrite Hb in E. injection E as <-. exact Hinv.
  - eapply bpin_inv; eassumption.
  - eapply bunpin_inv; eassumption.
Qed.

Lemma breach_inv nbuf c : breach nbuf c -> bcache_inv c.
Proof.
  induction 1 as [|c c' _ IH Hs]; [apply binit_inv|].
  eapply bstep_inv; eassumption.
Qed.

(** ** Bucket membership *)

Lemma linked_intob_spec c k b :
  linked_intob c k b = true <-> linked_into c k b.
Proof.
  unfold linked_intob, linked_into. destruct (members c k) as [l|].
  - rewrite existsb_exists. split.
    + intros (q & Hin & Hq). destruct (ptr_eqb_spec b q); [|discriminate].
      subst. eauto.
    + intros (l' & [= <-] & Hin). exists b. split; [assumption|apply ptr_eqb_refl].
  - split; [discriminate|]. intros (l' & [=] & _).
Qed.

Lemma buckets_of_spec c b k :
  In k (buckets_of c b) <-> (k < Z.to_nat NBUCKET)%nat /\ linked_into c k b.
Proof.
  unfold buckets_of. rewrite <- list_elem_of_In, list_elem_of_filter.
  rewrite list_elem_of_In, in_seq, linked_intob_spec. intuition lia.
Qed.

Lemma below_max_boot nbuf : below_max (binit (bcache_zero nbuf)).
Proof.
  intros i x Hx. apply binit_pool in Hx. subst x. vm_compute. reflexivity.
Qed.

Lemma ex_acquired_reach : breach 3 ex_acquired.
Proof.
  eapply breach_step; [apply breach_init|].
  apply (bstep_bget 7 _ 1 10 (Slot 0)); [apply below_max_boot|].
  vm_compute. reflexivity.
Qed.

Lemma ex_released_reach : breach 3 ex_released.
Proof.
  eapply breach_step; [apply ex_acquired_reach|].
  apply (bstep_brelse 100 7 _ 0%nat). vm_compute. reflexivity.
Qed.

(** C2 (amended): in every cache reached from [binit] by [bget], by [brelse]
    of the holder of the lock, by [bpin] of a buffer in use and by [bunpin]
    that leaves the count positive, a buffer whose count is not zero is
    linked into exactly one bucket list, that of its block number mod 17,
    and a buffer whose count is zero is linked into none. *)
Theorem bucket_membership nbuf c i x :
  breach nbuf c -> pool c !! i = Some x ->
  (refcnt x <> 0 ->
     forall k, (k < Z.to_nat NBUCKET)%nat ->
       (linked_into c k (Slot i) <-> k = bucket_key (blockno x))) /\
  (refcnt x = 0 ->
     forall k, (k < Z.to_nat NBUCKET)%nat -> ~ linked_into c k (Slot i)).
Proof.
  intros Hr Hx. pose proof (breach_inv nbuf c Hr) as Hi. split.
  - intros Hnz k Hk. rewrite (inv_linked c k i Hi Hk). unfold inuse. split.
    + intros (y & Hy & _ & <-). congruence.
    + intros ->. eauto.
  - intros Hz k Hk. rewrite (inv_linked c k i Hi Hk).
    intros (y & Hy & Hnz & _). congruence.
Qed.

Lemma bucket_membership_witness :
  linked_into ex_acquired 10 (Slot 0) /\ ~ linked_into ex_acquired 3 (Slot 0).
Proof.
  assert (Hx : pool ex_acquired !! 0%nat =
               Some (mkBuf 0 1 10 (mkSleeplock 1 7) 1 (Head 10) (Head 10) [] 0))
    by (vm_compute; reflexivity).
  destruct (bucket_membership 3 ex_acquired 0 _ ex_acquired_reach Hx) as [H _].
  assert (Hnz : refcnt (mkBuf 0 1 10 (mkSleeplock 1 7) 1 (Head 10) (Head 10) [] 0) <> 0)
    by (vm_compute; congruence).
  split.
  - apply (H Hnz 10%nat); [vm_compute; lia|vm_compute; reflexivity].
  - intros Hl. apply (H Hnz 3%nat) in Hl; [vm_compute in Hl; lia|vm_compute; lia].
Defined.

(** C2 as stated does not hold: after [bget] of (1, 10) and [brelse], slot 0
    is still bound to (1, 10) and is linked into no bucket list. *)
Lemma bucket_membership_counterexample :
  breach 3 ex_released /\
  bound ex_released (Slot 0) 1 10 /\
  buckets_of ex_released (Slot 0) = [] /\
  forall k, (k < Z.to_nat NBUCKET)%nat -> ~ linked_into ex_released k (Slot 0).
Proof.
  split; [apply ex_released_reach|]. split; [|split].
  - eexists. split; [vm_compute; reflexivity|]. split; reflexivity.
  - vm_compute. reflexivity.
  - intros k Hk Hl.
    assert (Hin : In k (buckets_of ex_released (Slot 0)))
      by (apply buckets_of_spec; auto).
    replace (buckets_of ex_released (Slot 0)) with (@nil nat) in Hin
      by (vm_compute; reflexivity).
    exact Hin.
Qed.

(** ** release *)

(** C7: [brelse] by the holder of the buffer's lock, on a consistent cache,
    returns; the count is one less than before.  When the new count is zero
    the buffer, which was linked into the list of its bucket, is linked into
    no list any more, its links are null and its stamp is the current value
    of [ticks]; when the new count is not zero its links, its stamp and all
    the lists are as before.  No other buffer enters or leaves a list. *)
Theorem brelse_spec t me c j x :
  bcache_inv c -> pool c !! j = Some x ->
  holdingsleep (lock x) me = true ->
  exists c' x',
    brelse t me c (Slot j) = Ok c' /\ pool c' !! j = Some x' /\
    refcnt x' = refcnt x - 1 /\
    linked_into c (bucket_key (blockno x)) (Slot j) /\
    (refcnt x' = 0 ->
       ticks x' = t /\ next x' = Null /\ prev x' = Null /\
       forall k, (k < Z.to_nat NBUCKET)%nat -> ~ linked_into c' k (Slot j)) /\
    (refcnt x' <> 0 ->
       ticks x' = ticks x /\ next x' = next x /\ prev x' = prev x /\
       (forall q, nx c' q = nx c q /\ pv c' q = pv c q) /\
       linked_into c' (bucket_key (blockno x)) (Slot j)) /\
    (forall i k, i <> j -> (k < Z.to_nat NBUCKET)%nat ->
       (linked_into c' k (Slot i) <-> linked_into c k (Slot i))) /\
    locked (lock x') = 0 /\ dev x' = dev x /\ blockno x' = blockno x /\
    valid x' = valid x /\ data x' = data x /\
    bcache_inv c'.
Proof.
  intros Hi Hx Hh.
  pose proof (holding_inuse c j x me Hi Hx Hh) as Hr.
  destruct (brelse_inv_spec t me c j x Hi Hx Hh)
    as (c' & x' & E & Hi' & Hx' & Hs & Hd & Hkeep & Hzero).
  apply strip_fields in Hs. cbn in Hs.
  destruct Hs as (Hv & Hdev & Hbn & Hlk & Hrc & Hdt & Htk).
  exists c', x'. split; [exact E|]. split; [exact Hx'|]. split; [exact Hrc|].
  assert (Hk : (bucket_key (blockno x) < Z.to_nat NBUCKET)%nat)
    by apply bucket_key_lt.
  split.
  { apply (inv_linked c _ j Hi Hk). exists x. split; [assumption|].
    split; [lia|reflexivity]. }
  split.
  { intros Hz. assert (H1 : refcnt x = 1) by lia.
    destruct (Hzero H1) as [Hn Hp].
    rewrite H1 in Htk. cbn in Htk.
    repeat split; try assumption.
    intros k Hk' Hl. apply (inv_linked c' k j Hi' Hk') in Hl.
    destruct Hl as (y & Hy & Hnz & _). congruence. }
  split.
  { intros Hnz. assert (H1 : refcnt x <> 1) by lia.
    destruct (Hkeep H1) as (Hn & Hp & Hq).
    destruct (Z.eqb_spec (refcnt x) 1); [contradiction|].
    repeat split; try assumption; try apply Hq.
    apply (inv_linked c' _ j Hi' Hk). exists x'. split; [assumption|].
    split; [assumption|congruence]. }
  split.
  { intros i k Hne Hk'.
    rewrite (inv_linked c' k i Hi' Hk'), (inv_linked c k i Hi Hk').
    apply inuse_dat. now apply Hd. }
  rewrite Hlk. split; [reflexivity|]. split; [exact Hdev|].
  split; [exact Hbn|]. split; [exact Hv|]. split; [exact Hdt|exact Hi'].
Qed.

Lemma brelse_spec_witness :
  exists c' x',
    brelse 100 7 ex_acquired (Slot 0) = Ok c' /\
    pool c' !! 0%nat = Some x' /\ refcnt x' = 0 /\ ticks x' = 100 /\
    ~ linked_into c' 10 (Slot 0).
Proof.
  assert (Hx : pool ex_acquired !! 0%nat =
               Some (mkBuf 0 1 10 (mkSleeplock 1 7) 1 (Head 10) (Head 10) [] 0))
    by (vm_compute; reflexivity).
  destruct (brelse_spec 100 7 ex_acquired 0 _
              (breach_inv 3 _ ex_acquired_reach) Hx)
    as (c' & x' & E & Hx' & Hrc & _ & Hz & _).
  - vm_compute. reflexivity.
  - exists c', x'. split; [exact E|]. split; [exact Hx'|].
    split; [exact Hrc|].
    destruct (Hz Hrc) as (Ht & _ & _ & Hl).
    split; [exact Ht|]. apply Hl. vm_compute. lia.
Defined.

(** ** acquire *)

(** C8: on a consistent cache [bget] halts exactly when no buffer of the
    pool carries the key and every buffer has a count that is not zero, and
    it halts by [panic].  When some buffer has count zero it does not halt:
    it hands out, or sleeps on the lock of, a buffer that carries the key,
    with the count one more than before on a hit and one after recycling;
    it sleeps only on a hit whose lock is taken. *)
Theorem bget_spec me c d bn :
  bcache_inv c ->
  (halts (bget me c d bn) <->
     (forall i x, pool c !! i = Some x ->
        refcnt x <> 0 /\ ~ (dev x = d /\ blockno x = bn))) /\
  (halts (bget me c d bn) -> bget me c d bn = Panic "bget: no buffers") /\
  ((exists i x, pool c !! i = Some x /\ refcnt x = 0) ->
   exists j c' x',
     (bget me c d bn = Ok (Slot j, c') \/ bget me c d bn = Sleep (Slot j, c')) /\
     pool c' !! j = Some x' /\ dev x' = d /\ blockno x' = bn /\
     ((exists x, lookup c d bn = Found (Slot j) /\ pool c !! j = Some x /\
                 dev x = d /\ blockno x = bn /\
                 refcnt x' = wrap32 (refcnt x + 1) /\
                 (refcnt x < 2 ^ 32 - 1 -> refcnt x' = refcnt x + 1) /\
                 (locked (lock x) = 0 -> bget me c d bn = Ok (Slot j, c')) /\
                 (locked (lock x) <> 0 -> bget me c d bn = Sleep (Slot j, c'))) \/
      (exists xj, lookup c d bn = NotFound /\ pool c !! j = Some xj /\
                  refcnt xj = 0 /\ refcnt x' = 1 /\ valid x' = 0 /\
                  bget me c d bn = Ok (Slot j, c')))).
Proof.
  intros Hi.
  destruct (inv_lookup c d bn Hi) as (l & Hm & El).
  destruct (lookup c d bn) as [b| | |] eqn:Hl.
  - (* hit *)
    destruct (bget_hit_inv me c d bn b Hi Hl)
      as (j & x & c' & x' & -> & Hx & Hnz & Hd & Hb & Ht & Hx' & Ex & _ & _).
    assert (Hres : (bget me c d bn = Ok (Slot j, c') /\ locked (lock x) = 0) \/
                   (bget me c d bn = Sleep (Slot j, c') /\ locked (lock x) <> 0)).
    { unfold taken in Ht. destruct (Z.eqb_spec (locked (lock x)) 0);
        destruct Ht as [E _]; auto. }
    split; [|split].
    + split.
      * intros Hh. destruct Hres as [[E _]|[E _]]; rewrite E in Hh; destruct Hh.
      * intros Hall. destruct (Hall j x Hx) as [_ Hk]. exfalso. auto.
    + intros Hh. destruct Hres as [[E _]|[E _]]; rewrite E in Hh; destruct Hh.
    + intros _. exists j, c', x'. split; [tauto|]. split; [exact Hx'|].
      split; [rewrite Ex; exact Hd|]. split; [rewrite Ex; exact Hb|].
      left. exists x. repeat split; try assumption.
      * rewrite Ex. reflexivity.
      * intros Hmax. rewrite Ex. cbn.
        pose proof (binv_range c Hi j x Hx). apply wrap32_small. lia.
      * intros Hf. destruct Hres as [[E _]|[_ Hne]]; [exact E|contradiction].
      * intros Hf. destruct Hres as [[_ He]|[E _]]; [contradiction|exact E].
  - (* miss *)
    destruct (List.find (keyb c d bn) (map Slot l)) eqn:Hf; [discriminate|].
    pose proof (proj1 (find_keyb_none c d bn l) Hf) as Hnokey.
    destruct (bget_miss_inv me c d bn Hi Hl)
      as [(_ & Hall & E)|(j & xj & c' & x' & _ & Hxj & Hzj & E & Hx' & Ex & _ & _)].
    + split; [|split].
      * split; [|intros _; rewrite E; exact I].
        intros _ i x Hx. split; [now apply (Hall i x)|].
        intros [Hd Hb]. apply (Hnokey i x); [|assumption|auto].
        apply Hm. exists x. split; [assumption|]. split; [now apply (Hall i x)|].
        now rewrite Hb.
      * intros _. exact E.
      * intros (i & x & Hx & Hz). exfalso. now apply (Hall i x).
    + split; [|split].
      * split; [rewrite E; intros []|].
        intros Hall. destruct (Hall j xj Hxj) as [Hnz _]. contradiction.
      * rewrite E. intros [].
      * intros _. exists j, c', x'. split; [auto|]. split; [exact Hx'|].
        split; [rewrite Ex; reflexivity|]. split; [rewrite Ex; reflexivity|].
        right. exists xj. repeat split; try assumption; rewrite Ex; reflexivity.
  - destruct (List.find _ _); discriminate.
  - destruct (List.find _ _); discriminate.
Qed.

Lemma bget_spec_witness :
  bget 8 ex_full 1 11 = Panic "bget: no buffers".
Proof.
  assert (Hi : bcache_inv ex_full).
  { apply (breach_inv 1). eapply breach_step; [apply breach_init|].
    apply (bstep_bget 7 _ 1 10 (Slot 0)); [apply below_max_boot|].
    vm_compute. reflexivity. }
  destruct (bget_spec 8 ex_full 1 11 Hi) as (Hh & Hp & _).
  apply Hp. apply Hh.
  intros i x. destruct i as [|i]; vm_compute; [|discriminate].
  intros [= <-]. vm_compute. split; [discriminate|].
  intros [_ H]. discriminate.
Defined.

Lemma ex_lru_zero :
  pool ex_lru !! 0%nat =
  Some (mkBuf 0 1 10 (mkSleeplock 0 0) 0 Null Null [] 100).
Proof. vm_compute. reflexivity. Qed.

Lemma bget_recycles_lru_witness :
  exists c', bget 8 ex_lru 1 13 = Ok (Slot 2, c') /\ bound c' (Slot 2) 1 13.
Proof.
  destruct (bget_recycles_lru 8 ex_lru 1 13 0 _
              ltac:(vm_compute; reflexivity) ex_lru_zero
              ltac:(vm_compute; reflexivity))
    as (j & xj & c' & Hxj & Hz & Hmin & Hlru & Hor & Hok & Hb & _).
  - assert (Hj : j = 2%nat) by (vm_compute in Hlru; congruence). subst j.
    exists c'. split; [|exact Hb]. apply Hok.
    vm_compute in Hxj. injection Hxj as <-. vm_compute. reflexivity.
Defined.

(** ** read *)

Lemma store_store c p y1 y2 : store (store c p y1) p y2 = store c p y2.
Proof.
  destruct p; simpl; [reflexivity| |]; f_equal; apply list_insert_insert_eq.
Qed.

(** Whatever the state of the lists, the buffer [bget] hands out or sleeps
    on carries the key, and a recycled one is invalid with count one. *)
Lemma bget_result me c d bn b c1 :
  bget me c d bn = Ok (b, c1) \/ bget me c d bn = Sleep (b, c1) ->
  exists x1, load c1 b = Some x1 /\ dev x1 = d /\ blockno x1 = bn /\
             (lookup c d bn = NotFound -> valid x1 = 0 /\ refcnt x1 = 1).
Proof.
  intros Hb. destruct (lookup c d bn) as [b0| | |] eqn:Hl.
  - destruct (lookup_found c d bn b0 Hl) as (x & Hx & Hd & Hbn).
    destruct (hit_eval me c b0 x Hx) as (c' & x' & Ht & Hx' & Ex & _).
    assert (Eb : bget me c d bn =
      (do c1 <- assign c b0 (fun x => set_refcnt (wrap32 (refcnt x + 1)) x);
       acquiresleep me c1 b0)).
    { unfold bget. rewrite Hl. reflexivity. }
    rewrite <- Eb in Ht. unfold taken in Ht.
    assert (Hbc : b = b0 /\ c1 = c').
    { destruct (locked (lock x) =? 0); destruct Ht as [E _]; rewrite E in Hb;
        destruct Hb as [[=]|[=]]; auto. }
    destruct Hbc as [-> ->]. exists x'. split; [assumption|].
    rewrite Ex. cbn. split; [assumption|]. split; [assumption|].
    intros [=].
  - destruct (lookup_miss c d bn Hl) as (h & Hh & Hz).
    destruct (lru_spec c) as (lb & Elru & [[-> _]|(j & xj & -> & _ & Hxj & _)]).
    + unfold bget in Hb. rewrite Hl, Elru in Hb. destruct Hb; discriminate.
    + destruct (recycle_data me c d bn j xj h Hxj Hh Hz)
        as (c' & x' & Ht & Hx' & Hd & Hbn & Hv & Hr & _).
      assert (Eb : bget me c d bn = recycle me c d bn (Slot j)).
      { unfold bget. rewrite Hl, Elru. reflexivity. }
      rewrite <- Eb in Ht. unfold taken in Ht.
      assert (Hbc : b = Slot j /\ c1 = c').
      { destruct (locked (lock xj) =? 0); destruct Ht as [E _]; rewrite E in Hb;
          destruct Hb as [[=]|[=]]; auto. }
      destruct Hbc as [-> ->]. exists x'. auto.
  - unfold bget in Hb. rewrite Hl in Hb. destruct Hb; discriminate.
  - unfold bget in Hb. rewrite Hl in Hb. destruct Hb; discriminate.
Qed.

(** C6: when [bget] returns buffer [b], that buffer carries the key.  If it
    is not valid, which is the case of every recycled buffer, [bread] has the
    disk fill it with one read transfer and marks it valid; if it is valid,
    [bread] returns the cache as [bget] left it and the disk sees no
    transfer.  [bread] sleeps or halts where [bget] does. *)
Theorem bread_spec me c dk d bn :
  (forall b c1, bget me c d bn = Ok (b, c1) ->
     exists x1,
       load c1 b = Some x1 /\ dev x1 = d /\ blockno x1 = bn /\
       (lookup c d bn = NotFound -> valid x1 = 0) /\
       (valid x1 = 0 ->
          bread me c dk d bn =
          Ok (b, (store c1 b (set_valid 1 (set_data (blocks dk d bn) x1)),
                  mkDisk (blocks dk) (xfers dk ++ [(false, d, bn)])))) /\
       (valid x1 <> 0 -> bread me c dk d bn = Ok (b, (c1, dk)))) /\
  (forall b c1, bget me c d bn = Sleep (b, c1) ->
     bread me c dk d bn = Sleep (b, (c1, dk))) /\
  (halts (bread me c dk d bn) <-> halts (bget me c d bn)).
Proof.
  split; [|split].
  - intros b c1 Hb.
    destruct (bget_result me c d bn b c1 (or_introl Hb))
      as (x1 & Hx1 & Hd & Hbn & Hmiss).
    exists x1. split; [assumption|]. split; [assumption|].
    split; [assumption|]. split; [intros H; now apply Hmiss|].
    unfold bread. rewrite Hb, Hx1. split.
    + intros Hv. rewrite Hv. cbn [Z.eqb].
      unfold virtio_disk_rw. rewrite Hx1, Hd, Hbn. cbn [fst snd].
      assert (Hs : is_Some (load c1 b)) by (rewrite Hx1; eauto).
      unfold assign. rewrite load_store, ptr_eqb_refl by assumption.
      rewrite store_store. reflexivity.
    + intros Hv. destruct (Z.eqb_spec (valid x1) 0); [contradiction|].
      reflexivity.
  - intros b c1 Hb. unfold bread. rewrite Hb. reflexivity.
  - unfold bread. destruct (bget me c d bn) as [[b c1]|[b c1]| | |] eqn:Hb;
      try reflexivity.
    destruct (bget_result me c d bn b c1 (or_introl Hb)) as (x1 & Hx1 & Hd & _).
    rewrite Hx1. destruct (valid x1 =? 0); [|reflexivity].
    unfold virtio_disk_rw. rewrite Hx1. cbn [fst snd].
    assert (Hs : is_Some (load c1 b)) by (rewrite Hx1; eauto).
    unfold assign. rewrite load_store, ptr_eqb_refl by assumption.
    reflexivity.
Qed.

Lemma bread_spec_witness :
  exists c', bread 7 ex_boot3 ex_disk 1 10 =
             Ok (Slot 0, (c', mkDisk (blocks ex_disk) [(false, 1, 10)])) /\
             option_map data (load c' (Slot 0)) = Some [1; 10] /\
             option_map valid (load c' (Slot 0)) = Some 1.
Proof.
  destruct (bread_spec 7 ex_boot3 ex_disk 1 10) as (H & _).
  destruct (H (Slot 0) ex_acquired) as (x1 & Hx1 & _ & _ & Hm & Hv & _).
  - vm_compute. reflexivity.
  - eexists. split; [apply Hv; apply Hm; vm_compute; reflexivity|].
    vm_compute in Hx1. injection Hx1 as <-.
    split; vm_compute; reflexivity.
Defined.

(** ** write, and the lock discipline *)

(** C9: [bwrite] and [brelse] halt exactly when the caller does not hold the
    buffer's lock ([brelse] on a consistent cache).  When the lock is held
    [bwrite] has the disk do one write transfer of the buffer's content and
    returns the cache as it was. *)
Theorem lock_discipline t me c dk j x :
  pool c !! j = Some x ->
  (halts (bwrite me c dk (Slot j)) <-> holdingsleep (lock x) me = false) /\
  (holdingsleep (lock x) me = false ->
     bwrite me c dk (Slot j) = Panic "bwrite" /\
     brelse t me c (Slot j) = Panic "brelse") /\
  (holdingsleep (lock x) me = true ->
     bwrite me c dk (Slot j) =
     Ok (c, mkDisk (fun d bn => if (d =? dev x) && (bn =? blockno x)
                                then data x else blocks dk d bn)
                   (xfers dk ++ [(true, dev x, blockno x)]))) /\
  (bcache_inv c ->
     (halts (brelse t me c (Slot j)) <-> holdingsleep (lock x) me = false)).
Proof.
  intros Hx.
  assert (Hw : bwrite me c dk (Slot j) =
    if holdingsleep (lock x) me
    then Ok (c, mkDisk (fun d bn => if (d =? dev x) && (bn =? blockno x)
                                    then data x else blocks dk d bn)
                       (xfers dk ++ [(true, dev x, blockno x)]))
    else Panic "bwrite").
  { unfold bwrite, virtio_disk_rw. cbn [load]. rewrite Hx.
    destruct (holdingsleep (lock x) me); reflexivity. }
  assert (Hr : holdingsleep (lock x) me = false ->
               brelse t me c (Slot j) = Panic "brelse").
  { intros Hh. unfold brelse. cbn [load]. rewrite Hx, Hh. reflexivity. }
  split; [|split; [|split]].
  - rewrite Hw. destruct (holdingsleep (lock x) me); simpl; intuition congruence.
  - intros Hh. split; [rewrite Hw, Hh; reflexivity|auto].
  - intros Hh. rewrite Hw, Hh. reflexivity.
  - intros Hi. destruct (holdingsleep (lock x) me) eqn:Hh.
    + destruct (brelse_inv_spec t me c j x Hi Hx Hh) as (c' & x' & E & _).
      rewrite E. simpl. intuition congruence.
    + rewrite (Hr eq_refl). simpl. tauto.
Qed.

Lemma lock_discipline_witness :
  bwrite 8 ex_acquired ex_disk (Slot 0) = Panic "bwrite" /\
  brelse 5 8 ex_acquired (Slot 0) = Panic "brelse" /\
  exists dk', bwrite 7 ex_acquired ex_disk (Slot 0) = Ok (ex_acquired, dk') /\
              xfers dk' = [(true, 1, 10)].
Proof.
  assert (Hx : pool ex_acquired !! 0%nat =
               Some (mkBuf 0 1 10 (mkSleeplock 1 7) 1 (Head 10) (Head 10) [] 0))
    by (vm_compute; reflexivity).
  destruct (lock_discipline 5 8 ex_acquired ex_disk 0 _ Hx) as (_ & Hno & _).
  destruct (lock_discipline 5 7 ex_acquired ex_disk 0 _ Hx) as (_ & _ & Hyes & _).
  destruct Hno as [H1 H2]; [vm_compute; reflexivity|].
  split; [exact H1|]. split; [exact H2|].
  eexists. split; [apply Hyes; vm_compute; reflexivity|].
  vm_compute. reflexivity.
Defined.

(** ** pin and unpin *)

Lemma walk_ext c c' hd : forall fuel s,
  (forall q, nx c' q = nx c q) -> walk fuel c' hd s = walk fuel c hd s.
Proof.
  induction fuel as [|fuel IH]; intros s H; simpl; [reflexivity|].
  destruct (ptr_eqb s hd); [reflexivity|].
  specialize (H s) as Hs. unfold nx in Hs.
  destruct (load c' s) as [x'|], (load c s) as [x|]; try discriminate;
    [|reflexivity].
  simpl in Hs. injection Hs as ->. now rewrite IH.
Qed.

Lemma members_ext c c' k :
  (forall q, nx c' q = nx c q) -> same_size c c' ->
  members c' k = members c k.
Proof.
  intros H [Sp Sb]. unfold members, scan_fuel. rewrite Sp, Sb.
  specialize (H (Head k)) as Hk. unfold nx in Hk.
  destruct (load c' (Head k)) as [h'|], (load c (Head k)) as [h|];
    try discriminate; [|reflexivity].
  simpl in Hk. injection Hk as ->. now apply walk_ext.
Qed.

(** C10: [bpin] and [bunpin] return, change the count of the buffer by +1
    and -1 (in [uint] arithmetic) and nothing else: its other fields, every
    other buffer and the members of every bucket list are as before, also
    when [bunpin] brings the count to zero. *)
Theorem pin_unpin_frame c b x :
  load c b = Some x ->
  (exists c',
     bpin c b = Ok c' /\
     load c' b = Some (set_refcnt (wrap32 (refcnt x + 1)) x) /\
     (forall q, q <> b -> load c' q = load c q) /\
     (forall k, members c' k = members c k)) /\
  (exists c',
     bunpin c b = Ok c' /\
     load c' b = Some (set_refcnt (wrap32 (refcnt x - 1)) x) /\
     (forall q, q <> b -> load c' q = load c q) /\
     (forall k, members c' k = members c k)) /\
  (forall v, let x' := set_refcnt v x in
     refcnt x' = v /\ dev x' = dev x /\ blockno x' = blockno x /\
     valid x' = valid x /\ ticks x' = ticks x /\ prev x' = prev x /\
     next x' = next x /\ lock x' = lock x /\ data x' = data x) /\
  (0 <= refcnt x < 2 ^ 32 - 1 -> wrap32 (refcnt x + 1) = refcnt x + 1) /\
  (0 < refcnt x < 2 ^ 32 -> wrap32 (refcnt x - 1) = refcnt x - 1).
Proof.
  intros Hx.
  assert (Hnx : forall c' v, load c' b = Some (set_refcnt v x) ->
            (forall q, q <> b -> load c' q = load c q) ->
            forall q, nx c' q = nx c q).
  { intros c' v Hb Ho q. unfold nx. destruct (ptr_eq_dec q b) as [->|Hq].
    - rewrite Hb, Hx. reflexivity.
    - now rewrite Ho. }
  split; [|split; [|split; [|split]]].
  - destruct (bpin_eval c b x Hx) as (c' & E & Hb & Ho & Hs).
    exists c'. repeat split; try assumption.
    intros k. apply members_ext; [eapply Hnx; eassumption|assumption].
  - destruct (bunpin_eval c b x Hx) as (c' & E & Hb & Ho & Hs).
    exists c'. repeat split; try assumption.
    intros k. apply members_ext; [eapply Hnx; eassumption|assumption].
  - intros v. cbn. repeat split.
  - intros H. apply wrap32_small. lia.
  - intros H. apply wrap32_small. lia.
Qed.

Lemma pin_unpin_frame_witness :
  exists c',
    bunpin ex_pinned (Slot 0) = Ok c' /\
    load c' (Slot 0) =
      Some (mkBuf 0 1 10 (mkSleeplock 0 0) 0 (Head 10) (Head 10) [] 0) /\
    members c' 10 = Some [Slot 0].
Proof.
  assert (Hx : load ex_pinned (Slot 0) =
               Some (mkBuf 0 1 10 (mkSleeplock 0 0) 1 (Head 10) (Head 10) [] 0))
    by (vm_compute; reflexivity).
  destruct (pin_unpin_frame ex_pinned (Slot 0) _ Hx)
    as (_ & (c' & E & Hb & _ & Hm) & _).
  exists c'. split; [exact E|]. split; [exact Hb|].
  rewrite Hm. vm_compute. reflexivity.
Defined.

(** [bunpin] down to zero leaves the buffer linked and unstamped; once it is
    recycled for another bucket the old list no longer closes, and a miss
    in the old bucket walks round for ever. *)
Example unpin_to_zero_then_recycle :
  members ex_unpinned 10 = Some [Slot 0] /\
  option_map refcnt (load ex_unpinned (Slot 0)) = Some 0 /\
  members ex_relinked 11 = Some [Slot 0] /\
  members ex_relinked 10 = None /\
  lookup ex_relinked 1 27 = ScanLoop /\
  bget 8 ex_relinked 1 27 = Diverge.
Proof. vm_compute. repeat split; reflexivity. Qed.

(* ================================================================== *)
(** * Further properties of the page allocator *)

(** ** kfreemem *)

Lemma kfreemem_loop_flist m l : forall r n fuel,
  flist m r l -> (length l < fuel)%nat ->
  0 <= n -> n + Z.of_nat (length l) < 2 ^ 64 ->
  kfreemem_loop fuel m r n = Ok (n + Z.of_nat (length l)).
Proof.
  induction l as [|p l IH]; intros r n fuel Hl Hf Hn Hb;
    (destruct fuel as [|fuel]; [simpl in Hf; lia|]);
    cbn [kfreemem_loop flist length] in *.
  - subst r. rewrite Z.eqb_refl. f_equal. lia.
  - destruct Hl as (-> & Hp & Hl).
    destruct (Z.eqb_spec p 0); [contradiction|].
    unfold wrap64. rewrite Z.mod_small by lia.
    rewrite (IH _ _ _ Hl) by lia. f_equal. lia.
Qed.

(** The loop leaves only at the end of a list. *)
Lemma kfreemem_loop_ok m : forall fuel r n k,
  kfreemem_loop fuel m r n = Ok k -> exists l, flist m r l.
Proof.
  induction fuel as [|fuel IH]; intros r n k; simpl; [discriminate|].
  destruct (Z.eqb_spec r 0) as [->|Hr].
  - intros _. exists []. reflexivity.
  - intros H. destruct (IH _ _ _ H) as [l Hl]. exists (r :: l). simpl. auto.
Qed.

Lemma kfreemem_loop_cases m : forall fuel r n,
  (exists k, kfreemem_loop fuel m r n = Ok k) \/
  kfreemem_loop fuel m r n = Diverge.
Proof.
  induction fuel as [|fuel IH]; intros r n; simpl; [auto|].
  destruct (r =? 0); [eauto|apply IH].
Qed.

(** Distinct pages between [end] and PHYSTOP are at most PHYSTOP / PGSIZE. *)
Lemma managed_pages_length kend PHYSTOP l :
  0 < kend ->
  List.NoDup l -> (forall pa, In pa l -> managed kend PHYSTOP pa) ->
  (length l <= Z.to_nat (PHYSTOP / PGSIZE))%nat.
Proof.
  intros Hk Hnd Hm.
  set (f := fun pa : Z => Z.to_nat (pa / PGSIZE)).
  assert (Hr : forall pa, In pa l -> 1 <= pa / PGSIZE <= PHYSTOP / PGSIZE).
  { intros pa Hin. destruct (Hm pa Hin) as (Ha & Hlo & Hhi).
    unfold PGSIZE in *. Z.div_mod_to_equations. lia. }
  rewrite <- (List.length_map f l),
          <- (List.length_seq (Z.to_nat (PHYSTOP / PGSIZE)) 1).
  apply List.NoDup_incl_length.
  - apply List.NoDup_map_NoDup_ForallPairs; [|assumption].
    intros a b Ha Hb He. unfold f in He.
    pose proof (Hr a Ha). pose proof (Hr b Hb).
    apply page_index_inj; [apply (Hm a Ha)|apply (Hm b Hb)|lia].
  - intros k Hin. apply List.in_map_iff in Hin.
    destruct Hin as (pa & <- & Hin). pose proof (Hr pa Hin).
    apply List.in_seq. unfold f. lia.
Qed.

Lemma kfreemem_inv kend PHYSTOP st l fuel :
  0 < kend -> PHYSTOP + PGSIZE <= 2 ^ 64 ->
  kmem_inv kend PHYSTOP st l -> (length l < fuel)%nat ->
  kfreemem fuel st = Ok (PGSIZE * Z.of_nat (length l)).
Proof.
  intros Hk Hmax Hi Hf.
  pose proof (managed_pages_length kend PHYSTOP l Hk
                (inv_nodup _ _ _ _ Hi) (inv_managed _ _ _ _ Hi)) as Hlen.
  assert (Hb : PGSIZE * Z.of_nat (length l) < 2 ^ 64).
  { destruct l as [|p l']; [simpl; lia|].
    destruct (inv_managed _ _ _ _ Hi p (or_introl eq_refl)) as (_ & ? & ?).
    assert (0 <= PHYSTOP / PGSIZE) by (apply Z.div_pos; unfold PGSIZE; lia).
    assert (PGSIZE * (PHYSTOP / PGSIZE) <= PHYSTOP)
      by (apply Z.mul_div_le; unfold PGSIZE; lia).
    unfold PGSIZE in *. nia. }
  unfold kfreemem.
  rewrite (kfreemem_loop_flist _ l) by
    (try apply Hi; try assumption; unfold PGSIZE in *; lia).
  unfold wrap64. rewrite Z.mod_small by (unfold PGSIZE in *; lia).
  f_equal. lia.
Qed.

(** X1: in a consistent allocator state [kfreemem] returns PGSIZE times the
    number of pages on the free list, whatever the bound on its loop beyond
    that number; the list holds at most PHYSTOP / PGSIZE pages, so neither
    the counter nor the product wraps. *)
Theorem kfreemem_counts kend PHYSTOP st l :
  0 < kend -> PHYSTOP + PGSIZE <= 2 ^ 64 ->
  kmem_inv kend PHYSTOP st l ->
  (length l <= Z.to_nat (PHYSTOP / PGSIZE))%nat /\
  forall fuel, (length l < fuel)%nat ->
    kfreemem fuel st = Ok (PGSIZE * Z.of_nat (length l)).
Proof.
  intros Hk Hmax Hi. split.
  - apply (managed_pages_length kend PHYSTOP); [assumption|apply Hi|apply Hi].
  - intros fuel Hf. now apply (kfreemem_inv kend PHYSTOP).
Qed.

Lemma ex_init_list : kmem_inv ex_end ex_PHYSTOP ex_init [16384; 12288; 8192].
Proof.
  destruct ex_init_inv as [l Hi].
  assert (Hl : flist (ram ex_init) (freelist ex_init) [16384; 12288; 8192]).
  { apply (free_pages_sound _ 4). vm_compute. reflexivity. }
  now rewrite (flist_inj _ _ _ _ Hl (inv_flist _ _ _ _ Hi)).
Qed.

Lemma kfreemem_counts_witness : kfreemem 4 ex_init = Ok (3 * 4096).
Proof.
  destruct (kfreemem_counts ex_end ex_PHYSTOP ex_init [16384; 12288; 8192])
    as [_ H].
  - vm_compute. reflexivity.
  - vm_compute. congruence.
  - exact ex_init_list.
  - apply (H 4%nat). simpl. lia.
Defined.

(** ** kinit *)

Section AllocatorSequences.

Variables kend PHYSTOP : Z.
Hypothesis kend_pos : 0 < kend.
Hypothesis PHYSTOP_max : PHYSTOP + PGSIZE <= 2 ^ 64.

(** One iteration of [freerange]. *)
Lemma init_step st l p :
  p mod PGSIZE = 0 -> kend <= p -> p + PGSIZE <= PHYSTOP ->
  init_inv kend PHYSTOP st l p ->
  exists st', kfree kend PHYSTOP st p = Ok st' /\
              init_inv kend PHYSTOP st' (p :: l) (p + PGSIZE).
Proof.
  intros Hal Hge Hle [Hl Hnd Hp Hz].
  assert (Hmp : managed kend PHYSTOP p) by (unfold managed, PGSIZE in *; lia).
  rewrite (kfree_valid _ _ _ _ Hmp). cbv zeta.
  assert (Hs : subref st p = st).
  { unfold subref, getref. rewrite Hz. reflexivity. }
  rewrite Hs. unfold getref at 1. rewrite Hz. cbn [Z.eqb].
  eexists. split; [reflexivity|].
  constructor; cbn [ram freelist ref].
  - apply (flist_push kend PHYSTOP kend_pos PHYSTOP_max); try assumption.
    + intros Hin. apply Hp in Hin. lia.
    + intros q Hq. now apply Hp.
  - constructor; [|assumption]. intros Hin. apply Hp in Hin. lia.
  - intros pa. simpl. rewrite Hp. split.
    + intros [<-|[? ?]]; (split; [assumption|unfold PGSIZE; lia]).
    + intros [Hm Hlt]. destruct (Z.eq_dec p pa); [auto|right].
      split; [assumption|]. destruct Hm as (Ha & _).
      destruct (page_apart p pa Hal Ha n); unfold PGSIZE in *; lia.
  - assumption.
Qed.

Lemma freerange_loop_list fuel : forall st l p,
  p mod PGSIZE = 0 -> kend <= p -> init_inv kend PHYSTOP st l p ->
  (Z.to_nat ((PHYSTOP - p) / PGSIZE) < fuel)%nat ->
  exists st', freerange_loop fuel kend PHYSTOP st p PHYSTOP = Ok st' /\
    flist (ram st') (freelist st')
          (rev (page_seq p (Z.to_nat ((PHYSTOP - p) / PGSIZE))) ++ l) /\
    forall i, ref st' i = 0.
Proof.
  induction fuel as [|fuel IH]; intros st l p Hal Hge Hi Hf; [lia|].
  cbn [freerange_loop].
  destruct (Z.leb_spec (p + PGSIZE) PHYSTOP) as [Hle|Hgt].
  - destruct (init_step st l p Hal Hge Hle Hi) as (st1 & -> & Hi1).
    assert (Hn : Z.to_nat ((PHYSTOP - p) / PGSIZE) =
                 S (Z.to_nat ((PHYSTOP - (p + PGSIZE)) / PGSIZE))).
    { unfold PGSIZE in *. Z.div_mod_to_equations. lia. }
    destruct (IH st1 (p :: l) (p + PGSIZE)) as (st' & Hr & Hl' & Hz').
    + unfold PGSIZE in *. Z.div_mod_to_equations. lia.
    + unfold PGSIZE. lia.
    + exact Hi1.
    + lia.
    + exists st'. split; [exact Hr|]. split; [|exact Hz'].
      rewrite Hn. cbn [page_seq rev]. now rewrite <- app_assoc.
  - exists st. split; [reflexivity|].
    assert (Hn : Z.to_nat ((PHYSTOP - p) / PGSIZE) = 0%nat).
    { unfold PGSIZE in *. Z.div_mod_to_equations. lia. }
    rewrite Hn. cbn [page_seq rev app]. split; apply Hi.
Qed.

Lemma length_page_seq n : forall p, length (page_seq p n) = n.
Proof. induction n as [|n IH]; intros p; simpl; [|rewrite IH]; reflexivity. Qed.

(** ** Calls in sequence *)

Lemma flist_same_head m m' l r r' : flist m r l -> flist m' r' l -> r = r'.
Proof. destruct l; simpl; [congruence|]. intros (-> & _) (-> & _). reflexivity. Qed.

Lemma kalloc_getref st q :
  freelist st <> 0 ->
  getref (snd (kalloc st)) q =
  if q / PGSIZE =? freelist st / PGSIZE
  then wrap_int (getref st (freelist st) + 1) else getref st q.
Proof.
  intros Hne. unfold kalloc. cbv zeta.
  destruct (Z.eqb_spec (freelist st) 0); [contradiction|]. cbn [snd].
  exact (getref_addref st (freelist st) q).
Qed.

(** [kfree] by the last owner pushes the page. *)
Lemma kfree_push st l pa :
  kmem_inv kend PHYSTOP st l -> managed kend PHYSTOP pa -> getref st pa = 1 ->
  exists st', kfree kend PHYSTOP st pa = Ok st' /\
    kmem_inv kend PHYSTOP st' (pa :: l) /\
    (forall q, getref st' q =
               if q / PGSIZE =? pa / PGSIZE then 0 else getref st q).
Proof.
  intros [Hl Hnd Hm Hf Hn] Hmp Hc.
  rewrite (kfree_valid _ _ _ _ Hmp). cbv zeta.
  destruct (subref_frame st pa) as [Hram Hfl].
  assert (Hg : forall q, getref (subref st pa) q =
     if q / PGSIZE =? pa / PGSIZE then 0 else getref st q).
  { intros q. rewrite getref_subref, Hc. reflexivity. }
  assert (Hnin : ~ In pa l) by (rewrite (Hf pa Hmp); lia).
  rewrite Hram, Hfl, Hg, Z.eqb_refl. cbn [Z.eqb].
  eexists. split; [reflexivity|]. split.
  - constructor; cbn [ram freelist ref].
    + apply (flist_push kend PHYSTOP kend_pos PHYSTOP_max); assumption.
    + constructor; assumption.
    + intros q [<-|Hq]; auto.
    + intros q Hq. change (getref _ q) with (getref (subref st pa) q).
      rewrite Hg. simpl.
      destruct (Z.eqb_spec (q / PGSIZE) (pa / PGSIZE)) as [He|He].
      * apply page_index_inj in He; [|apply Hq|apply Hmp]. subst q.
        split; auto.
      * rewrite <- (Hf q Hq). split; [|auto].
        intros [<-|?]; [congruence|assumption].
    + intros q. change (getref _ q) with (getref (subref st pa) q).
      rewrite Hg. destruct (_ =? _); [lia|apply Hn].
  - intros q. exact (Hg q).
Qed.

(** [kfree] by an owner that is not the last one only counts down. *)
Lemma kfree_shared st l pa :
  kmem_inv kend PHYSTOP st l -> managed kend PHYSTOP pa -> 2 <= getref st pa ->
  kfree kend PHYSTOP st pa = Ok (subref st pa) /\
  kmem_inv kend PHYSTOP (subref st pa) l /\
  getref (subref st pa) pa = getref st pa - 1.
Proof.
  intros Hi Hmp Hc.
  assert (Hg : getref (subref st pa) pa = getref st pa - 1).
  { rewrite getref_subref, Z.eqb_refl.
    destruct (Z.gtb_spec (getref st pa) 0); [reflexivity|lia]. }
  rewrite (kfree_valid _ _ _ _ Hmp). cbv zeta. rewrite Hg.
  destruct (Z.eqb_spec (getref st pa - 1) 0); [lia|].
  split; [reflexivity|]. split; [now apply subref_inv|reflexivity].
Qed.

Lemma kalloc_empty st :
  kmem_inv kend PHYSTOP st [] -> kalloc st = (0, st).
Proof.
  intros Hi. pose proof (inv_flist _ _ _ _ Hi) as Hl. simpl in Hl.
  unfold kalloc. rewrite Hl. reflexivity.
Qed.

Lemma kalloc_many_inv l : forall st,
  kmem_inv kend PHYSTOP st l ->
  fst (kalloc_many (length l) st) = l /\
  kmem_inv kend PHYSTOP (snd (kalloc_many (length l) st)) [] /\
  forall q, managed kend PHYSTOP q ->
    getref (snd (kalloc_many (length l) st)) q =
    if in_dec Z.eq_dec q l then 1 else getref st q.
Proof.
  induction l as [|p l IH]; intros st Hi; cbn [length kalloc_many fst snd].
  - split; [reflexivity|]. split; [exact Hi|]. intros q _. reflexivity.
  - destruct (kalloc_inv kend PHYSTOP st p l Hi)
      as (H1 & H2 & H3 & _).
    destruct (IH _ H2) as (I1 & I2 & I3).
    split; [now rewrite H1, I1|]. split; [exact I2|].
    intros q Hq. rewrite (I3 q Hq).
    pose proof (inv_nodup _ _ _ _ Hi) as Hnd.
    apply List.NoDup_cons_iff in Hnd. destruct Hnd as [Hnp _].
    assert (Hmp : managed kend PHYSTOP p) by (apply Hi; simpl; auto).
    assert (Hfl : freelist st = p).
    { pose proof (inv_flist _ _ _ _ Hi) as Hl. simpl in Hl. apply Hl. }
    assert (Hp0 : p <> 0) by (destruct Hmp as (_ & ? & _); lia).
    destruct (in_dec Z.eq_dec q l) as [Hin|Hnin];
      destruct (in_dec Z.eq_dec q (p :: l)) as [Hin'|Hnin']; try reflexivity.
    + exfalso. apply Hnin'. simpl. auto.
    + destruct Hin' as [<-|Hin']; [exact H3|contradiction].
    + rewrite kalloc_getref by (rewrite Hfl; exact Hp0). rewrite Hfl.
      destruct (Z.eqb_spec (q / PGSIZE) (p / PGSIZE)) as [He|He];
        [|reflexivity].
      apply page_index_inj in He; [|apply Hq|apply Hmp]. subst q.
      exfalso. apply Hnin'. simpl. auto.
Qed.

End AllocatorSequences.

Lemma init_inv_boot kend PHYSTOP m :
  0 < kend -> PHYSTOP + PGSIZE <= 2 ^ 64 -> kend <= PHYSTOP ->
  init_inv kend PHYSTOP (kboot m) [] (PGROUNDUP kend).
Proof.
  intros Hk Hmax Hle.
  destruct (PGROUNDUP_spec kend) as (Hal & Hlo & Hhi);
    [lia|unfold PGSIZE in *; lia|].
  constructor; cbn [ram freelist ref kboot].
  - reflexivity.
  - constructor.
  - intros pa. simpl. split; [tauto|]. intros [(Ha & Hge & _) Hlt].
    destruct (Z.eq_dec pa (PGROUNDUP kend)) as [->|Hne]; [lia|].
    destruct (page_apart _ _ Ha Hal Hne); unfold PGSIZE in *; lia.
  - reflexivity.
Qed.

Lemma kinit_list kend PHYSTOP m :
  0 < kend -> PHYSTOP + PGSIZE <= 2 ^ 64 ->
  PHYSTOP mod PGSIZE = 0 -> kend <= PHYSTOP ->
  exists st,
    kinit kend PHYSTOP (kboot m) = Ok st /\
    kmem_inv kend PHYSTOP st
      (rev (page_seq (PGROUNDUP kend) (npages kend PHYSTOP))) /\
    (forall pa, getref st pa = 0) /\
    (forall fuel, (npages kend PHYSTOP < fuel)%nat ->
       kfreemem fuel st = Ok (PHYSTOP - PGROUNDUP kend)).
Proof.
  intros Hk Hmax Hal Hle.
  destruct (kinit_inv kend PHYSTOP Hk Hmax Hal Hle m) as (st & l & Hr & Hi).
  destruct (PGROUNDUP_spec kend) as (Pal & Plo & Phi);
    [lia|unfold PGSIZE in *; lia|].
  destruct (freerange_loop_list kend PHYSTOP Hk Hmax
              (S (npages kend PHYSTOP)) (kboot m) [] (PGROUNDUP kend))
    as (st' & Hr' & Hl' & Hz').
  - exact Pal.
  - lia.
  - now apply init_inv_boot.
  - unfold npages. lia.
  - unfold kinit, freerange in Hr. cbv zeta in Hr. unfold npages in Hr'.
    rewrite Hr in Hr'. inversion Hr'; subst st'. clear Hr'.
    rewrite app_nil_r in Hl'. fold (npages kend PHYSTOP) in Hl'.
    rewrite (flist_inj _ _ _ _ (inv_flist _ _ _ _ Hi) Hl') in Hi.
    exists st. split; [|split; [exact Hi|split]].
    + unfold kinit, freerange. cbv zeta. exact Hr.
    + intros pa. apply Hz'.
    + intros fuel Hf.
      rewrite (kfreemem_inv kend PHYSTOP st _ fuel Hk Hmax Hi)
        by (now rewrite length_rev, length_page_seq).
      rewrite length_rev, length_page_seq. f_equal.
      unfold npages. rewrite Z2Nat.id.
      * unfold PGSIZE in *. Z.div_mod_to_equations. lia.
      * apply Z.div_pos; unfold PGSIZE in *; [|lia].
        Z.div_mod_to_equations. lia.
Qed.



(** X3: the page freed last is the page allocated next.  When the last
    owner of a page frees it, the page becomes the head of the free list,
    and the next [kalloc] returns that very page and leaves the free list
    and every reference count as they were before the [kfree]. *)
Theorem kfree_then_kalloc kend PHYSTOP st l pa :
  0 < kend -> PHYSTOP + PGSIZE <= 2 ^ 64 ->
  kmem_inv kend PHYSTOP st l ->
  managed kend PHYSTOP pa -> getref st pa = 1 ->
  exists st1,
    kfree kend PHYSTOP st pa = Ok st1 /\
    kmem_inv kend PHYSTOP st1 (pa :: l) /\
    getref st1 pa = 0 /\
    fst (kalloc st1) = pa /\
    kmem_inv kend PHYSTOP (snd (kalloc st1)) l /\
    freelist (snd (kalloc st1)) = freelist st /\
    (forall q, getref (snd (kalloc st1)) q = getref st q).
Proof.
  intros Hk Hmax Hi Hmp Hc.
  destruct (kfree_push kend PHYSTOP Hk Hmax st l pa Hi Hmp Hc)
    as (st1 & Hf & Hi1 & Hg1).
  destruct (kalloc_inv kend PHYSTOP st1 pa l Hi1) as (H1 & H2 & H3 & _).
  exists st1. split; [exact Hf|]. split; [exact Hi1|].
  split; [rewrite Hg1, Z.eqb_refl; reflexivity|].
  split; [exact H1|]. split; [exact H2|]. split.
  - exact (flist_same_head _ _ _ _ _ (inv_flist _ _ _ _ H2)
             (inv_flist _ _ _ _ Hi)).
  - intros q.
    assert (Hfl : freelist st1 = pa).
    { pose proof (inv_flist _ _ _ _ Hi1) as Hl. simpl in Hl. apply Hl. }
    rewrite kalloc_getref by (rewrite Hfl; destruct Hmp as (_ & ? & _); lia).
    rewrite Hfl, !Hg1, Z.eqb_refl.
    destruct (Z.eqb_spec (q / PGSIZE) (pa / PGSIZE)) as [He|He];
      [|reflexivity].
    unfold getref in *. rewrite He, Hc. reflexivity.
Qed.

Lemma kfree_then_kalloc_witness :
  exists st1,
    kfree ex_end ex_PHYSTOP ex_alloc 16384 = Ok st1 /\
    fst (kalloc st1) = 16384 /\
    freelist (snd (kalloc st1)) = 12288.
Proof.
  destruct (kfree_then_kalloc ex_end ex_PHYSTOP ex_alloc [12288; 8192] 16384)
    as (st1 & H1 & _ & _ & H2 & _ & H3 & _).
  - vm_compute. reflexivity.
  - vm_compute. congruence.
  - apply (kalloc_inv ex_end ex_PHYSTOP ex_init 16384 [12288; 8192]
             ex_init_list).
  - vm_compute. repeat split; congruence.
  - vm_compute. reflexivity.
  - exists st1. split; [exact H1|]. split; [exact H2|].
    rewrite H3. vm_compute. reflexivity.
Defined.

(** X4: allocating a page and freeing it at once brings back the free list
    and every reference count; only the content of the page has changed. *)
Theorem kalloc_then_kfree kend PHYSTOP st p l :
  0 < kend -> PHYSTOP + PGSIZE <= 2 ^ 64 ->
  kmem_inv kend PHYSTOP st (p :: l) ->
  exists st',
    kfree kend PHYSTOP (snd (kalloc st)) (fst (kalloc st)) = Ok st' /\
    kmem_inv kend PHYSTOP st' (p :: l) /\
    freelist st' = freelist st /\
    (forall q, getref st' q = getref st q) /\
    (forall a, a < p \/ p + PGSIZE <= a -> ram st' a = ram st a).
Proof.
  intros Hk Hmax Hi.
  destruct (kalloc_inv kend PHYSTOP st p l Hi) as (H1 & H2 & H3 & _).
  assert (Hmp : managed kend PHYSTOP p) by (apply Hi; simpl; auto).
  assert (Hfl : freelist st = p).
  { pose proof (inv_flist _ _ _ _ Hi) as Hl. simpl in Hl. apply Hl. }
  assert (Hp0 : p <> 0) by (destruct Hmp as (_ & ? & _); lia).
  assert (Hz : getref st p = 0) by (apply Hi; simpl; auto).
  rewrite H1.
  destruct (kfree_push kend PHYSTOP Hk Hmax _ l p H2 Hmp H3)
    as (st' & Hf & Hi' & Hg').
  exists st'. split; [exact Hf|]. split; [exact Hi'|]. split; [|split].
  - exact (flist_same_head _ _ _ _ _ (inv_flist _ _ _ _ Hi')
             (inv_flist _ _ _ _ Hi)).
  - intros q. rewrite Hg'.
    destruct (Z.eqb_spec (q / PGSIZE) (p / PGSIZE)) as [He|He].
    + unfold getref in *. rewrite He, Hz. reflexivity.
    + rewrite kalloc_getref by (rewrite Hfl; exact Hp0). rewrite Hfl.
      destruct (Z.eqb_spec (q / PGSIZE) (p / PGSIZE)); [contradiction|].
      reflexivity.
  - intros a Ha.
    rewrite (kfree_valid _ _ _ _ Hmp) in Hf. cbv zeta in Hf.
    destruct (subref_frame (snd (kalloc st)) p) as [Hram _].
    destruct (getref (subref (snd (kalloc st)) p) p =? 0);
      inversion Hf; subst st'; cbn [ram].
    + unfold set_run_next.
      rewrite store_le_out by (unfold PGSIZE in *; simpl; lia).
      rewrite memset_out by exact Ha. rewrite Hram.
      unfold kalloc. rewrite Hfl.
      destruct (Z.eqb_spec p 0); [contradiction|]. cbn [snd ram].
      now rewrite memset_out.
    + rewrite Hram. unfold kalloc. rewrite Hfl.
      destruct (Z.eqb_spec p 0); [contradiction|]. cbn [snd ram].
      now rewrite memset_out.
Qed.

Lemma kalloc_then_kfree_witness :
  exists st',
    kfree ex_end ex_PHYSTOP (snd (kalloc ex_init)) (fst (kalloc ex_init))
      = Ok st' /\
    freelist st' = 16384 /\ getref st' 16384 = 0.
Proof.
  destruct (kalloc_then_kfree ex_end ex_PHYSTOP ex_init 16384 [12288; 8192])
    as (st' & H1 & _ & H2 & H3 & _).
  - vm_compute. reflexivity.
  - vm_compute. congruence.
  - exact ex_init_list.
  - exists st'. split; [exact H1|]. split.
    + rewrite H2. vm_compute. reflexivity.
    + rewrite H3. vm_compute. reflexivity.
Defined.

(** X5: a page that is shared is freed by its last owner only.  After
    [kalloc] and one [addref] the count of the page is 2; the first [kfree]
    only counts down, memory and the free list stay as they are and the page
    stays allocated; the second [kfree] puts the page back at the head of
    the free list. *)
Theorem shared_page_freed_by_last_owner kend PHYSTOP st p l :
  0 < kend -> PHYSTOP + PGSIZE <= 2 ^ 64 ->
  kmem_inv kend PHYSTOP st (p :: l) ->
  let st1 := addref (snd (kalloc st)) p in
  exists st2 st3,
    getref st1 p = 2 /\
    kfree kend PHYSTOP st1 p = Ok st2 /\
    getref st2 p = 1 /\ ram st2 = ram st1 /\ freelist st2 = freelist st1 /\
    kmem_inv kend PHYSTOP st2 l /\
    kfree kend PHYSTOP st2 p = Ok st3 /\
    kmem_inv kend PHYSTOP st3 (p :: l).
Proof.
  intros Hk Hmax Hi st1.
  destruct (kalloc_inv kend PHYSTOP st p l Hi) as (_ & H2 & H3 & _).
  assert (Hmp : managed kend PHYSTOP p) by (apply Hi; simpl; auto).
  assert (Hi1 : kmem_inv kend PHYSTOP st1 l).
  { apply addref_inv; [exact H2|]. rewrite H3. vm_compute.
    split; congruence. }
  assert (Hc1 : getref st1 p = 2).
  { unfold st1. rewrite getref_addref, Z.eqb_refl, H3. reflexivity. }
  destruct (kfree_shared kend PHYSTOP st1 l p Hi1 Hmp) as (Hf2 & Hi2 & Hc2);
    [lia|].
  rewrite Hc1 in Hc2.
  destruct (kfree_push kend PHYSTOP Hk Hmax _ l p Hi2 Hmp Hc2)
    as (st3 & Hf3 & Hi3 & _).
  destruct (subref_frame st1 p) as [Hram Hfl].
  exists (subref st1 p), st3.
  split; [exact Hc1|]. split; [exact Hf2|]. split; [exact Hc2|].
  split; [exact Hram|]. split; [exact Hfl|]. split; [exact Hi2|].
  split; [exact Hf3|exact Hi3].
Qed.

Lemma shared_page_freed_by_last_owner_witness :
  exists st2 st3,
    kfree ex_end ex_PHYSTOP (addref ex_alloc 16384) 16384 = Ok st2 /\
    freelist st2 = 12288 /\
    kfree ex_end ex_PHYSTOP st2 16384 = Ok st3 /\
    kmem_inv ex_end ex_PHYSTOP st3 [16384; 12288; 8192].
Proof.
  destruct (shared_page_freed_by_last_owner ex_end ex_PHYSTOP ex_init
              16384 [12288; 8192])
    as (st2 & st3 & _ & H1 & _ & _ & H2 & _ & H3 & H4).
  - vm_compute. reflexivity.
  - vm_compute. congruence.
  - exact ex_init_list.
  - exists st2, st3. split; [exact H1|]. split; [|split; assumption].
    rewrite H2. vm_compute. reflexivity.
Defined.

(** X6: [kalloc] hands out exactly the pages of the free list, in the order
    of the list and each of them once; every page handed out then has
    count 1, the free list is empty, and one more [kalloc] returns 0 and
    changes nothing. *)
Theorem kalloc_until_empty kend PHYSTOP st l :
  0 < kend ->
  kmem_inv kend PHYSTOP st l ->
  let st' := snd (kalloc_many (length l) st) in
  fst (kalloc_many (length l) st) = l /\
  List.NoDup l /\
  freelist st' = 0 /\
  (forall p, In p l -> getref st' p = 1) /\
  kalloc st' = (0, st').
Proof.
  intros Hk Hi st'.
  destruct (kalloc_many_inv kend PHYSTOP Hk l st Hi) as (H1 & H2 & H3).
  fold st' in H2, H3.
  split; [exact H1|]. split; [apply Hi|].
  split; [exact (inv_flist _ _ _ _ H2)|]. split.
  - intros p Hp. rewrite (H3 p (inv_managed _ _ _ _ Hi p Hp)).
    destruct (in_dec Z.eq_dec p l); [reflexivity|contradiction].
  - now apply (kalloc_empty kend PHYSTOP).
Qed.

Lemma kalloc_until_empty_witness :
  fst (kalloc_many 3 ex_init) = [16384; 12288; 8192] /\
  fst (kalloc (snd (kalloc_many 3 ex_init))) = 0.
Proof.
  destruct (kalloc_until_empty ex_end ex_PHYSTOP ex_init
              [16384; 12288; 8192])
    as (H1 & _ & _ & _ & H2).
  - vm_compute. reflexivity.
  - exact ex_init_list.
  - split; [exact H1|].
    change (length [16384; 12288; 8192]) with 3%nat in H2.
    now rewrite H2.
Defined.

(** ** Freeing a page twice *)

Lemma flist_prefix m m' l1 : forall r x rest l',
  flist m r (l1 ++ x :: rest) ->
  (forall q, In q l1 -> run_next m' q = run_next m q) ->
  flist m' r l' ->
  exists l'', l' = l1 ++ l'' /\ flist m' x l''.
Proof.
  induction l1 as [|a l1 IH]; intros r x rest l' Hl Hsame Hl'.
  - simpl in Hl. destruct Hl as (-> & _). exists l'. auto.
  - simpl in Hl. destruct Hl as (-> & Ha & Hl).
    destruct l' as [|b t]; simpl in Hl'; [contradiction|].
    destruct Hl' as (<- & _ & Ht).
    rewrite Hsame in Ht by (simpl; auto).
    destruct (IH _ _ _ _ Hl (fun q Hq => Hsame q (or_intror Hq)) Ht)
      as (l'' & -> & Hx).
    exists l''. auto.
Qed.

(** A list that comes back to its first node is no list. *)
Lemma flist_cycle m x l1 :
  (forall l', flist m x l' ->
     exists l'', l' = x :: l1 ++ l'' /\ flist m x l'') ->
  forall l', ~ flist m x l'.
Proof.
  intros Hstep l'. remember (length l') as n eqn:Hn. revert l' Hn.
  induction n as [n IH] using lt_wf_ind. intros l' -> Hl'.
  destruct (Hstep _ Hl') as (l'' & -> & Hl'').
  apply (IH (length l'')) with l''; [|reflexivity|exact Hl''].
  simpl. rewrite List.length_app. lia.
Qed.

Lemma run_next_push kend PHYSTOP m pa c v q :
  managed kend PHYSTOP pa -> managed kend PHYSTOP q -> q <> pa ->
  run_next (set_run_next (memset m pa c PGSIZE) pa v) q = run_next m q.
Proof.
  intros Hpa Hq Hne. apply run_next_frame. intros i Hi.
  assert (Hne' : pa <> q) by congruence.
  pose proof (managed_apart kend PHYSTOP pa q Hpa Hq Hne' i Hi) as Hout.
  unfold set_run_next. rewrite store_le_out by (unfold PGSIZE in *; simpl; lia).
  now rewrite memset_out.
Qed.

Lemma kalloc_fst st : fst (kalloc st) = freelist st.
Proof. unfold kalloc. destruct (freelist st =? 0); reflexivity. Qed.

Lemma kalloc_freelist st :
  freelist st <> 0 ->
  freelist (snd (kalloc st)) = run_next (ram st) (freelist st).
Proof.
  intros Hne. unfold kalloc. cbv zeta.
  destruct (Z.eqb_spec (freelist st) 0); [contradiction|]. reflexivity.
Qed.

(** [kfree] of a page that is on the free list. *)
Lemma kfree_free_page kend PHYSTOP st l pa :
  0 < kend -> PHYSTOP + PGSIZE <= 2 ^ 64 ->
  kmem_inv kend PHYSTOP st l -> In pa l ->
  kfree kend PHYSTOP st pa =
    Ok (mkKstate (ref st)
          (set_run_next (memset (ram st) pa 1 PGSIZE) pa (freelist st)) pa) /\
  run_next (set_run_next (memset (ram st) pa 1 PGSIZE) pa (freelist st)) pa
    = freelist st.
Proof.
  intros Hk Hmax Hi Hin.
  assert (Hmp : managed kend PHYSTOP pa) by (now apply Hi).
  assert (Hz : getref st pa = 0) by (now apply Hi).
  assert (Hs : subref st pa = st).
  { unfold subref. rewrite Hz. reflexivity. }
  split.
  - rewrite (kfree_valid _ _ _ _ Hmp). cbv zeta. rewrite Hs, Hz. reflexivity.
  - apply run_next_set.
    destruct (flist_head _ _ _ (inv_flist _ _ _ _ Hi)) as [->|Hh]; [lia|].
    destruct (inv_managed _ _ _ _ Hi _ Hh) as (_ & ? & ?).
    unfold PGSIZE in *. lia.
Qed.

(** X7: [kfree] does not notice that a page is free already.  Freeing a
    page that is on the free list returns normally and leaves the counts as
    they are, but the free list then leads from that page back to itself:
    it is no longer a finite list, and the loop of [kfreemem] does not
    exit, whatever the bound on its iterations. *)
Theorem double_free_cycle kend PHYSTOP st l pa :
  0 < kend -> PHYSTOP + PGSIZE <= 2 ^ 64 ->
  kmem_inv kend PHYSTOP st l -> In pa l ->
  exists st',
    kfree kend PHYSTOP st pa = Ok st' /\
    freelist st' = pa /\
    (forall q, getref st' q = getref st q) /\
    (forall l', ~ flist (ram st') (freelist st') l') /\
    (forall fuel, kfreemem fuel st' = Diverge).
Proof.
  intros Hk Hmax Hi Hin.
  destruct (kfree_free_page kend PHYSTOP st l pa Hk Hmax Hi Hin) as [Hf Hnext].
  assert (Hmp : managed kend PHYSTOP pa) by (now apply Hi).
  destruct (List.in_split _ _ Hin) as (l1 & l2 & ->).
  eexists. split; [exact Hf|]. cbn [freelist ram].
  split; [reflexivity|]. split; [reflexivity|].
  set (m' := set_run_next (memset (ram st) pa 1 PGSIZE) pa (freelist st))
    in *.
  assert (Hno : forall l', ~ flist m' pa l').
  { apply (flist_cycle m' pa l1). intros l' Hl'.
    destruct l' as [|b t]; simpl in Hl';
      [destruct Hmp as (_ & ? & _); lia|].
    destruct Hl' as (<- & _ & Ht). rewrite Hnext in Ht.
    destruct (flist_prefix (ram st) m' l1 _ pa l2 t (inv_flist _ _ _ _ Hi))
      as (l'' & -> & Hl''); [|exact Ht|eauto].
    intros q Hq. unfold m'.
    apply (run_next_push kend PHYSTOP); [exact Hmp| |].
    - apply Hi. apply in_or_app. auto.
    - intros ->.
      apply (List.NoDup_remove_2 _ _ _ (inv_nodup _ _ _ _ Hi)).
      apply in_or_app. auto. }
  split; [exact Hno|].
  intros fuel. unfold kfreemem. cbn [freelist ram]. fold m'.
  destruct (kfreemem_loop_cases m' fuel pa 0) as [[k Hk'] | ->]; [|reflexivity].
  destruct (kfreemem_loop_ok _ _ _ _ _ Hk') as [l' Hl'].
  destruct (Hno _ Hl').
Qed.

Lemma ex_twice_eq : kfree ex_end ex_PHYSTOP ex_init 12288 = Ok ex_twice.
Proof. reflexivity. Qed.

Lemma double_free_cycle_witness :
  kfreemem 1000 ex_twice = Diverge /\
  forall l', ~ flist (ram ex_twice) (freelist ex_twice) l'.
Proof.
  destruct (double_free_cycle ex_end ex_PHYSTOP ex_init
              [16384; 12288; 8192] 12288)
    as (st' & H1 & _ & _ & H2 & H3).
  - vm_compute. reflexivity.
  - vm_compute. congruence.
  - exact ex_init_list.
  - simpl. auto.
  - rewrite ex_twice_eq in H1. inversion H1; subst st'.
    split; [apply H3|exact H2].
Defined.

(** X8: a page freed twice is allocated twice.  When the last owner of a
    page frees it and the page is then freed once more, both calls return
    normally, and the next two calls of [kalloc] both return this page; its
    count is then 2, and the pages that were free before are lost from the
    free list, whose head is read from the fill bytes of the page. *)
Theorem double_free_double_alloc kend PHYSTOP st l pa :
  0 < kend -> PHYSTOP + PGSIZE <= 2 ^ 64 ->
  kmem_inv kend PHYSTOP st l ->
  managed kend PHYSTOP pa -> getref st pa = 1 ->
  exists st1 st2,
    kfree kend PHYSTOP st pa = Ok st1 /\
    kfree kend PHYSTOP st1 pa = Ok st2 /\
    fst (kalloc st2) = pa /\
    fst (kalloc (snd (kalloc st2))) = pa /\
    getref (snd (kalloc (snd (kalloc st2)))) pa = 2 /\
    freelist (snd (kalloc (snd (kalloc st2)))) = 361700864190383365.
Proof.
  intros Hk Hmax Hi Hmp Hc.
  destruct (kfree_push kend PHYSTOP Hk Hmax st l pa Hi Hmp Hc)
    as (st1 & Hf1 & Hi1 & Hg1).
  destruct (kfree_free_page kend PHYSTOP st1 (pa :: l) pa Hk Hmax Hi1
              (or_introl eq_refl)) as [Hf2 Hnext].
  assert (Hfl1 : freelist st1 = pa).
  { pose proof (inv_flist _ _ _ _ Hi1) as Hl. simpl in Hl. apply Hl. }
  assert (Hp0 : pa <> 0) by (destruct Hmp as (_ & ? & _); lia).
  rewrite Hfl1 in Hnext, Hf2.
  set (m1 := set_run_next (memset (ram st1) pa 1 PGSIZE) pa pa) in *.
  set (st2 := mkKstate (ref st1) m1 pa) in *.
  assert (Hfl3 : freelist (snd (kalloc st2)) = pa).
  { rewrite kalloc_freelist by exact Hp0. exact Hnext. }
  assert (Hram3 : forall a, pa <= a < pa + PGSIZE ->
                            ram (snd (kalloc st2)) a = 5).
  { intros a Ha. unfold kalloc. cbv zeta. cbn [freelist st2].
    destruct (Z.eqb_spec pa 0); [contradiction|]. cbn [snd ram].
    now rewrite memset_in. }
  exists st1, st2. split; [exact Hf1|]. split; [exact Hf2|].
  split; [apply kalloc_fst|]. split; [now rewrite kalloc_fst|]. split.
  - rewrite kalloc_getref by (rewrite Hfl3; exact Hp0).
    rewrite Hfl3, Z.eqb_refl.
    rewrite kalloc_getref by exact Hp0. cbn [freelist st2].
    rewrite Z.eqb_refl.
    change (getref st2 pa) with (getref st1 pa).
    rewrite Hg1, Z.eqb_refl. reflexivity.
  - rewrite kalloc_freelist by (rewrite Hfl3; exact Hp0). rewrite Hfl3.
    unfold run_next.
    assert (Hgen : forall n a b,
              pa <= a -> a + Z.of_nat n <= pa + PGSIZE ->
              load_le (ram (snd (kalloc st2))) a n = load_le (fun _ => 5) b n).
    { induction n as [|n IH]; intros a b H1 H2; [reflexivity|].
      cbn [load_le]. rewrite Hram3 by lia.
      rewrite (IH (a + 1) (b + 1)) by lia. reflexivity. }
    rewrite (Hgen 8%nat pa 0) by (unfold PGSIZE; simpl; lia).
    reflexivity.
Qed.

Lemma double_free_double_alloc_witness :
  exists st1 st2,
    kfree ex_end ex_PHYSTOP ex_alloc 16384 = Ok st1 /\
    kfree ex_end ex_PHYSTOP st1 16384 = Ok st2 /\
    fst (kalloc st2) = 16384 /\
    fst (kalloc (snd (kalloc st2))) = 16384.
Proof.
  destruct (double_free_double_alloc ex_end ex_PHYSTOP ex_alloc
              [12288; 8192] 16384)
    as (st1 & st2 & H1 & H2 & H3 & H4 & _).
  - vm_compute. reflexivity.
  - vm_compute. congruence.
  - apply (kalloc_inv ex_end ex_PHYSTOP ex_init 16384 [12288; 8192]
             ex_init_list).
  - vm_compute. repeat split; congruence.
  - vm_compute. reflexivity.
  - exists st1, st2. auto.
Defined.

(** ** Conservation of pages *)

Lemma pages_spec kend PHYSTOP :
  0 < kend -> PHYSTOP + PGSIZE <= 2 ^ 64 ->
  PHYSTOP mod PGSIZE = 0 -> kend <= PHYSTOP ->
  List.NoDup (pages kend PHYSTOP) /\
  forall pa, In pa (pages kend PHYSTOP) <-> managed kend PHYSTOP pa.
Proof.
  intros Hk Hmax Hal Hle.
  destruct (kinit_list kend PHYSTOP (fun _ => 0) Hk Hmax Hal Hle)
    as (st & _ & Hi & Hz & _).
  fold (pages kend PHYSTOP) in Hi. split.
  - rewrite <- (rev_involutive (pages kend PHYSTOP)).
    apply List.NoDup_rev. apply Hi.
  - intros pa. rewrite (in_rev (pages kend PHYSTOP) pa). split.
    + apply Hi.
    + intros Hm. apply (inv_free _ _ _ _ Hi pa Hm). apply Hz.
Qed.

Lemma free_allocated_length kend PHYSTOP st l :
  0 < kend -> PHYSTOP + PGSIZE <= 2 ^ 64 ->
  PHYSTOP mod PGSIZE = 0 -> kend <= PHYSTOP ->
  kmem_inv kend PHYSTOP st l ->
  (length l + length (allocated kend PHYSTOP st) = npages kend PHYSTOP)%nat.
Proof.
  intros Hk Hmax Hal Hle Hi.
  destruct (pages_spec kend PHYSTOP Hk Hmax Hal Hle) as [Hnd Hin].
  set (f := fun pa => 0 <? getref st pa).
  assert (Hlen : length l =
                 length (List.filter (fun pa => negb (f pa)) (pages kend PHYSTOP))).
  { apply Nat.le_antisymm; apply List.NoDup_incl_length.
    - apply Hi.
    - intros pa Hpa. apply filter_In. split.
      + apply Hin. now apply Hi.
      + unfold f.
        rewrite (proj1 (inv_free _ _ _ _ Hi pa (inv_managed _ _ _ _ Hi pa Hpa)) Hpa).
        reflexivity.
    - now apply List.NoDup_filter.
    - intros pa Hpa. apply filter_In in Hpa. destruct Hpa as [Hp Hc].
      apply Hin in Hp. apply (inv_free _ _ _ _ Hi pa Hp).
      pose proof (inv_nonneg _ _ _ _ Hi pa). unfold f in Hc.
      destruct (Z.ltb_spec 0 (getref st pa)); [discriminate|lia]. }
  rewrite Hlen. unfold allocated. fold f. rewrite Nat.add_comm.
  rewrite List.filter_length. apply length_page_seq.
Qed.

(** X9: pages are neither lost nor made.  In every state reached from
    [kinit] through the calls of owners, the free list is a finite list,
    the number of free pages and the number of pages whose count is positive
    add up to the number of pages [kinit] freed, and [kfreemem] returns
    PGSIZE times the number of pages that are not allocated. *)
Theorem page_conservation kend PHYSTOP st :
  0 < kend -> PHYSTOP + PGSIZE <= 2 ^ 64 ->
  PHYSTOP mod PGSIZE = 0 -> kend <= PHYSTOP ->
  kreach kend PHYSTOP st ->
  exists l,
    free_pages (S (npages kend PHYSTOP)) (ram st) (freelist st) = Some l /\
    (length l + length (allocated kend PHYSTOP st)
     = npages kend PHYSTOP)%nat /\
    kfreemem (S (npages kend PHYSTOP)) st =
      Ok (PGSIZE * (Z.of_nat (npages kend PHYSTOP)
                    - Z.of_nat (length (allocated kend PHYSTOP st)))).
Proof.
  intros Hk Hmax Hal Hle Hr.
  destruct (kreach_inv kend PHYSTOP Hk Hmax Hal Hle st Hr) as [l Hi].
  pose proof (free_allocated_length kend PHYSTOP st l Hk Hmax Hal Hle Hi)
    as Hlen.
  exists l. split; [|split; [exact Hlen|]].
  - apply free_pages_flist; [apply Hi|lia].
  - rewrite (kfreemem_inv kend PHYSTOP st l _ Hk Hmax Hi) by lia.
    f_equal. lia.
Qed.

Lemma page_conservation_witness :
  exists l,
    free_pages 4 (ram ex_alloc) (freelist ex_alloc) = Some l /\
    (length l + length (allocated ex_end ex_PHYSTOP ex_alloc) = 3)%nat.
Proof.
  assert (E : npages ex_end ex_PHYSTOP = 3%nat) by (vm_compute; reflexivity).
  destruct (page_conservation ex_end ex_PHYSTOP ex_alloc)
    as (l & H1 & H2 & _).
  - vm_compute. reflexivity.
  - vm_compute. congruence.
  - vm_compute. reflexivity.
  - vm_compute. congruence.
  - apply (kreach_step _ _ ex_init).
    + apply (kreach_init _ _ (fun _ => 0)). exact ex_kinit.
    + apply kstep_kalloc.
  - rewrite E in H1, H2. exists l. split; [exact H1|exact H2].
Defined.

(* ================================================================== *)
(** * Further properties of the buffer cache *)

(** ** One buffer in use for a block *)

Lemma uniq_mono c c' :
  uniq c ->
  (forall i x', pool c' !! i = Some x' -> refcnt x' <> 0 ->
     exists x, pool c !! i = Some x /\ refcnt x <> 0 /\
               dev x = dev x' /\ blockno x = blockno x') ->
  uniq c'.
Proof.
  intros Hu H i j x y Hx Hy Rx Ry Hd Hb.
  destruct (H i x Hx Rx) as (x0 & Hx0 & Rx0 & Dx & Bx).
  destruct (H j y Hy Ry) as (y0 & Hy0 & Ry0 & Dy & By).
  apply (Hu i j x0 y0); congruence.
Qed.

(** A slot whose fields other than the links are kept. *)
Lemma dat_fields c c' i y' :
  dat c' (Slot i) = dat c (Slot i) -> pool c' !! i = Some y' ->
  exists y, pool c !! i = Some y /\
    valid y = valid y' /\ dev y = dev y' /\ blockno y = blockno y' /\
    lock y = lock y' /\ refcnt y = refcnt y' /\ data y = data y' /\
    ticks y = ticks y'.
Proof.
  intros Hd Hy'. destruct (slot_dat c c' i y' Hd Hy') as (y & Hy & Hs).
  exists y. split; [exact Hy|]. now apply strip_fields.
Qed.

Lemma load_dat c c' j :
  (forall q, q <> Slot j -> load c' q = load c q) ->
  forall i, i <> j -> dat c' (Slot i) = dat c (Slot i).
Proof.
  intros H i Hne. unfold dat. rewrite H; [reflexivity|congruence].
Qed.

Lemma uniq_dat c c' j x x' :
  uniq c -> pool c !! j = Some x -> pool c' !! j = Some x' ->
  (forall i, i <> j -> dat c' (Slot i) = dat c (Slot i)) ->
  dev x' = dev x -> blockno x' = blockno x ->
  (refcnt x' <> 0 -> refcnt x <> 0) ->
  uniq c'.
Proof.
  intros Hu Hx Hx' Hd Ed Eb Er. apply (uniq_mono c); [exact Hu|].
  intros i y' Hy' Ry'. destruct (Nat.eq_dec i j) as [->|Hne].
  - rewrite Hx' in Hy'. injection Hy' as <-.
    exists x. split; [exact Hx|]. split; [now apply Er|]. split; congruence.
  - destruct (dat_fields c c' i y' (Hd i Hne) Hy')
      as (y & Hy & _ & D & B & _ & R & _).
    exists y. split; [exact Hy|]. split; [congruence|]. split; assumption.
Qed.

(** A miss: no buffer in use carries the key. *)
Lemma lookup_notfound_inuse c d bn :
  bcache_inv c -> lookup c d bn = NotFound ->
  forall i x, pool c !! i = Some x -> refcnt x <> 0 ->
              ~ (dev x = d /\ blockno x = bn).
Proof.
  intros Hi Hl i x Hx Hr [Hd Hb].
  destruct (inv_lookup c d bn Hi) as (l & Hm & E). rewrite Hl in E.
  destruct (List.find (keyb c d bn) (map Slot l)) eqn:Hf; [discriminate|].
  apply (proj1 (find_keyb_none c d bn l) Hf i x); [|exact Hx|auto].
  apply Hm. exists x. split; [exact Hx|]. split; [exact Hr|]. now rewrite Hb.
Qed.

(** A hit: the buffer found is in use and carries the key. *)
Lemma lookup_found_inuse c d bn b :
  bcache_inv c -> lookup c d bn = Found b ->
  exists j x, b = Slot j /\ pool c !! j = Some x /\ refcnt x <> 0 /\
              dev x = d /\ blockno x = bn.
Proof.
  intros Hi Hl.
  destruct (inv_lookup c d bn Hi) as (l & Hm & E). rewrite Hl in E.
  destruct (List.find (keyb c d bn) (map Slot l)) as [b'|] eqn:Hf;
    [|discriminate].
  injection E as ->. apply find_some in Hf. destruct Hf as [Hin Hk].
  apply in_map_iff in Hin. destruct Hin as (j & <- & Hin).
  apply Hm in Hin. destruct Hin as (x & Hx & Hr & _).
  exists j, x. split; [reflexivity|]. split; [exact Hx|]. split; [exact Hr|].
  unfold keyb in Hk. cbn [load] in Hk. rewrite Hx in Hk.
  apply andb_true_iff in Hk. destruct Hk as [Hd Hb].
  split; now apply Z.eqb_eq.
Qed.

Lemma lookup_total c d bn :
  bcache_inv c ->
  lookup c d bn = NotFound \/ exists b, lookup c d bn = Found b.
Proof.
  intros Hi. destruct (inv_lookup c d bn Hi) as (l & _ & ->).
  destruct (List.find _ _); eauto.
Qed.

(** The buffer in use for a key is the one [bget] finds. *)
Lemma lookup_inuse c j x :
  bcache_inv c -> uniq c -> pool c !! j = Some x -> refcnt x <> 0 ->
  lookup c (dev x) (blockno x) = Found (Slot j).
Proof.
  intros Hi Hu Hx Hr.
  destruct (lookup_total c (dev x) (blockno x) Hi) as [Hl|[b Hl]].
  - destruct (lookup_notfound_inuse c _ _ Hi Hl j x Hx Hr). auto.
  - destruct (lookup_found_inuse c _ _ b Hi Hl)
      as (i & y & -> & Hy & Ry & Hd & Hb).
    now rewrite (Hu i j y x Hy Hx Ry Hr Hd Hb) in Hl.
Qed.

Lemma uniq_recycle c c' j x' d bn :
  bcache_inv c -> uniq c -> lookup c d bn = NotFound ->
  pool c' !! j = Some x' -> dev x' = d -> blockno x' = bn ->
  (forall i, i <> j -> dat c' (Slot i) = dat c (Slot i)) ->
  uniq c'.
Proof.
  intros Hi Hu Hl Hx' Ed Eb Hd.
  assert (Hother : forall i y', i <> j -> pool c' !! i = Some y' ->
            refcnt y' <> 0 -> ~ (dev y' = d /\ blockno y' = bn)).
  { intros i y' Hne Hy' Ry' [D B].
    destruct (dat_fields c c' i y' (Hd i Hne) Hy')
      as (y & Hy & _ & D' & B' & _ & R' & _).
    apply (lookup_notfound_inuse c d bn Hi Hl i y Hy); [congruence|].
    split; congruence. }
  intros i i' y y' Hy Hy' Ry Ry' D B.
  destruct (Nat.eq_dec i j) as [->|Hne]; destruct (Nat.eq_dec i' j) as [->|Hne'].
  - reflexivity.
  - rewrite Hx' in Hy. injection Hy as <-.
    destruct (Hother i' y' Hne' Hy' Ry'). split; congruence.
  - rewrite Hx' in Hy'. injection Hy' as <-.
    destruct (Hother i y Hne Hy Ry). split; congruence.
  - destruct (dat_fields c c' i y (Hd i Hne) Hy)
      as (y0 & Hy0 & _ & D0 & B0 & _ & R0 & _).
    destruct (dat_fields c c' i' y' (Hd i' Hne') Hy')
      as (y0' & Hy0' & _ & D0' & B0' & _ & R0' & _).
    apply (Hu i i' y0 y0'); congruence.
Qed.

Lemma bget_uniq me c d bn b c' :
  bcache_inv c -> uniq c ->
  bget me c d bn = Ok (b, c') -> uniq c'.
Proof.
  intros Hi Hu Hb.
  destruct (lookup c d bn) as [b0| | |] eqn:Hl.
  - destruct (bget_hit_inv me c d bn b0 Hi Hl)
      as (j & x & c2 & x' & -> & Hx & Hr & _ & _ & Ht & Hx' & Ex & Hq & _).
    unfold taken in Ht. rewrite Hb in Ht.
    destruct (locked (lock x) =? 0); destruct Ht as [E _]; [|discriminate].
    injection E as _ <-.
    apply (uniq_dat c c' j x x' Hu Hx Hx' (load_dat c c' j Hq));
      try (rewrite Ex; reflexivity).
    intros _. exact Hr.
  - destruct (bget_miss_inv me c d bn Hi Hl)
      as [(_ & _ & E)|(j & xj & c2 & x' & _ & _ & _ & E & Hx' & Ex & Hd & _)];
      rewrite Hb in E; [discriminate|].
    injection E as _ <-.
    apply (uniq_recycle c c' j x' d bn Hi Hu Hl Hx'); [| |exact Hd];
      rewrite Ex; reflexivity.
  - unfold bget in Hb. rewrite Hl in Hb. discriminate.
  - unfold bget in Hb. rewrite Hl in Hb. discriminate.
Qed.

Lemma bstep_uniq c c' : bstep c c' -> bcache_inv c -> uniq c -> uniq c'.
Proof.
  intros Hs Hi Hu. destruct Hs as [me c d bn b c' Hmax Hb|t me c i c' Hb|
                                   c i x c' Hx Hr Hb|c i x c' Hx Hr Hb].
  - eapply bget_uniq; eassumption.
  - destruct (brelse_ok_holding _ _ _ _ _ Hb) as (x & Hx & Hh).
    destruct (brelse_inv_spec t me c i x Hi Hx Hh)
      as (c2 & x' & E & _ & Hx' & Hs & Hd & _).
    rewrite Hb in E. injection E as <-.
    apply strip_fields in Hs. cbn in Hs.
    destruct Hs as (_ & D & B & _ & R & _).
    apply (uniq_dat c c' i x x' Hu Hx Hx' Hd D B).
    intros _. pose proof (holding_inuse c i x me Hi Hx Hh). lia.
  - destruct (bpin_eval c (Slot i) x Hx) as (c2 & E & Hx' & Hq & _).
    rewrite Hb in E. injection E as <-.
    apply (uniq_dat c c' i x _ Hu Hx Hx' (load_dat c c' i Hq));
      [reflexivity|reflexivity|]. intros _. lia.
  - destruct (bunpin_eval c (Slot i) x Hx) as (c2 & E & Hx' & Hq & _).
    rewrite Hb in E. injection E as <-.
    apply (uniq_dat c c' i x _ Hu Hx Hx' (load_dat c c' i Hq));
      [reflexivity|reflexivity|]. intros _. lia.
Qed.

Lemma breach_uniq nbuf c : breach nbuf c -> uniq c.
Proof.
  induction 1 as [|c c' Hc IH Hs].
  - intros i j x y Hx _ Rx. apply binit_pool in Hx. subst x.
    destruct Rx. reflexivity.
  - apply (bstep_uniq c c' Hs); [now apply (breach_inv nbuf)|exact IH].
Qed.

Ltac concrete_pool :=
  let i := fresh "i" in let x := fresh "x" in let H := fresh "H" in
  intros i x H;
  repeat (destruct i as [|i]; [vm_compute in H; injection H as <-;
                               vm_compute; reflexivity|]);
  vm_compute in H; discriminate.

Lemma ex_three_reach : breach 3 ex_three.
Proof.
  eapply breach_step; [eapply breach_step; [apply ex_acquired_reach|]|].
  - apply (bstep_bget 7 _ 1 11 (Slot 1)); [concrete_pool|].
    vm_compute. reflexivity.
  - apply (bstep_bget 7 _ 1 12 (Slot 2)); [concrete_pool|].
    vm_compute. reflexivity.
Qed.


(** X10: in every cache reached from [binit], two different buffers whose
    counts are not zero never carry the same device and block number. *)
Theorem inuse_unique nbuf c i j x y :
  breach nbuf c ->
  pool c !! i = Some x -> pool c !! j = Some y ->
  refcnt x <> 0 -> refcnt y <> 0 -> i <> j ->
  ~ (dev x = dev y /\ blockno x = blockno y).
Proof.
  intros Hc Hx Hy Rx Ry Hne [D B].
  apply Hne. exact (breach_uniq nbuf c Hc i j x y Hx Hy Rx Ry D B).
Qed.

Lemma inuse_unique_witness :
  ~ (dev (mkBuf 0 1 10 (mkSleeplock 1 7) 1 (Head 10) (Head 10) [] 0) =
     dev (mkBuf 0 1 11 (mkSleeplock 1 7) 1 (Head 11) (Head 11) [] 0) /\
     blockno (mkBuf 0 1 10 (mkSleeplock 1 7) 1 (Head 10) (Head 10) [] 0) =
     blockno (mkBuf 0 1 11 (mkSleeplock 1 7) 1 (Head 11) (Head 11) [] 0)).
Proof.
  apply (inuse_unique 3 ex_three 0 1 _ _ ex_three_reach).
  - vm_compute. reflexivity.
  - vm_compute. reflexivity.
  - vm_compute. discriminate.
  - vm_compute. discriminate.
  - discriminate.
Defined.

(** X11: in every cache reached from [binit] the first loop of [bget]
    finds a buffer exactly when that buffer is in use for the key, it
    misses exactly when no buffer in use carries the key, and it neither
    faults nor runs out of its bound.  A buffer whose count is zero is
    never found, whatever key it still carries. *)
Theorem lookup_finds_inuse nbuf c d bn :
  breach nbuf c ->
  (forall j, lookup c d bn = Found (Slot j) <->
     exists x, pool c !! j = Some x /\ refcnt x <> 0 /\
               dev x = d /\ blockno x = bn) /\
  (lookup c d bn = NotFound <->
     forall i x, pool c !! i = Some x -> refcnt x <> 0 ->
                 ~ (dev x = d /\ blockno x = bn)) /\
  (forall b, lookup c d bn = Found b -> exists j, b = Slot j) /\
  lookup c d bn <> ScanFault /\ lookup c d bn <> ScanLoop.
Proof.
  intros Hc. pose proof (breach_inv nbuf c Hc) as Hi.
  pose proof (breach_uniq nbuf c Hc) as Hu.
  split; [|split; [|split; [|split]]].
  - intros j. split.
    + intros Hl. destruct (lookup_found_inuse c d bn _ Hi Hl)
        as (j' & x & [= <-] & H). eauto.
    + intros (x & Hx & Hr & <- & <-). now apply lookup_inuse.
  - split; [now apply lookup_notfound_inuse|].
    intros Hno. destruct (lookup_total c d bn Hi) as [Hl|[b Hl]]; [exact Hl|].
    destruct (lookup_found_inuse c d bn _ Hi Hl)
      as (j & x & _ & Hx & Hr & D & B).
    destruct (Hno j x Hx Hr). auto.
  - intros b Hl. destruct (lookup_found_inuse c d bn _ Hi Hl)
      as (j & x & -> & _). eauto.
  - destruct (lookup_total c d bn Hi) as [->|[b ->]]; discriminate.
  - destruct (lookup_total c d bn Hi) as [->|[b ->]]; discriminate.
Qed.

Lemma lookup_finds_inuse_witness :
  lookup ex_three 1 11 = Found (Slot 1) /\
  lookup ex_released 1 10 = NotFound.
Proof.
  destruct (lookup_finds_inuse 3 ex_three 1 11 ex_three_reach) as (H1 & _).
  destruct (lookup_finds_inuse 3 ex_released 1 10 ex_released_reach)
    as (_ & H2 & _).
  split.
  - apply H1. eexists. split; [vm_compute; reflexivity|].
    vm_compute. repeat split; congruence.
  - apply H2. intros i x Hx Hr.
    do 3 (destruct i as [|i];
          [vm_compute in Hx; injection Hx as <-; vm_compute in Hr;
           congruence|]).
    vm_compute in Hx. discriminate.
Defined.

(** ** Hits *)





(** ** The last release *)




(** X14: a buffer cannot be released twice.  After [brelse] by the holder
    of the lock nobody holds the lock, so a second [brelse] of the buffer,
    by any process, panics. *)
Theorem brelse_twice t me c j x :
  bcache_inv c -> pool c !! j = Some x ->
  holdingsleep (lock x) me = true ->
  exists c',
    brelse t me c (Slot j) = Ok c' /\
    forall t' me', brelse t' me' c' (Slot j) = Panic "brelse".
Proof.
  intros Hi Hx Hh.
  destruct (brelse_inv_spec t me c j x Hi Hx Hh)
    as (c' & x' & E & _ & Hx' & Hs & _).
  apply strip_fields in Hs. cbn in Hs. destruct Hs as (_ & _ & _ & L & _).
  exists c'. split; [exact E|]. intros t' me'.
  unfold brelse. cbn [load]. rewrite Hx', L. reflexivity.
Qed.

Lemma brelse_twice_witness :
  exists c',
    brelse 100 7 ex_acquired (Slot 0) = Ok c' /\
    brelse 101 7 c' (Slot 0) = Panic "brelse".
Proof.
  assert (Hx : pool ex_acquired !! 0%nat =
               Some (mkBuf 0 1 10 (mkSleeplock 1 7) 1 (Head 10) (Head 10) [] 0))
    by (vm_compute; reflexivity).
  destruct (brelse_twice 100 7 ex_acquired 0 _
              (breach_inv 3 _ ex_acquired_reach) Hx)
    as (c' & H1 & H2).
  - vm_compute. reflexivity.
  - exists c'. split; [exact H1|apply H2].
Defined.

(** ** What bget leaves alone *)

(** X15: [bget] never takes a buffer away from its users.  Whatever key is
    asked for, a buffer whose count is not zero keeps its device, block
    number, validity, content and stamp; unless it is the buffer handed out
    (which then carried the key already) its count and lock are unchanged
    as well. *)
Theorem bget_keeps_inuse me c d bn b c' :
  bcache_inv c ->
  bget me c d bn = Ok (b, c') \/ bget me c d bn = Sleep (b, c') ->
  forall i x, pool c !! i = Some x -> refcnt x <> 0 ->
  exists x', pool c' !! i = Some x' /\
    dev x' = dev x /\ blockno x' = blockno x /\ valid x' = valid x /\
    data x' = data x /\ ticks x' = ticks x /\
    (Slot i <> b -> refcnt x' = refcnt x /\ lock x' = lock x) /\
    (Slot i = b -> dev x = d /\ blockno x = bn).
Proof.
  intros Hi Hb i x Hx Hr.
  destruct (lookup c d bn) as [b0| | |] eqn:Hl.
  - destruct (bget_hit_inv me c d bn b0 Hi Hl)
      as (j & y & c2 & y' & -> & Hy & _ & Dy & By & Ht & Hy' & Ey & Hq & _).
    assert (Hbc : b = Slot j /\ c' = c2).
    { unfold taken in Ht.
      destruct (locked (lock y) =? 0); destruct Ht as [E _]; rewrite E in Hb;
        destruct Hb as [[=]|[=]]; auto. }
    destruct Hbc as [-> ->].
    destruct (Nat.eq_dec i j) as [->|Hne].
    + rewrite Hx in Hy. injection Hy as <-.
      exists y'. split; [exact Hy'|].
      split; [rewrite Ey; reflexivity|]. split; [rewrite Ey; reflexivity|].
      split; [rewrite Ey; reflexivity|]. split; [rewrite Ey; reflexivity|].
      split; [rewrite Ey; reflexivity|]. split; [congruence|auto].
    + exists x. assert (Hs : Slot i <> Slot j) by congruence.
      split; [rewrite <- Hx; exact (Hq _ Hs)|].
      repeat (split; [reflexivity|]). split; [auto|congruence].
  - destruct (bget_miss_inv me c d bn Hi Hl)
      as [(_ & _ & E)|(j & xj & c2 & x' & _ & Hxj & Rj & E & _ & _ & Hd & _)];
      rewrite E in Hb; [destruct Hb; discriminate|].
    assert (Hbc : b = Slot j /\ c' = c2) by (destruct Hb as [[=]|[=]]; auto).
    destruct Hbc as [-> ->].
    assert (Hne : i <> j) by (intros ->; congruence).
    destruct (dat_fields c2 c i x (eq_sym (Hd i Hne)) Hx)
      as (y & Hy & V & D & B & L & R & Da & T).
    exists y. split; [exact Hy|]. split; [exact D|]. split; [exact B|].
    split; [exact V|]. split; [exact Da|]. split; [exact T|].
    split; [auto|congruence].
  - unfold bget in Hb. rewrite Hl in Hb. destruct Hb; discriminate.
  - unfold bget in Hb. rewrite Hl in Hb. destruct Hb; discriminate.
Qed.

Lemma bget_keeps_inuse_witness :
  exists c',
    bget 8 ex_acquired 1 27 = Ok (Slot 1, c') /\
    exists x', pool c' !! 0%nat = Some x' /\ blockno x' = 10 /\
               lock x' = mkSleeplock 1 7.
Proof.
  assert (Hb : bget 8 ex_acquired 1 27 =
               Ok (Slot 1, after_bget 8 ex_acquired 1 27))
    by (vm_compute; reflexivity).
  assert (Hx : pool ex_acquired !! 0%nat =
               Some (mkBuf 0 1 10 (mkSleeplock 1 7) 1 (Head 10) (Head 10) [] 0))
    by (vm_compute; reflexivity).
  destruct (bget_keeps_inuse 8 ex_acquired 1 27 _ _
              (breach_inv 3 _ ex_acquired_reach) (or_introl Hb) 0%nat _ Hx)
    as (x' & H1 & _ & H2 & _ & _ & _ & H3 & _).
  - vm_compute. discriminate.
  - exists (after_bget 8 ex_acquired 1 27). split; [exact Hb|].
    exists x'. split; [exact H1|]. split; [exact H2|].
    apply H3. discriminate.
Defined.

(** ** The cache after binit *)

(** X16: after [binit] nothing is cached.  Every bucket list is empty and
    every key misses.  With a pool of no buffers the first [bget] panics;
    otherwise it returns buffer 0, bound to the key, not valid, with count
    one, locked by the caller and linked into the bucket of the key. *)
Theorem bget_cold nbuf me d bn :
  let c := binit (bcache_zero nbuf) in
  (forall k, (k < Z.to_nat NBUCKET)%nat -> members c k = Some []) /\
  lookup c d bn = NotFound /\
  (nbuf = 0%nat -> bget me c d bn = Panic "bget: no buffers") /\
  (nbuf <> 0%nat ->
     exists c' x',
       bget me c d bn = Ok (Slot 0, c') /\
       pool c' !! 0%nat = Some x' /\
       dev x' = d /\ blockno x' = bn /\ valid x' = 0 /\ refcnt x' = 1 /\
       lock x' = mkSleeplock 1 me /\
       linked_into c' (bucket_key bn) (Slot 0)).
Proof.
  intros c. pose proof (binit_inv nbuf) as Hi. fold c in Hi.
  assert (Hz : forall i x, pool c !! i = Some x -> x = buf_zero)
    by (intros i x; apply binit_pool).
  assert (Hl : lookup c d bn = NotFound).
  { destruct (lookup_total c d bn Hi) as [Hl|[b Hl]]; [exact Hl|].
    destruct (lookup_found_inuse c d bn b Hi Hl) as (j & x & _ & Hx & Hr & _).
    rewrite (Hz j x Hx) in Hr. destruct Hr. reflexivity. }
  split; [|split; [exact Hl|split]].
  - intros k Hk.
    destruct (inv_bucket c k Hi Hk) as (l & h & Hr & Hnd & Hm & _).
    rewrite (inv_members c k l Hi Hk Hr Hnd Hm).
    destruct l as [|i l]; [reflexivity|].
    destruct (proj1 (Hm i) (or_introl eq_refl)) as (x & Hx & Hrc & _).
    rewrite (Hz i x Hx) in Hrc. destruct Hrc. reflexivity.
  - intros ->.
    destruct (bget_miss_inv me c d bn Hi Hl)
      as [(_ & _ & E)|(j & xj & _ & _ & _ & Hxj & _)]; [exact E|].
    destruct j; discriminate.
  - intros Hn.
    assert (H0 : pool c !! 0%nat = Some buf_zero).
    { destruct nbuf; [contradiction|]. reflexivity. }
    destruct (bget_miss_inv me c d bn Hi Hl)
      as [(_ & Hall & _)|(j & xj & c' & x' & Elru & Hxj & Rj & E & Hx' & Ex
                          & Hd & Hi')].
    + destruct (Hall 0%nat buf_zero H0). reflexivity.
    + assert (Hj : j = 0%nat).
      { destruct (lru_spec c) as (lb & Elb & Hcand). rewrite Elru in Elb.
        injection Elb as <-.
        destruct Hcand as [[[=] _]|(j' & xj' & [= <-] & _ & Hxj' & _ & Hmin)].
        assert (Hlt : (0 < length (pool c))%nat)
          by (apply (lookup_lt_Some _ _ _ H0)).
        destruct (Hmin 0%nat buf_zero Hlt H0 eq_refl) as [_ Hle].
        rewrite (Hz j xj' Hxj') in Hle. specialize (Hle eq_refl). lia. }
      subst j. exists c', x'. split; [exact E|]. split; [exact Hx'|].
      assert (R' : refcnt x' = 1) by (rewrite Ex; reflexivity).
      assert (B' : blockno x' = bn) by (rewrite Ex; reflexivity).
      split; [rewrite Ex; reflexivity|]. split; [exact B'|].
      split; [rewrite Ex; reflexivity|]. split; [exact R'|].
      split; [rewrite Ex; reflexivity|].
      apply (inv_linked c' _ 0 Hi' (bucket_key_lt bn)).
      exists x'. split; [exact Hx'|]. split; [lia|]. now rewrite B'.
Qed.

Lemma bget_cold_witness :
  bget 7 (binit (bcache_zero 0)) 1 10 = Panic "bget: no buffers" /\
  exists c', bget 7 ex_boot3 1 10 = Ok (Slot 0, c').
Proof.
  destruct (bget_cold 0 7 1 10) as (_ & _ & H0 & _).
  destruct (bget_cold 3 7 1 10) as (_ & _ & _ & H3).
  split; [now apply H0|].
  destruct H3 as (c' & x' & E & _); [discriminate|].
  exists c'. exact E.
Defined.

(** ** Pinning *)



(** ** The capacity of the pool *)

Lemma binit_filled nbuf : filled nbuf (binit (bcache_zero nbuf)) [].
Proof.
  assert (Hlen : length (pool (binit (bcache_zero nbuf))) = nbuf).
  { cbn [binit bcache_zero pool]. now rewrite List.length_map, length_replicate. }
  split; [apply breach_init|]. split; [|split].
  - intros i Hi. simpl in Hi. lia.
  - intros i [_ Hi].
    destruct (lookup_lt_is_Some_2 (pool (binit (bcache_zero nbuf))) i)
      as [x Hx]; [lia|].
    pose proof (binit_pool nbuf i x Hx) as ->.
    exists buf_zero. split; [exact Hx|]. split; reflexivity.
  - intros i x Hx. apply lookup_lt_Some in Hx. lia.
Qed.

Lemma filled_miss nbuf c ks d bn :
  filled nbuf c ks -> ~ In (d, bn) ks -> lookup c d bn = NotFound.
Proof.
  intros (Hc & Hb & Hz & Hd) Hnin.
  pose proof (breach_inv nbuf c Hc) as Hi.
  destruct (lookup_total c d bn Hi) as [Hl|[b Hl]]; [exact Hl|exfalso].
  destruct (lookup_found_inuse c d bn b Hi Hl)
    as (j & x & _ & Hx & Hr & D & B).
  destruct (Nat.lt_ge_cases j (length ks)) as [Hlt|Hge].
  - destruct (Hb j Hlt) as (y & Hy & _ & Hk).
    rewrite Hx in Hy. injection Hy as <-. rewrite D, B in Hk.
    apply Hnin. apply list_elem_of_In. eapply list_elem_of_lookup_2. exact Hk.
  - destruct (Hz j) as (y & Hy & Ry & _); [split; [exact Hge|eauto]|].
    rewrite Hx in Hy. injection Hy as <-. contradiction.
Qed.

Lemma filled_below_max nbuf c ks : filled nbuf c ks -> below_max c.
Proof.
  intros (Hc & Hb & Hz & Hd) i x Hx.
  destruct (Nat.lt_ge_cases i (length ks)) as [Hlt|Hge].
  - destruct (Hb i Hlt) as (y & Hy & Ry & _).
    rewrite Hx in Hy. injection Hy as <-. rewrite Ry. reflexivity.
  - destruct (Hz i) as (y & Hy & Ry & _); [split; [exact Hge|eauto]|].
    rewrite Hx in Hy. injection Hy as <-. rewrite Ry. reflexivity.
Qed.

Lemma filled_step nbuf me c ks d bn :
  filled nbuf c ks -> ~ In (d, bn) ks -> (length ks < nbuf)%nat ->
  exists c', bget me c d bn = Ok (Slot (length ks), c') /\
             filled nbuf c' (ks ++ [(d, bn)]).
Proof.
  intros Hf Hnin Hlt.
  pose proof (filled_miss nbuf c ks d bn Hf Hnin) as Hl.
  pose proof (filled_below_max nbuf c ks Hf) as Hmax.
  destruct Hf as (Hc & Hb & Hz & Hd).
  pose proof (breach_inv nbuf c Hc) as Hi.
  destruct (Hz (length ks)) as (xk & Hxk & Rk & Tk); [lia|].
  destruct (bget_miss_inv me c d bn Hi Hl)
    as [(_ & Hall & _)|(j & xj & c' & x' & Elru & Hxj & Rj & E & Hx' & Ex
                        & Hdat & Hi')].
  { destruct (Hall _ _ Hxk Rk). }
  assert (Hj : j = length ks).
  { assert (Hge : (length ks <= j)%nat).
    { destruct (Nat.lt_ge_cases j (length ks)) as [Hlt'|Hge]; [|exact Hge].
      destruct (Hb j Hlt') as (y & Hy & Ry & _).
      rewrite Hxj in Hy. injection Hy as <-. lia. }
    destruct (Hz j) as (y & Hy & _ & Ty); [split; [exact Hge|eauto]|].
    rewrite Hxj in Hy. injection Hy as <-.
    destruct (lru_spec c) as (lb & Elb & Hcand). rewrite Elru in Elb.
    injection Elb as <-.
    destruct Hcand as [[[=] _]|(j' & xj' & [= <-] & _ & Hxj' & _ & Hmin)].
    rewrite Hxj in Hxj'. injection Hxj' as <-.
    destruct (Hmin (length ks) xk (lookup_lt_Some _ _ _ Hxk) Hxk Rk)
      as [_ Hle].
    rewrite Tk, Ty in Hle. specialize (Hle eq_refl). lia. }
  subst j. exists c'. split; [exact E|].
  assert (Hkeep : forall i x, i <> length ks -> pool c !! i = Some x ->
            exists y, pool c' !! i = Some y /\ refcnt y = refcnt x /\
                      dev y = dev x /\ blockno y = blockno x /\
                      ticks y = ticks x).
  { intros i x Hne Hx.
    destruct (dat_fields c' c i x (eq_sym (Hdat i Hne)) Hx)
      as (y & Hy & _ & D & B & _ & R & _ & T).
    exists y. auto. }
  split; [|split; [|split]].
  - apply (breach_step nbuf c c' Hc).
    apply (bstep_bget me c d bn _ c' Hmax E).
  - intros i Hi0. rewrite List.length_app in Hi0. simpl in Hi0.
    destruct (Nat.eq_dec i (length ks)) as [->|Hne].
    + exists x'. split; [exact Hx'|]. split; [rewrite Ex; reflexivity|].
      rewrite list_lookup_middle by reflexivity.
      rewrite Ex. reflexivity.
    + destruct (Hb i) as (x & Hx & Rx & Kx); [lia|].
      destruct (Hkeep i x Hne Hx) as (y & Hy & R & D & B & _).
      exists y. split; [exact Hy|]. split; [congruence|].
      rewrite lookup_app_l by lia. rewrite D, B. exact Kx.
  - intros i Hi0. rewrite List.length_app in Hi0. simpl in Hi0.
    destruct (Hz i) as (x & Hx & Rx & Tx); [lia|].
    destruct (Hkeep i x) as (y & Hy & R & _ & _ & T); [lia|exact Hx|].
    exists y. split; [exact Hy|]. split; congruence.
  - intros i y Hy. destruct (Nat.eq_dec i (length ks)) as [->|Hne];
      [exact Hlt|].
    destruct (dat_fields c c' i y (Hdat i Hne) Hy) as (x & Hx & _).
    exact (Hd i x Hx).
Qed.

Lemma filled_full nbuf me c ks d bn :
  filled nbuf c ks -> ~ In (d, bn) ks -> length ks = nbuf ->
  bget me c d bn = Panic "bget: no buffers".
Proof.
  intros Hf Hnin Hlen.
  pose proof (filled_miss nbuf c ks d bn Hf Hnin) as Hl.
  destruct Hf as (Hc & Hb & Hz & Hd).
  destruct (bget_miss_inv me c d bn (breach_inv nbuf c Hc) Hl)
    as [(_ & _ & E)|(j & xj & _ & _ & _ & Hxj & Rj & _)]; [exact E|].
  destruct (Hb j) as (y & Hy & Ry & _); [rewrite Hlen; eauto|].
  rewrite Hxj in Hy. injection Hy as <-. lia.
Qed.

Lemma bget_all_filled nbuf me keys : forall c ks,
  filled nbuf c ks -> List.NoDup (ks ++ keys) ->
  (length ks + length keys <= nbuf)%nat ->
  exists c',
    bget_all me c keys = Ok (map Slot (seq (length ks) (length keys)), c') /\
    filled nbuf c' (ks ++ keys).
Proof.
  induction keys as [|[d bn] keys IH]; intros c ks Hf Hnd Hlen.
  - exists c. rewrite app_nil_r. split; [reflexivity|exact Hf].
  - simpl in Hlen.
    assert (Hnin : ~ In (d, bn) ks).
    { intros Hin. apply (List.NoDup_remove_2 _ _ _ Hnd).
      apply in_or_app. auto. }
    destruct (filled_step nbuf me c ks d bn Hf Hnin) as (c1 & E1 & Hf1); [lia|].
    destruct (IH c1 (ks ++ [(d, bn)]) Hf1) as (c2 & E2 & Hf2).
    + now rewrite <- app_assoc.
    + rewrite List.length_app. simpl. lia.
    + exists c2. cbn [bget_all]. rewrite E1, E2.
      rewrite <- app_assoc in Hf2. split; [|exact Hf2].
      rewrite List.length_app. simpl.
      replace (length ks + 1)%nat with (S (length ks)) by lia. reflexivity.
Qed.

(** X18: the pool is a hard limit.  From the cache that [binit] leaves,
    acquiring different blocks, no more than there are buffers, takes the
    buffers in the order of the pool: the i-th call returns buffer i.  When
    every buffer has been taken this way, [bget] of any further block
    panics. *)
Theorem pool_capacity nbuf me keys :
  List.NoDup keys -> (length keys <= nbuf)%nat ->
  exists c',
    bget_all me (binit (bcache_zero nbuf)) keys =
      Ok (map Slot (seq 0 (length keys)), c') /\
    breach nbuf c' /\
    (length keys = nbuf ->
     forall me' d bn, ~ In (d, bn) keys ->
       bget me' c' d bn = Panic "bget: no buffers").
Proof.
  intros Hnd Hlen.
  destruct (bget_all_filled nbuf me keys _ [] (binit_filled nbuf) Hnd)
    as (c' & E & Hf); [simpl; lia|].
  exists c'. split; [exact E|]. split; [apply Hf|].
  intros Hfull me' d bn Hnin.
  now apply (filled_full nbuf me' c' keys d bn Hf).
Qed.

Lemma pool_capacity_witness :
  exists c',
    bget_all 7 ex_boot3 [(1, 10); (1, 11); (1, 12)] =
      Ok ([Slot 0; Slot 1; Slot 2], c') /\
    bget 8 c' 1 13 = Panic "bget: no buffers".
Proof.
  destruct (pool_capacity 3 7 [(1, 10); (1, 11); (1, 12)])
    as (c' & H1 & _ & H2).
  - repeat constructor; simpl; intuition congruence.
  - simpl. lia.
  - exists c'. split; [exact H1|]. apply H2; [reflexivity|].
    simpl. intuition congruence.
Defined.

(** ** Content and the disk *)


